(** * dots.ocr examples: layout post-processing, aggregation and dispatch

    A shallow embedding of the element-level operations of the example
    programs under [example/] (reading order, category grouping, multi-page
    merging) and of the pipeline core they drive, followed by the properties
    the design document states about them.

    Conventions.  A layout element is a Python [dict] decoded from JSON; the
    keys the programs read or write are the fields of [item], an absent key
    being [None].  Pixel coordinates, page numbers and reading-order indices
    are Python integers, hence [Z].  Dicts that are mutated in place live in a
    store indexed by object identity, and lists hold references into it. *)

From Stdlib Require Import ZArith Lia Reals Lra.
From stdpp Require Import sorting.
From stdpp Require Import base option list gmap strings functions pretty.

(** ** Layout elements *)

(** An element dict of a layout file.  Every key may be absent; a bbox
    that is present is a list of integers. *)
Record item : Type := Item {
  category : option string;
  bbox : option (list Z);
  text : option string;
  reading_order : option Z;
  page_number : option Z
}.

Global Instance item_eq_dec : EqDecision item.
Proof. solve_decision. Defined.

(** [item['reading_order'] = v] and [item['page_number'] = v]. *)
Definition set_reading_order (v : Z) (it : item) : item :=
  {| category := category it; bbox := bbox it; text := text it;
     reading_order := Some v; page_number := page_number it |}.

Definition set_page_number (v : Z) (it : item) : item :=
  {| category := category it; bbox := bbox it; text := text it;
     reading_order := reading_order it; page_number := Some v |}.

(** ** example/advanced_parsing.py *)

Module AdvancedParser.

(** Object identities and the store of element dicts. *)
Definition loc := nat.
Definition heap := loc → item.

(** Python compares the [(y1, x1)] tuples lexicographically. *)
Definition key_lt (a b : Z * Z) : Prop :=
  (a.1 < b.1 ∨ (a.1 = b.1 ∧ a.2 < b.2))%Z.

Definition key_le (a b : Z * Z) : Prop := key_lt a b ∨ a = b.

Global Instance key_lt_dec a b : Decision (key_lt a b).
Proof. unfold key_lt. apply _. Defined.

(** The local function [sort_key] of [analyze_reading_order], on an
    element dict of a layout file, whose bbox is a list of integers.
    [element_sort_key] below is the same function on any decoded element,
    where [len(bbox)] can raise; the two agree on layout elements
    ([element_sort_key_of_item]). *)
Definition sort_key (it : item) : Z * Z :=
  let bbox := default [0; 0; 0; 0]%Z (bbox it) in
  if decide (4 ≤ length bbox) then
    match take 4 bbox with
    | [x1; y1; x2; y2] => (y1, x1)
    | _ => (0, 0)%Z
    end
  else (0, 0)%Z.

(** The built-in [sorted(xs, key=...)]: a stable sort that compares keys
    with [<].  An element is moved past exactly those with a strictly
    smaller key, so equal keys stay in their original order. *)
Fixpoint insert_by {A} (key : A → Z * Z) (x : A) (l : list A) : list A :=
  match l with
  | [] => [x]
  | y :: l' =>
      if decide (key_lt (key y) (key x)) then y :: insert_by key x l'
      else x :: y :: l'
  end.

Definition sorted {A} (key : A → Z * Z) (l : list A) : list A :=
  foldr (insert_by key) [] l.

(** [for i, item in enumerate(sorted_data): item['reading_order'] = i + 1],
    started at index [i]. *)
Fixpoint assign_reading_order (h : heap) (i : nat) (ls : list loc) : heap :=
  match ls with
  | [] => h
  | l :: ls' =>
      assign_reading_order
        (<[l := set_reading_order (Z.of_nat i + 1) (h l)]> h) (S i) ls'
  end.

(** [analyze_reading_order]: returns the store after the in-place writes
    and the new list [sorted_data]; the argument list itself is not
    reordered. *)
Definition analyze_reading_order (h : heap) (layout_data : list loc)
    : heap * list loc :=
  let sorted_data := sorted (λ l, sort_key (h l)) layout_data in
  (assign_reading_order h 0 sorted_data, sorted_data).

(** *** Elements as [json.load] returns them

    In a layout file the [bbox] of an element is a list of integers, which
    is what [item] holds.  Decoded JSON can put other values there: the
    ones that have no [len] are kept here, since [sort_key] calls
    [len(bbox)] on whatever it finds. *)
Inductive bbox_value : Type :=
  | BBoxList (coords : list Z)
  | BBoxNull
  | BBoxNumber (n : Z).

Record element : Type := Element {
  el_category : option string;
  el_bbox : option bbox_value;
  el_text : option string;
  el_reading_order : option Z;
  el_page_number : option Z
}.

Definition element_store := loc → element.

(** An element dict of a layout file as a decoded element. *)
Definition of_item (it : item) : element :=
  {| el_category := category it; el_bbox := BBoxList <$> bbox it;
     el_text := text it; el_reading_order := reading_order it;
     el_page_number := page_number it |}.

Definition el_set_reading_order (v : Z) (e : element) : element :=
  {| el_category := el_category e; el_bbox := el_bbox e;
     el_text := el_text e; el_reading_order := Some v;
     el_page_number := el_page_number e |}.

(** [sort_key] on a decoded element: [None] is the [TypeError] that
    [len(bbox)] raises for [null] and for a number. *)
Definition element_sort_key (e : element) : option (Z * Z) :=
  match default (BBoxList [0; 0; 0; 0]%Z) (el_bbox e) with
  | BBoxList bbox =>
      Some (if decide (4 ≤ length bbox) then
              match take 4 bbox with
              | [x1; y1; x2; y2] => (y1, x1)
              | _ => (0, 0)%Z
              end
            else (0, 0)%Z)
  | BBoxNull | BBoxNumber _ => None
  end.

Fixpoint element_assign_reading_order (h : element_store) (i : nat)
    (ls : list loc) : element_store :=
  match ls with
  | [] => h
  | l :: ls' =>
      element_assign_reading_order
        (<[l := el_set_reading_order (Z.of_nat i + 1) (h l)]> h) (S i) ls'
  end.

(** [analyze_reading_order] on decoded elements.  [sorted] computes the
    key of every element before it compares any two, so a key that raises
    ends the call before anything is written: [None]. *)
Definition analyze_reading_order_json (h : element_store)
    (layout_data : list loc) : option (element_store * list loc) :=
  keys ← mapM (λ l, element_sort_key (h l)) layout_data;
  let sorted_data :=
    sorted (λ l, default (0, 0)%Z (element_sort_key (h l))) layout_data in
  Some (element_assign_reading_order h 0 sorted_data, sorted_data).

(** The keys of [structured_content] in [extract_structured_content]. *)
Definition categories : list string :=
  ["Title"; "Text"; "Table"; "Formula"; "List-item"; "Caption";
   "Section-header"; "Picture"; "Footnote"; "Page-header"; "Page-footer"].

Definition empty_structured_content : gmap string (list item) :=
  list_to_map ((λ c, (c, [])) <$> categories).

(** [item.get('category', 'Unknown')]. *)
Definition get_category (it : item) : string :=
  default "Unknown" (category it).

(** One iteration of the classification loop:
    [if category in structured_content:
         structured_content[category].append(item)]. *)
Definition classify (structured_content : gmap string (list item))
    (it : item) : gmap string (list item) :=
  let category := get_category it in
  match structured_content !! category with
  | Some items => <[category := items ++ [it]]> structured_content
  | None => structured_content
  end.

(** [extract_structured_content] on the decoded layout of the page; with
    no parse result or no layout file the loop is skipped, which is the
    case [layout_data = []]. *)
Definition extract_structured_content (layout_data : list item)
    : gmap string (list item) :=
  foldl classify empty_structured_content layout_data.

End AdvancedParser.

(** ** example/grounding_ocr_example.py *)

Module GroundingOCRProcessor.

(** Step 3 of [detect_then_ocr]: the [(bbox, category)] pairs of the
    elements of the target categories.  [target_categories] is a Python
    list, and an element without a usable bbox is skipped. *)
Definition target_regions (target_categories : list string)
    (layout_data : list item) : list (list Z * string) :=
  foldl (λ target_regions it,
           let category := default EmptyString (category it) in
           let bbox := default [] (bbox it) in
           if decide (category ∈ target_categories ∧ 4 ≤ length bbox)
           then target_regions ++ [(bbox, category)]
           else target_regions)
        [] layout_data.

End GroundingOCRProcessor.

(** ** Decoded JSON files *)

(** What [json.load] can return for a layout file.  A well-formed page holds
    a list of element dicts; the file of a filtered page holds the raw
    response as a string. *)
Inductive json_elem : Type :=
  | ElemDict (it : item)
  | ElemOther.

Inductive json_data : Type :=
  | JsonList (elems : list json_elem)
  | JsonStr (s : string)
  | JsonObject (keys : list string)
  | JsonScalar.

(** The per-page dict returned by the parser ([result.get(...)] keys). *)
Record result : Type := Result {
  page_no : option Z;
  layout_info_path : option string;
  md_content_path : option string;
  layout_image_path : option string;
  input_width : option Z;
  input_height : option Z;
  filtered : option bool
}.

(** Files are their text; a path without a file is [None].  The JSON decoder
    is the standard library's and is a parameter of the programs below:
    [None] is a [JSONDecodeError]. *)
Definition filesystem := string → option string.

Definition json_load (json_loads : string → option json_data)
    (fs : filesystem) (path : string) : option json_data :=
  fs path ≫= json_loads.

(** ** example/pdf_parsing_example.py *)

Module PDFProcessor.
Section merge.
Variable json_loads : string → option json_data.
Variable fs : filesystem.

(** [for item in page_layout: item['page_number'] = page_no + 1], on the
    freshly decoded value.  [None]: the loop raised (the value is not
    iterable, or an element does not support item assignment). *)
Definition tag_elem (n : Z) (e : json_elem) : option item :=
  match e with
  | ElemDict it => Some (set_page_number n it)
  | ElemOther => None
  end.

Definition tag_page_layout (n : Z) (page_layout : json_data)
    : option (list item) :=
  match page_layout with
  | JsonList elems => mapM (tag_elem n) elems
  | JsonStr s => if decide (s = EmptyString) then Some [] else None
  | JsonObject keys => if decide (keys = []) then Some [] else None
  | JsonScalar => None
  end.

(** The [try] block reading one page's layout; [except Exception] leaves
    [all_layout_data] as it was. *)
Definition read_page_layout (all_layout_data : list item) (r : result)
    : list item :=
  let page_no := default 0%Z (page_no r) in
  match layout_info_path r with
  | Some path =>
      match json_load json_loads fs path ≫= tag_page_layout (page_no + 1) with
      | Some page_layout => all_layout_data ++ page_layout
      | None => all_layout_data
      end
  | None => all_layout_data
  end.

(** The [try] block reading one page's markdown: the page label number and
    the page text are kept, the formatting of the separator line is not
    modelled. *)
Definition read_page_text (all_text_content : list (Z * string))
    (r : result) : list (Z * string) :=
  let page_no := default 0%Z (page_no r) in
  match md_content_path r with
  | Some path =>
      match fs path with
      | Some page_text => all_text_content ++ [((page_no + 1)%Z, page_text)]
      | None => all_text_content
      end
  | None => all_text_content
  end.

Record page_info : Type := PageInfo {
  pi_page_number : Z;
  pi_input_width : Z;
  pi_input_height : Z;
  has_layout : bool;
  has_text : bool
}.

Definition make_page_info (r : result) : page_info :=
  {| pi_page_number := default 0%Z (page_no r) + 1;
     pi_input_width := default 0%Z (input_width r);
     pi_input_height := default 0%Z (input_height r);
     has_layout := bool_decide (is_Some (layout_info_path r));
     has_text := bool_decide (is_Some (md_content_path r)) |}.

(** [category_stats[category] = category_stats.get(category, 0) + 1]. *)
Definition count_category (category_stats : gmap string nat) (it : item)
    : gmap string nat :=
  let category := default "Unknown" (category it) in
  <[category := default 0 (category_stats !! category) + 1]> category_stats.

Record merged_info : Type := MergedInfo {
  total_pages : nat;
  total_layout_elements : nat;
  pages_info : list page_info;
  category_statistics : gmap string nat
}.

(** What [merge_pdf_results] produces: the merged layout written to
    [*_layout.json], the page texts written to [*_text.md], and the
    returned statistics.  [None] is the early [return {}]. *)
Record merged : Type := Merged {
  all_layout_data : list item;
  all_text_content : list (Z * string);
  info : merged_info
}.

Definition merge_pdf_results (results : list result) : option merged :=
  match results with
  | [] => None
  | _ =>
      let '(layout, texts) :=
        foldl (λ '(layout, texts) r,
                 (read_page_layout layout r, read_page_text texts r))
              ([], []) results in
      let pages := foldl (λ acc r, acc ++ [make_page_info r]) [] results in
      let category_stats := foldl count_category ∅ layout in
      Some {| all_layout_data := layout;
              all_text_content := texts;
              info := {| total_pages := length results;
                         total_layout_elements := length layout;
                         pages_info := pages;
                         category_statistics := category_stats |} |}
  end.
End merge.
End PDFProcessor.

(** ** example/pdf_parsing_enhanced.py *)

Module EnhancedPDFProcessor.
Section parse.
Variable image : Type.
Variable image_open : string → option image.
Variable json_loads : string → option json_data.
Variable fs : filesystem.
(** [open(path, 'r', encoding='utf-8').read()] on a path that exists:
    [None] when it raises (the bytes are not UTF-8, the path is a
    directory, the file cannot be opened). *)
Variable read_text : string → option string.

Record page_result : Type := PageResult {
  pr_page_no : Z;
  layout_image : option image;
  cells_data : option json_data;
  md_content : option string;
  pr_filtered : bool
}.

(** The accumulators of the page loop. *)
Record acc : Type := Acc {
  parsed_results : list page_result;
  all_md_content : list string;
  all_cells_data : list json_elem
}.

(** [os.path.exists(result[k])] guarded by [k in result]. *)
Definition existing (path : option string) : option string :=
  path ≫= λ p, match fs p with Some _ => Some p | None => None end.

(** One iteration of [for i, result in enumerate(results)].  [None]: an
    exception escaped to the enclosing [except], which makes the whole
    call return [success = False]. *)
Definition parse_page (a : acc) (i : nat) (r : result) : option acc :=
  let is_filtered := default false (filtered r) in
  layout_image ←
    match existing (layout_image_path r) with
    | Some p => Some <$> image_open p
    | None => Some None
    end;
  '(cells, all_cells) ←
    match existing (layout_info_path r) with
    | Some p =>
        json_data ← json_load json_loads fs p;
        Some (Some json_data,
              if is_filtered then all_cells_data a
              else match json_data with
                   | JsonList elems => all_cells_data a ++ elems
                   | _ => all_cells_data a
                   end)
    | None => Some (None, all_cells_data a)
    end;
  '(md, all_md) ←
    match existing (md_content_path r) with
    | Some p =>
        page_content ← read_text p;
        Some (Some page_content, all_md_content a ++ [page_content])
    | None => Some (None, all_md_content a)
    end;
  Some {| parsed_results :=
            parsed_results a ++
              [{| pr_page_no := default (Z.of_nat i) (page_no r);
                  layout_image := layout_image;
                  cells_data := cells;
                  md_content := md;
                  pr_filtered := is_filtered |}];
          all_md_content := all_md;
          all_cells_data := all_cells |}.

Fixpoint parse_pages (a : acc) (i : nat) (results : list result)
    : option acc :=
  match results with
  | [] => Some a
  | r :: results' => a' ← parse_page a i r; parse_pages a' (S i) results'
  end.

Record api_output : Type := ApiOutput {
  out_parsed_results : list page_result;
  combined_cells_data : list json_elem;
  md_pages : list string;
  out_total_pages : nat
}.

(** [parse_pdf_with_api] after the parser returned [results]; [None] is
    the [{'success': False, ...}] answer. *)
Definition parse_pdf_with_api (results : list result) : option api_output :=
  match results with
  | [] => None
  | _ =>
      a ← parse_pages (Acc [] [] []) 0 results;
      Some {| out_parsed_results := parsed_results a;
              combined_cells_data := all_cells_data a;
              md_pages := all_md_content a;
              out_total_pages := length results |}
  end.
End parse.

  Arguments pr_page_no {image} _.
  Arguments layout_image {image} _.
  Arguments cells_data {image} _.
  Arguments md_content {image} _.
  Arguments pr_filtered {image} _.
  Arguments parsed_results {image} _.
  Arguments all_md_content {image} _.
  Arguments all_cells_data {image} _.
  Arguments Acc {image} _ _ _.
  Arguments out_parsed_results {image} _.
  Arguments combined_cells_data {image} _.
  Arguments md_pages {image} _.
  Arguments out_total_pages {image} _.
End EnhancedPDFProcessor.

(** ** The pipeline core

    The example programs drive a core (resolution planning, dispatch,
    response parsing, coordinate normalisation) whose code lives in the
    [dots_ocr] package and is not among the example sources.  The modules
    below follow the component contracts of the design document, section by
    section. *)

Module ResolutionPlanner.
Local Open Scope R_scope.

(** Modelled from the spec: the target pixel area of the missing planner
    (section 4.1).  The original area is clamped to the bounds that are
    supplied; with no bound it is kept. *)
Definition clamp_area (area : R) (min_pixels max_pixels : option R) : R :=
  match min_pixels, max_pixels with
  | Some lo, Some hi => Rmin (Rmax area lo) hi
  | Some lo, None => Rmax area lo
  | None, Some hi => Rmin area hi
  | None, None => area
  end.

(** Modelled from the spec: the output of the missing planner (section 2,
    item 1): target dimensions and the scale factor that is recorded with
    them. *)
Record plan : Type := Plan {
  target_width : R;
  target_height : R;
  scale_factor : R
}.

(** Modelled from the spec: the missing planner (section 4.1).  Both sides
    are scaled by the one factor that brings the area to the clamped target,
    which preserves the aspect ratio.  [None] is [InvalidDimensions].  The
    document gives no rule for rounding to a pixel grid, so dimensions and
    the factor are real numbers. *)
Definition resolution_plan (width height : R)
    (min_pixels max_pixels : option R) : option plan :=
  if Rle_dec width 0 then None
  else if Rle_dec height 0 then None
  else
    let area := width * height in
    let s := sqrt (clamp_area area min_pixels max_pixels / area) in
    Some {| target_width := width * s;
            target_height := height * s;
            scale_factor := s |}.

(** Modelled from the spec: a bbox [(x1, y1, x2, y2)] as the missing
    coordinate mappings take it (section 4.4). *)
Definition box : Type := R * R * R * R.

(** Modelled from the spec: the missing mapping of an original-space bbox
    into the scaled space by the page's recorded scale factor (section
    4.4). *)
Definition to_scaled (s : R) (b : box) : box :=
  let '(x1, y1, x2, y2) := b in (x1 * s, y1 * s, x2 * s, y2 * s).

(** Modelled from the spec: the missing mapping of a result bbox back to
    original-image space (section 4.4). *)
Definition to_original (s : R) (b : box) : box :=
  let '(x1, y1, x2, y2) := b in (x1 / s, y1 / s, x2 / s, y2 / s).

End ResolutionPlanner.

Module ResultParser.

(** Modelled from the spec: the fixed closed set of categories of the
    missing core's data model (section 3). *)
Inductive Category : Type :=
  | Title | Text | Table | Formula | List_item | Caption
  | Section_header | Picture | Footnote | Page_header | Page_footer.

Global Instance Category_eq_dec : EqDecision Category.
Proof. solve_decision. Defined.

(** Modelled from the spec: the names under which the missing parser meets
    the categories in a response (section 3). *)
Definition category_name (c : Category) : string :=
  match c with
  | Title => "Title" | Text => "Text" | Table => "Table"
  | Formula => "Formula" | List_item => "List-item" | Caption => "Caption"
  | Section_header => "Section-header" | Picture => "Picture"
  | Footnote => "Footnote" | Page_header => "Page-header"
  | Page_footer => "Page-footer"
  end.

(** Modelled from the spec: the enumeration of the fixed set (section 3),
    for the missing parser's lookup. *)
Definition all_categories : list Category :=
  [Title; Text; Table; Formula; List_item; Caption; Section_header;
   Picture; Footnote; Page_header; Page_footer].

(** Modelled from the spec: the bbox [[x1, y1, x2, y2]] of an element of the
    missing core (section 3), in pixels. *)
Record BBox : Type := MkBBox { x1 : Z; y1 : Z; x2 : Z; y2 : Z }.

(** Modelled from the spec: the Element of the missing core's data model
    (section 3). *)
Record Element : Type := MkElement {
  el_category : Category;
  el_bbox : BBox;
  el_text : string;
  el_reading_order : option Z
}.

(** Modelled from the spec: the reason codes of a Filtered page of the
    missing core (sections 3 and 7). *)
Inductive Reason : Type := MalformedResponse | BackendFailure.

(** Modelled from the spec: the PageResult of the missing core's data model
    (section 3). *)
Inductive PageResult : Type :=
  | Succeeded (elements : list Element)
  | Filtered (raw_text : string) (reason : Reason).

(** Modelled from the spec: a record as the missing parser decodes it,
    before validation (section 4.3): any key may be absent, and a bbox entry
    that is not a number is [None]. *)
Record record : Type := MkRecord {
  rec_category : option string;
  rec_bbox : option (list (option Z));
  rec_text : option string
}.

(** Modelled from the spec: the missing check that a category is drawn from
    the fixed set (section 4.3). *)
Definition parse_category (s : string) : option Category :=
  list_find (λ c, category_name c = s) all_categories ≫= λ p, Some p.2.

(** Modelled from the spec: the missing check for a 4-length numeric bbox
    (section 4.3). *)
Definition parse_bbox (b : list (option Z)) : option BBox :=
  match b with
  | [Some a; Some b; Some c; Some d] => Some (MkBBox a b c d)
  | _ => None
  end.

(** Modelled from the spec: the per-record check of the missing parser
    (section 4.3).  A record is kept when its category is one of the fixed
    set and its bbox has four numeric entries. *)
Definition validate (r : record) : option Element :=
  c ← rec_category r ≫= parse_category;
  b ← rec_bbox r ≫= parse_bbox;
  Some {| el_category := c; el_bbox := b;
          el_text := default EmptyString (rec_text r);
          el_reading_order := None |}.

Section parse.
(** The strict structured decoder and the repair pass, which strips prose
    and code fences around the list, work on text and are parameters. *)
Variable strict_decode : string → option (list record).
Variable repair : string → string.

(** Modelled from the spec: the three parsing attempts of the missing
    parser (section 4.3): strict decode, strict decode of the repaired
    text, and else Filtered with the raw text. *)
Definition parse (raw : string) : PageResult :=
  match strict_decode raw with
  | Some records => Succeeded (omap validate records)
  | None =>
      match strict_decode (repair raw) with
      | Some records => Succeeded (omap validate records)
      | None => Filtered raw MalformedResponse
      end
  end.
End parse.

End ResultParser.

Module LayoutPostProcessor.
Import ResultParser.
Local Open Scope Z_scope.

(** Modelled from the spec: clipping of one coordinate to a range, for the
    missing coordinate normalisation (section 4.4). *)
Definition clip (lo hi v : Z) : Z := Z.max lo (Z.min v hi).

(** Modelled from the spec: clipping of a bbox to [[0,width]×[0,height]] of
    the scaled image, missing from the sources (section 4.4). *)
Definition clip_bbox (width height : Z) (b : BBox) : BBox :=
  {| x1 := clip 0 width (x1 b); y1 := clip 0 height (y1 b);
     x2 := clip 0 width (x2 b); y2 := clip 0 height (y2 b) |}.

(** Modelled from the spec: the area by which the missing normalisation
    decides what to drop (section 4.4).  It is the area of the rectangle the
    bbox denotes, the points with [x1 ≤ x ≤ x2] and [y1 ≤ y ≤ y2]: a bbox
    whose corners are out of order denotes no point and has area zero. *)
Definition bbox_area (b : BBox) : Z :=
  Z.max 0 (x2 b - x1 b) * Z.max 0 (y2 b - y1 b).

(** Modelled from the spec: the in-place update of an element's bbox by the
    missing post-processor (section 3, lifecycle). *)
Definition with_bbox (e : Element) (b : BBox) : Element :=
  {| el_category := el_category e; el_bbox := b; el_text := el_text e;
     el_reading_order := el_reading_order e |}.

(** Modelled from the spec: the missing coordinate normalisation of one
    element (section 4.4): clip the bbox, drop a zero-area result. *)
Definition normalize_element (width height : Z) (e : Element)
    : option Element :=
  let b := clip_bbox width height (el_bbox e) in
  if decide (bbox_area b = 0) then None else Some (with_bbox e b).

(** Modelled from the spec: the missing coordinate normalisation of a
    page's elements (section 4.4). *)
Definition normalize (width height : Z) (elements : list Element)
    : list Element :=
  omap (normalize_element width height) elements.

(** Modelled from the spec: the invariant on an element of a page that the
    missing core maintains (section 3). *)
Definition in_bounds (width height : Z) (e : Element) : Prop :=
  let b := el_bbox e in
  0 ≤ x1 b ∧ x1 b < x2 b ∧ x2 b ≤ width ∧
  0 ≤ y1 b ∧ y1 b < y2 b ∧ y2 b ≤ height.

End LayoutPostProcessor.

Module InferenceDispatcher.
Import ResultParser.

(** Modelled from the spec: what one call of the missing dispatcher to the
    backend returns (sections 4.2 and 6): raw text, or a timeout or
    transient network error with its diagnostic. *)
Inductive attempt : Type :=
  | Response (raw : string)
  | Transient (diagnostic : string).

Section dispatch.
Variable page : Type.
(** [backend p k]: what the [k]-th call for page [p] returns. *)
Variable backend : page → nat → attempt.
Variable retry_budget : nat.
Variable strict_decode : string → option (list record).
Variable repair : string → string.

(** Modelled from the spec: the calls of one page's task in the missing
    dispatcher (section 4.2), from call [k] on with [budget] retries left.
    A response goes to the parser; a failed call is retried while the
    page's own budget lasts, and after that the page is Filtered with the
    diagnostic in place of the raw text. *)
Fixpoint call_with_retry (p : page) (k budget : nat) : PageResult :=
  match backend p k with
  | Response raw => parse strict_decode repair raw
  | Transient diagnostic =>
      match budget with
      | O => Filtered diagnostic BackendFailure
      | S budget' => call_with_retry p (S k) budget'
      end
  end.

(** Modelled from the spec: the task of one page in the missing dispatcher
    (section 4.2): a first call and up to [retry_budget] retries. *)
Definition page_task (p : page) : PageResult :=
  call_with_retry p 0 retry_budget.

(** Modelled from the spec: the write of a completed task into its output
    slot in the missing dispatcher (sections 4.2 and 5): the task of page
    [i] writes slot [i] and no other. *)
Definition complete (pages : list page)
    (slots : list (option PageResult)) (i : nat)
    : list (option PageResult) :=
  match pages !! i with
  | Some p => <[i := Some (page_task p)]> slots
  | None => slots
  end.

(** Modelled from the spec: a run of the missing dispatcher (section 5).
    One slot per page is allocated empty, and the tasks write their slots in
    the order [completion] in which they complete. *)
Definition run (pages : list page) (completion : list nat)
    : list (option PageResult) :=
  foldl (complete pages) (replicate (length pages) None) completion.

(** Modelled from the spec: the page results handed on by the missing
    dispatcher (section 3): they exist once every slot is filled, and are
    read in slot order. *)
Definition dispatch (pages : list page) (completion : list nat)
    : option (list PageResult) :=
  mapM (λ slot, slot) (run pages completion).
End dispatch.

(** Modelled from the spec: the status of a page result of the missing core
    (section 3). *)
Definition is_filtered (r : PageResult) : bool :=
  match r with Filtered _ _ => true | Succeeded _ => false end.

(** Modelled from the spec: the status of a page result of the missing core
    (section 3). *)
Definition is_succeeded (r : PageResult) : bool :=
  match r with Succeeded _ => true | Filtered _ _ => false end.

End InferenceDispatcher.

(** ** Python strings

    A [string] is the sequence of the characters of a Python [str], one
    [ascii] per character, for texts whose code points are below 256. *)

Module PyStr.

(** [str.isspace] on one character: the white space among the code points
    below 256. *)
Definition isspace (c : Ascii.ascii) : bool :=
  let n := Ascii.nat_of_ascii c in
  bool_decide (9 ≤ n ≤ 13 ∨ 28 ≤ n ≤ 31 ∨ n = 32 ∨ n = 133 ∨ n = 160).

(** [str.lstrip()] and [str.strip()] on the list of characters. *)
Fixpoint lstrip_list (l : list Ascii.ascii) : list Ascii.ascii :=
  match l with
  | [] => []
  | c :: l' => if isspace c then lstrip_list l' else l
  end.

Definition strip_list (l : list Ascii.ascii) : list Ascii.ascii :=
  reverse (lstrip_list (reverse (lstrip_list l))).

Definition strip (s : string) : string :=
  String.string_of_list_ascii (strip_list (String.list_ascii_of_string s)).

(** [s.startswith(p)] and [s.endswith(p)]. *)
Definition startswith (s p : string) : bool :=
  bool_decide (String.list_ascii_of_string p `prefix_of` String.list_ascii_of_string s).

Definition endswith (s p : string) : bool :=
  bool_decide (String.list_ascii_of_string p `suffix_of` String.list_ascii_of_string s).

(** The slice [s[k:-k]] for [k ≥ 1]: without the first and the last [k]
    characters, empty when the string has at most [2k] characters. *)
Definition slice_inner (k : nat) (s : string) : string :=
  let l := String.list_ascii_of_string s in
  String.string_of_list_ascii (drop k (take (length l - k) l)).

(** The line feed of the string literals. *)
Definition nl : string := String (Ascii.ascii_of_nat 10) EmptyString.

End PyStr.

(** ** example/advanced_parsing.py: extraction and conversion helpers *)

Module AdvancedParserHelpers.
Import PyStr.

(** The filtering loop of [extract_tables_only]; the comparison
    [item.get('category') == 'Table'] is false for an absent key. *)
Definition extract_tables_only (layout_data : list item) : list item :=
  foldl (λ tables it,
           if decide (category it = Some "Table") then tables ++ [it]
           else tables)
        [] layout_data.

(** The filtering loop of [extract_formulas_only]. *)
Definition extract_formulas_only (layout_data : list item) : list item :=
  foldl (λ formulas it,
           if decide (category it = Some "Formula") then formulas ++ [it]
           else formulas)
        [] layout_data.

(** The indentation of the lines of the template in
    [convert_tables_to_html]: sixteen spaces. *)
Definition indent : string := "                ".

(** The f-string of [convert_tables_to_html] for the table at index [i]. *)
Definition html_table (i : nat) (text : string) : string :=
  nl +:+ indent +:+ "<table>" +:+ nl
  +:+ indent +:+ "<caption>Table " +:+ pretty (i + 1) +:+ "</caption>" +:+ nl
  +:+ indent +:+ "<tbody>" +:+ nl
  +:+ indent +:+ text +:+ nl
  +:+ indent +:+ "</tbody>" +:+ nl
  +:+ indent +:+ "</table>" +:+ nl
  +:+ indent.

(** One iteration of [for i, table in enumerate(tables)]. *)
Definition convert_table (i : nat) (table : item) : string :=
  let text := default EmptyString (text table) in
  if startswith (strip text) "<table" then text else html_table i text.

Definition convert_tables_to_html (tables : list item) : list string :=
  (foldl (λ '(html_tables, i) table,
            (html_tables ++ [convert_table i table], S i))
         ([], 0) tables).1.

(** The body of the loop of [extract_formulas_latex] for one text: [None]
    when the stripped text is empty and nothing is appended.  The second
    test is the [elif] of the source. *)
Definition clean_formula (text : string) : option string :=
  let clean_text := strip text in
  if decide (clean_text = EmptyString) then None
  else
    Some (if startswith clean_text "$" && endswith clean_text "$"
          then slice_inner 1 clean_text
          else if startswith clean_text "$$" && endswith clean_text "$$"
          then slice_inner 2 clean_text
          else clean_text).

Definition extract_formulas_latex (formulas : list item) : list string :=
  foldl (λ latex_formulas formula,
           match clean_formula (default EmptyString (text formula)) with
           | Some clean_text => latex_formulas ++ [clean_text]
           | None => latex_formulas
           end)
        [] formulas.

End AdvancedParserHelpers.

(** ** example/grounding_ocr_example.py: region OCR *)

Module GroundingRegions.
Section ocr.
(** [ocr_region] on the image at hand: the text of a region, [None] when
    the call raises. *)
Variable ocr_region : list Z → option string.

(** [ocr_multiple_regions]: the [except] branch records the empty text. *)
Definition ocr_multiple_regions (bboxes : list (list Z))
    : list (list Z * string) :=
  foldl (λ results bbox,
           results ++ [(bbox, default EmptyString (ocr_region bbox))])
        [] bboxes.

(** [detect_then_ocr] once the layout detection has been read:
    [target_categories = None] selects the default list, and every target
    region is sent to [ocr_region] under the same [try]. *)
Definition detect_then_ocr (target_categories : option (list string))
    (layout_data : list item) : list (list Z * string * string) :=
  let target_categories :=
    default ["Text"; "Title"; "Table"; "Formula"] target_categories in
  foldl (λ results '(bbox, category),
           results ++ [(bbox, category,
                        default EmptyString (ocr_region bbox))])
        []
        (GroundingOCRProcessor.target_regions target_categories layout_data).
End ocr.
End GroundingRegions.

(** ** example/pdf_parsing_example.py: page ranges and batches *)

Module PDFProcessorBatch.

(** A bound of a Python slice on a sequence of length [n]: a negative bound
    counts from the end, and every bound is clamped to the sequence. *)
Definition slice_index (n i : Z) : Z :=
  if decide (i < 0)%Z then Z.max 0 (i + n) else Z.min i n.

(** The slice [l[start:stop]]. *)
Definition py_slice {A} (l : list A) (start stop : Z) : list A :=
  let n := Z.of_nat (length l) in
  let a := slice_index n start in
  let b := slice_index n stop in
  take (Z.to_nat (b - a)) (drop (Z.to_nat a) l).

Section batch.
Variable image : Type.
(** [image.width] and [image.height]. *)
Variable image_size : image → Z * Z.
(** [load_images_from_pdf], [os.path.getsize], [os.path.exists] and
    [parser.parse_file]; [None] when the call raises. *)
Variable load_images_from_pdf : string → option (list image).
Variable getsize : string → option Z.
Variable pdf_exists : string → bool.
Variable parse_file : string → option (list result).
(** [parser._parse_single_image] with its [page_idx]. *)
Variable parse_single_image : image → Z → option result.
Variable dpi : Z.
(** Wall-clock durations are floats: their sum and their test against zero
    are left to the machine. *)
Variable time : Type.
Variable time_add : time → time → time.
Variable time_is_zero : time → bool.
Variable json_loads : string → option json_data.
Variable fs : filesystem.
(** Whether [os.makedirs] and the three file writes at the end of
    [merge_pdf_results] go through for these page results; [false] when
    one of them raises. *)
Variable merged_files_writable : list result → bool.

(** The page loop of [parse_pdf_pages_range]; a result is paired with the
    [file_path] written into it.  [None]: a page raised. *)
Fixpoint parse_selected (pdf_path : string) (start_page : Z) (i : nat)
    (selected_images : list image) (results : list (result * string))
    : option (list (result * string)) :=
  match selected_images with
  | [] => Some results
  | image :: rest =>
      r ← parse_single_image image (start_page + Z.of_nat i)%Z;
      parse_selected pdf_path start_page (S i) rest
        (results ++ [(r, pdf_path)])
  end.

(** [parse_pdf_pages_range]: any exception gives the empty list. *)
Definition parse_pdf_pages_range (pdf_path : string)
    (start_page end_page : Z) : list (result * string) :=
  default []
    (all_images ← load_images_from_pdf pdf_path;
     parse_selected pdf_path start_page 0
       (py_slice all_images start_page end_page) []).

(** The dict of [get_pdf_info]: the successful one, or the one with the
    [error] key, which has no [file_size]. *)
Record pdf_details : Type := PdfDetails {
  file_size : Z;
  page_count : nat;
  estimated_processing_time : nat;
  first_page : option (Z * Z * Z)
}.

Inductive pdf_info : Type :=
  | Info (details : pdf_details)
  | InfoError.

Definition get_pdf_info (pdf_path : string) : pdf_info :=
  match load_images_from_pdf pdf_path with
  | None => InfoError
  | Some images =>
      match getsize pdf_path with
      | None => InfoError
      | Some size =>
          Info {| file_size := size;
                  page_count := length images;
                  estimated_processing_time := length images * 10;
                  first_page :=
                    match images with
                    | [] => None
                    | first :: _ =>
                        let '(w, h) := image_size first in
                        Some (w, h, (w * h)%Z)
                    end |}
      end
  end.

Record processing_stats : Type := Stats {
  total_files : Z;
  total_pages : Z;
  successful_pages : Z;
  failed_pages : Z;
  total_time : time
}.

(** The statistics updates of the [try] and of the [except] block of
    [parse_pdf_basic]. *)
Definition count_success (st : processing_stats) (pages : nat)
    (results : list result) (processing_time : time) : processing_stats :=
  {| total_files := total_files st + 1;
     total_pages := total_pages st + Z.of_nat pages;
     successful_pages := successful_pages st + Z.of_nat (length results);
     failed_pages := failed_pages st;
     total_time := time_add (total_time st) processing_time |}.

Definition count_failure (st : processing_stats) (pages : nat)
    (processing_time : time) : processing_stats :=
  {| total_files := total_files st + 1;
     total_pages := total_pages st + Z.of_nat pages;
     successful_pages := successful_pages st;
     failed_pages := failed_pages st + Z.of_nat pages;
     total_time := time_add (total_time st) processing_time |}.

(** [parse_pdf_basic] with the durations measured in the [try] and in the
    [except] block.  [None]: a [KeyError] escapes, because the first
    [print] reads [pdf_info['file_size']] before the [error] key is
    looked at.  The speed line divides by the duration inside the [try]. *)
Definition parse_pdf_basic (st : processing_stats) (pdf_path : string)
    (elapsed elapsed_except : time)
    : option (processing_stats * list result) :=
  match get_pdf_info pdf_path with
  | InfoError => None
  | Info details =>
      match parse_file pdf_path with
      | Some results =>
          let st' := count_success st (page_count details) results elapsed in
          if time_is_zero elapsed
          then Some (count_failure st' (page_count details) elapsed_except, [])
          else Some (st', results)
      | None =>
          Some (count_failure st (page_count details) elapsed_except, [])
      end
  end.

Inductive batch_status : Type := success | failed | error.

Record batch_result : Type := BatchResult {
  br_file_path : string;
  br_status : batch_status;
  br_page_results : list result;
  br_page_count : nat;
  br_merged_info : option PDFProcessor.merged_info
}.

(** One iteration of the loop of [batch_process_pdfs].  Inside the [try],
    [merge_pdf_results] is called for a non-empty result and raises when
    its files cannot be written; the [except] branch then records the
    same [error] entry as for a raise of [parse_pdf_basic], whose update
    of the statistics stays. *)
Definition process_pdf (st : processing_stats)
    (batch_results : list batch_result) (pdf_path : string)
    (elapsed elapsed_except : time)
    : processing_stats * list batch_result :=
  let error_entry :=
    {| br_file_path := pdf_path; br_status := error;
       br_page_results := []; br_page_count := 0;
       br_merged_info := None |} in
  if pdf_exists pdf_path then
    match parse_pdf_basic st pdf_path elapsed elapsed_except with
    | Some (st', results) =>
        match results with
        | [] =>
            (st',
             batch_results ++
               [{| br_file_path := pdf_path; br_status := failed;
                   br_page_results := results;
                   br_page_count := length results;
                   br_merged_info := None |}])
        | _ =>
            if merged_files_writable results then
              (st',
               batch_results ++
                 [{| br_file_path := pdf_path; br_status := success;
                     br_page_results := results;
                     br_page_count := length results;
                     br_merged_info :=
                       PDFProcessor.info
                         <$> PDFProcessor.merge_pdf_results json_loads fs
                               results |}])
            else (st', batch_results ++ [error_entry])
        end
    | None => (st, batch_results ++ [error_entry])
    end
  else (st, batch_results).

(** [batch_process_pdfs] on paths paired with the durations their calls
    measure.  [print_batch_statistics] at the end divides by the total
    time when pages were counted: [None] is its [ZeroDivisionError]. *)
Definition batch_process_pdfs (st : processing_stats)
    (pdf_paths : list (string * (time * time)))
    : option (processing_stats * list batch_result) :=
  let '(st', batch_results) :=
    foldl (λ '(st, batch_results) '(pdf_path, (elapsed, elapsed_except)),
             process_pdf st batch_results pdf_path elapsed elapsed_except)
          (st, []) pdf_paths in
  if bool_decide (0 < total_pages st')%Z && time_is_zero (total_time st')
  then None
  else Some (st', batch_results).
End batch.

Arguments Stats {time} _ _ _ _ _.
Arguments total_files {time} _.
Arguments total_pages {time} _.
Arguments successful_pages {time} _.
Arguments failed_pages {time} _.
Arguments total_time {time} _.
End PDFProcessorBatch.

(** ** example/pdf_parsing_enhanced.py: structured analysis *)

Module EnhancedAnalysis.
Import PyStr.

Inductive language : Type := Chinese | English | Mixed.

Section analysis.
(** The ratios of [detect_content_languages] are floats; the detection (a
    count of regular-expression matches divided by the length) and the
    three comparisons with [0.5] and [0.1] are left to the machine. *)
Variable ratio : Type.
Variable detect_content_languages : string → ratio * ratio.
Variable gt_half : ratio → bool.
Variable lt_tenth : ratio → bool.
Variable gt_tenth : ratio → bool.

(** The [{'text', 'bbox', 'category'}] dicts of [text_by_type], and the
    ones with the two ratios. *)
Record entry : Type := Entry {
  en_text : string;
  en_bbox : list Z;
  en_category : string
}.

Record language_entry : Type := LanguageEntry {
  le_entry : entry;
  le_chinese_ratio : ratio;
  le_english_ratio : ratio
}.

Record language_stats : Type := LanguageStats {
  chinese_elements : nat;
  english_elements : nat;
  mixed_elements : nat;
  total_text_elements : nat
}.

Record element_types : Type := ElementTypes {
  tables : nat;
  images : nat;
  formulas : nat;
  text_blocks : nat;
  titles : nat
}.

Record text_by_type : Type := TextByType {
  chinese_text : list language_entry;
  english_text : list language_entry;
  mixed_text : list language_entry;
  table_entries : list entry;
  formula_entries : list entry;
  title_entries : list entry
}.

Record analysis : Type := Analysis {
  total_elements : nat;
  content_types : gmap string nat;
  languages : language_stats;
  types : element_types;
  texts : text_by_type
}.

(** The [if / elif / elif / else] chain on the two ratios. *)
Definition classify_language (chinese_ratio english_ratio : ratio)
    : language :=
  if gt_half chinese_ratio && lt_tenth english_ratio then Chinese
  else if gt_half english_ratio && lt_tenth chinese_ratio then English
  else if gt_tenth chinese_ratio && gt_tenth english_ratio then Mixed
  else English.

(** The language analysis of one text block with a non-blank text. *)
Definition count_language (e : entry) (ls : language_stats)
    (tb : text_by_type) : language_stats * text_by_type :=
  let '(chinese_ratio, english_ratio) :=
    detect_content_languages (en_text e) in
  let element_info := LanguageEntry e chinese_ratio english_ratio in
  let ls := {| chinese_elements := chinese_elements ls;
               english_elements := english_elements ls;
               mixed_elements := mixed_elements ls;
               total_text_elements := total_text_elements ls + 1 |} in
  match classify_language chinese_ratio english_ratio with
  | Chinese =>
      ({| chinese_elements := chinese_elements ls + 1;
          english_elements := english_elements ls;
          mixed_elements := mixed_elements ls;
          total_text_elements := total_text_elements ls |},
       {| chinese_text := chinese_text tb ++ [element_info];
          english_text := english_text tb; mixed_text := mixed_text tb;
          table_entries := table_entries tb;
          formula_entries := formula_entries tb;
          title_entries := title_entries tb |})
  | English =>
      ({| chinese_elements := chinese_elements ls;
          english_elements := english_elements ls + 1;
          mixed_elements := mixed_elements ls;
          total_text_elements := total_text_elements ls |},
       {| chinese_text := chinese_text tb;
          english_text := english_text tb ++ [element_info];
          mixed_text := mixed_text tb;
          table_entries := table_entries tb;
          formula_entries := formula_entries tb;
          title_entries := title_entries tb |})
  | Mixed =>
      ({| chinese_elements := chinese_elements ls;
          english_elements := english_elements ls;
          mixed_elements := mixed_elements ls + 1;
          total_text_elements := total_text_elements ls |},
       {| chinese_text := chinese_text tb; english_text := english_text tb;
          mixed_text := mixed_text tb ++ [element_info];
          table_entries := table_entries tb;
          formula_entries := formula_entries tb;
          title_entries := title_entries tb |})
  end.

(** The body of [for element in cells_data] for an element dict. *)
Definition analyze_element (a : analysis) (element : item) : analysis :=
  let category := default "Unknown" (category element) in
  let text := default EmptyString (text element) in
  let bbox := default [] (bbox element) in
  let e := Entry text bbox category in
  let counts :=
    <[category := default 0 (content_types a !! category) + 1]>
      (content_types a) in
  let et := types a in
  let tb := texts a in
  if decide (category = "Table") then
    {| total_elements := total_elements a; content_types := counts;
       languages := languages a;
       types := {| tables := tables et + 1; images := images et;
                   formulas := formulas et; text_blocks := text_blocks et;
                   titles := titles et |};
       texts := {| chinese_text := chinese_text tb;
                   english_text := english_text tb;
                   mixed_text := mixed_text tb;
                   table_entries := table_entries tb ++ [e];
                   formula_entries := formula_entries tb;
                   title_entries := title_entries tb |} |}
  else if decide (category = "Picture") then
    {| total_elements := total_elements a; content_types := counts;
       languages := languages a;
       types := {| tables := tables et; images := images et + 1;
                   formulas := formulas et; text_blocks := text_blocks et;
                   titles := titles et |};
       texts := tb |}
  else if decide (category = "Formula") then
    {| total_elements := total_elements a; content_types := counts;
       languages := languages a;
       types := {| tables := tables et; images := images et;
                   formulas := formulas et + 1; text_blocks := text_blocks et;
                   titles := titles et |};
       texts := {| chinese_text := chinese_text tb;
                   english_text := english_text tb;
                   mixed_text := mixed_text tb;
                   table_entries := table_entries tb;
                   formula_entries := formula_entries tb ++ [e];
                   title_entries := title_entries tb |} |}
  else if decide (category ∈ ["Title"; "Section-header"]) then
    {| total_elements := total_elements a; content_types := counts;
       languages := languages a;
       types := {| tables := tables et; images := images et;
                   formulas := formulas et; text_blocks := text_blocks et;
                   titles := titles et + 1 |};
       texts := {| chinese_text := chinese_text tb;
                   english_text := english_text tb;
                   mixed_text := mixed_text tb;
                   table_entries := table_entries tb;
                   formula_entries := formula_entries tb;
                   title_entries := title_entries tb ++ [e] |} |}
  else if decide (category ∈ ["Text"; "List-item"; "Caption"]) then
    let et := {| tables := tables et; images := images et;
                 formulas := formulas et; text_blocks := text_blocks et + 1;
                 titles := titles et |} in
    if decide (strip text = EmptyString) then
      {| total_elements := total_elements a; content_types := counts;
         languages := languages a; types := et; texts := tb |}
    else
      let '(ls, tb) := count_language e (languages a) tb in
      {| total_elements := total_elements a; content_types := counts;
         languages := ls; types := et; texts := tb |}
  else
    {| total_elements := total_elements a; content_types := counts;
       languages := languages a; types := et; texts := tb |}.

(** The dict [analysis] before the loop. *)
Definition empty_analysis (n : nat) : analysis :=
  {| total_elements := n; content_types := ∅;
     languages := LanguageStats 0 0 0 0;
     types := ElementTypes 0 0 0 0 0;
     texts := TextByType [] [] [] [] [] [] |}.

(** [analyze_structured_content]; an element that is not a dict has no
    [get] and raises: [None]. *)
Definition analyze_structured_content (cells_data : list json_elem)
    : option analysis :=
  foldl (λ a element,
           a ← a;
           match element with
           | ElemDict it => Some (analyze_element a it)
           | ElemOther => None
           end)
        (Some (empty_analysis (length cells_data))) cells_data.
End analysis.

Arguments le_entry {ratio} _.
Arguments le_chinese_ratio {ratio} _.
Arguments le_english_ratio {ratio} _.
Arguments chinese_text {ratio} _.
Arguments english_text {ratio} _.
Arguments mixed_text {ratio} _.
Arguments table_entries {ratio} _.
Arguments formula_entries {ratio} _.
Arguments title_entries {ratio} _.
Arguments total_elements {ratio} _.
Arguments content_types {ratio} _.
Arguments languages {ratio} _.
Arguments types {ratio} _.
Arguments texts {ratio} _.
End EnhancedAnalysis.

(** ** example/advanced_parsing.py: the CSV and text files *)

Module AdvancedParserFormats.
Import PyStr.

(** The double quote character. *)
Definition quote_char : Ascii.ascii := Ascii.ascii_of_nat 34.
Definition quote : string := String quote_char EmptyString.

(** [text.replace] of a double quote by two. *)
Definition escape_quotes (text : string) : string :=
  String.string_of_list_ascii
    (c ← String.list_ascii_of_string text;
     if decide (c = quote_char) then [c; c] else [c]).

Section formats.
(** Python's [str] of a bbox list. *)
Variable str_bbox : list Z → string.

(** The f-string written for one element of the CSV file. *)
Definition csv_row (it : item) : string :=
  let category := default EmptyString (category it) in
  let bbox := str_bbox (default [] (bbox it)) in
  let text := escape_quotes (default EmptyString (text it)) in
  quote +:+ category +:+ quote +:+ "," +:+ quote +:+ bbox +:+ quote
  +:+ "," +:+ quote +:+ text +:+ quote +:+ nl.

(** The strings written to the CSV file of [save_results_multiple_formats],
    one per [f.write]. *)
Definition csv_writes (layout_data : list item) : list string :=
  foldl (λ written it, written ++ [csv_row it])
        ["category,bbox,text" +:+ nl] layout_data.
End formats.

(** The header and the numbered line of the structured text file. *)
Definition category_header (category : string) : string :=
  nl +:+ "=== " +:+ category +:+ " ===" +:+ nl.

Definition numbered_line (i : nat) (text : string) : string :=
  pretty i +:+ ". " +:+ text +:+ nl.

(** [structured.items()]: the dict of [extract_structured_content] is
    iterated in the order in which its eleven keys were inserted. *)
Definition structured_items (structured : gmap string (list item))
    : list (string * list item) :=
  (λ category, (category, default [] (structured !! category)))
    <$> AdvancedParser.categories.

(** The writes for one category: nothing for an empty list, else the header
    and the texts that are not blank, each with its position in
    [enumerate(items, 1)]. *)
Definition txt_category (written : list string)
    (entry : string * list item) : list string :=
  let '(category, items) := entry in
  match items with
  | [] => written
  | _ =>
      (foldl (λ '(written, i) it,
                let text := default EmptyString (text it) in
                (if decide (strip text = EmptyString) then written
                 else written ++ [numbered_line i text],
                 S i))
             (written ++ [category_header category], 1) items).1
  end.

(** The strings written to the structured text file for the layout that
    [extract_structured_content] reads. *)
Definition txt_writes (layout_data : list item) : list string :=
  foldl txt_category []
    (structured_items (AdvancedParser.extract_structured_content layout_data)).

End AdvancedParserFormats.

(** * Notions used in the statements *)

(** The order on elements induced by their sort keys. *)
Definition le_by {A} (key : A → Z * Z) : relation A :=
  λ a b, AdvancedParser.key_le (key a) (key b).

(** The position of the last occurrence of an object in a list of
    references: the iteration that writes its [reading_order] last. *)
Fixpoint last_pos (l : AdvancedParser.loc) (ls : list AdvancedParser.loc)
    : option nat :=
  match ls with
  | [] => None
  | x :: xs =>
      match last_pos l xs with
      | Some k => Some (S k)
      | None => if decide (x = l) then Some 0 else None
      end
  end.

(** Sample data: a title above two text blocks that share their top-left
    corner, and a fragment whose bbox has only two entries. *)
Definition sample_item (c : string) (b : list Z) : item :=
  {| category := Some c; bbox := Some b; text := None;
     reading_order := None; page_number := None |}.

Definition sample_store : AdvancedParser.heap := λ l,
  match l with
  | 0 => sample_item "Text" [10; 50; 200; 100]%Z
  | 1 => sample_item "Title" [10; 10; 200; 40]%Z
  | 2 => sample_item "Text" [5; 7]%Z
  | _ => sample_item "Text" [10; 50; 300; 100]%Z
  end.

(** A row of three text blocks with the same top coordinate, given right
    to left, the last two sharing their top-left corner, below a title. *)
Definition sample_row_store : AdvancedParser.heap := λ l,
  match l with
  | 0 => sample_item "Text" [300; 50; 400; 100]%Z
  | 1 => sample_item "Text" [10; 50; 200; 100]%Z
  | 2 => sample_item "Text" [10; 50; 250; 100]%Z
  | _ => sample_item "Title" [10; 10; 200; 40]%Z
  end.

(** The decoded elements of the sample store, and the same store with a
    [null] bbox in its third dict. *)
Definition sample_elements_store : AdvancedParser.element_store := λ l,
  AdvancedParser.of_item (sample_store l).

Definition null_bbox_store : AdvancedParser.element_store := λ l,
  match l with
  | 2 =>
      AdvancedParser.Element (Some "Text") (Some AdvancedParser.BBoxNull)
        None None None
  | _ => AdvancedParser.of_item (sample_store l)
  end.

(** The page of the category-filtering scenario: a title, a paragraph, a
    table and a second paragraph. *)
Definition sample_page : list item :=
  [sample_item "Title" [10; 10; 200; 40]%Z;
   sample_item "Text" [10; 50; 200; 100]%Z;
   sample_item "Table" [10; 110; 200; 300]%Z;
   sample_item "Text" [10; 310; 200; 400]%Z].

(** What the dict of [extract_structured_content] holds for a list of
    target categories, read target by target. *)
Definition found_under (targets : list string)
    (structured_content : gmap string (list item)) : list item :=
  targets ≫= λ c, default [] (structured_content !! c).

(** A page on which a title stands between two paragraphs, and a page
    with an element of a category outside the fixed keys. *)
Definition interleaved_page : list item :=
  [sample_item "Text" [10; 10; 200; 40]%Z;
   sample_item "Title" [10; 50; 200; 100]%Z;
   sample_item "Text" [10; 110; 200; 300]%Z].

Definition stamp_page : list item :=
  [sample_item "Stamp" [10; 10; 200; 40]%Z].

(** What one page contributes to the merged layout of
    [merge_pdf_results]: its elements tagged with the page number when the
    layout file decodes to a list of dicts, nothing otherwise. *)
Definition page_elements (json_loads : string → option json_data)
    (fs : filesystem) (r : result) : list item :=
  default []
    (path ← layout_info_path r;
     page_layout ← json_load json_loads fs path;
     PDFProcessor.tag_page_layout (default 0%Z (page_no r) + 1) page_layout).

(** What one page contributes to [combined_cells_data] of
    [parse_pdf_with_api]: the decoded list of a page that is not filtered. *)
Definition page_cells (json_loads : string → option json_data)
    (fs : filesystem) (r : result) : list json_elem :=
  if default false (filtered r) then []
  else match layout_info_path r ≫= json_load json_loads fs with
       | Some (JsonList elems) => elems
       | _ => []
       end.

(** A two-page document: page 0 decodes to a title and a paragraph, the
    file of page 1 holds the raw text of a filtered page. *)
Definition sample_json_loads (s : string) : option json_data :=
  if decide (s = "[title, body]") then
    Some (JsonList [ElemDict (sample_item "Title" [10; 10; 200; 40]%Z);
                    ElemDict (sample_item "Text" [10; 50; 200; 100]%Z)])
  else if decide (s = "[stale]") then
    Some (JsonList [ElemDict (sample_item "Text" [0; 0; 10; 10]%Z)])
  else if decide (s = "timeout") then Some (JsonStr "timeout")
  else None.

Definition sample_fs : filesystem := λ path,
  if decide (path = "page_0.json") then Some "[title, body]"
  else if decide (path = "page_1.json") then Some "timeout"
  else if decide (path = "page_2.json") then Some "[stale]"
  else None.

Definition sample_result (n : Z) (path : string) (is_filtered : bool)
    : result :=
  {| page_no := Some n; layout_info_path := Some path;
     md_content_path := None; layout_image_path := None;
     input_width := Some 1000%Z; input_height := Some 800%Z;
     filtered := Some is_filtered |}.

Definition sample_results : list result :=
  [sample_result 0 "page_0.json" false; sample_result 1 "page_1.json" true].

(** A single page that is marked filtered although its layout file holds
    a well-formed list. *)
Definition stale_results : list result :=
  [sample_result 0 "page_2.json" true].

(** A decoded record is valid when it carries a category of the fixed set
    and a bbox of four numbers. *)
Definition valid_record (r : ResultParser.record) : Prop :=
  (∃ c, ResultParser.rec_category r = Some (ResultParser.category_name c)) ∧
  (∃ a b c d, ResultParser.rec_bbox r = Some [Some a; Some b; Some c; Some d]).

(** An element carries the category and the bbox of the record it was
    decoded from. *)
Definition carries (r : ResultParser.record) (e : ResultParser.Element)
    : Prop :=
  ResultParser.rec_category r
  = Some (ResultParser.category_name (ResultParser.el_category e)) ∧
  ResultParser.rec_bbox r
  = Some [Some (ResultParser.x1 (ResultParser.el_bbox e));
          Some (ResultParser.y1 (ResultParser.el_bbox e));
          Some (ResultParser.x2 (ResultParser.el_bbox e));
          Some (ResultParser.y2 (ResultParser.el_bbox e))].

(** The response of the end-to-end scenario with one malformed record
    between the two valid ones, behind a toy decoder that only knows this
    text once its wrapping prose is stripped. *)
Definition sample_records : list ResultParser.record :=
  [ResultParser.MkRecord (Some "Title")
     (Some [Some 10; Some 10; Some 200; Some 40]%Z) (Some "Report");
   ResultParser.MkRecord (Some "Heading")
     (Some [Some 10; Some 45; Some 200]%Z) None;
   ResultParser.MkRecord (Some "Text")
     (Some [Some 10; Some 50; Some 200; Some 100]%Z) (Some "Body")].

Definition sample_decode (s : string) : option (list ResultParser.record) :=
  if decide (s = "[records]") then Some sample_records else None.

Definition sample_repair (s : string) : string :=
  if decide (s = "Here is the layout: [records]") then "[records]" else s.

(** Elements of a 1000 x 800 page: one inside, one hanging over the right
    and bottom edges, one entirely outside, and one with its corners out of
    order. *)
Definition sample_element (a b c d : Z) : ResultParser.Element :=
  ResultParser.MkElement ResultParser.Text (ResultParser.MkBBox a b c d)
    EmptyString None.

Definition sample_elements : list ResultParser.Element :=
  [sample_element 10 10 200 40; sample_element 900 700 1100 900;
   sample_element 1200 10 1300 40; sample_element 50 50 20 20]%Z.

(** A backend that answers pages 0 and 2 at once, and page 1 never. *)
Definition sample_backend (p k : nat) : InferenceDispatcher.attempt :=
  if decide (p = 1) then InferenceDispatcher.Transient "timeout"
  else InferenceDispatcher.Response "[records]".

(** [a] occurs at an earlier position than [b]. *)
Definition before {A} (a b : A) (l : list A) : Prop :=
  ∃ i j, i < j ∧ l !! i = Some a ∧ l !! j = Some b.

(** A formula element with the given text. *)
Definition sample_formula (s : string) : item :=
  {| category := Some "Formula"; bbox := None; text := Some s;
     reading_order := None; page_number := None |}.

(** The sum of the counters of a dict of counts. *)
Definition map_sum (m : gmap string nat) : nat :=
  map_fold (λ _ n acc, n + acc) 0 m.

(** The counting step shared by [category_stats] and [content_types]:
    [d[k] = d.get(k, 0) + 1] for the key of an element. *)
Definition count_key (key : item → string) (m : gmap string nat) (it : item)
    : gmap string nat :=
  <[key it := default 0 (m !! key it) + 1]> m.

(** The category under which an element is counted. *)
Definition counted_category (it : item) : string :=
  default "Unknown" (category it).

(** The entry of a dict of counts for a key that occurs [n] times. *)
Definition count_entry (n : nat) : option nat :=
  if decide (n = 0) then None else Some n.

(** What one page contributes to the merged text of [merge_pdf_results]:
    the text of its markdown file under the page's label number, nothing
    when the file cannot be read. *)
Definition page_text (fs : filesystem) (r : result) : option (Z * string) :=
  path ← md_content_path r;
  page_text ← fs path;
  Some ((default 0 (page_no r) + 1)%Z, page_text).

(** Two pages with markdown files, of which only the first exists. *)
Definition sample_md_fs : filesystem := λ path,
  if decide (path = "page_0.json") then Some "[title, body]"
  else if decide (path = "page_0.md") then Some "# Report"
  else None.

Definition sample_md_result (n : Z) (layout md : string) : result :=
  {| page_no := Some n; layout_info_path := Some layout;
     md_content_path := Some md; layout_image_path := None;
     input_width := Some 1000%Z; input_height := Some 800%Z;
     filtered := None |}.

Definition sample_md_results : list result :=
  [sample_md_result 0 "page_0.json" "page_0.md";
   sample_md_result 1 "page_1.json" "page_1.md"].

(** A three-page PDF whose pages are their own numbers; the parser fails on
    page 7 only. *)
Definition sample_load (pdf_path : string) : option (list Z) :=
  if decide (pdf_path = "report.pdf") then Some [0; 1; 2]%Z else None.

Definition sample_parse_single_image (image page_idx : Z) : option result :=
  if decide (image = 7%Z) then None
  else Some (sample_result page_idx "page.json" false).

(** A batch environment: [report.pdf] parses into the two sample pages,
    [locked.pdf] into one page whose merged files cannot be written,
    [empty.pdf] into no page, [broken.pdf] exists but cannot be loaded,
    and nothing else exists.  Durations are whole seconds. *)
Definition sample_pdf_exists (pdf_path : string) : bool :=
  bool_decide (pdf_path ∈ ["report.pdf"; "locked.pdf"; "empty.pdf";
                           "broken.pdf"]).

Definition sample_batch_load (pdf_path : string) : option (list Z) :=
  if decide (pdf_path = "report.pdf") then Some [0; 1]%Z
  else if decide (pdf_path = "locked.pdf") then Some [0]%Z
  else if decide (pdf_path = "empty.pdf") then Some []
  else None.

Definition sample_getsize (pdf_path : string) : option Z :=
  if sample_pdf_exists pdf_path then Some 4096%Z else None.

Definition sample_parse_file (pdf_path : string) : option (list result) :=
  if decide (pdf_path = "report.pdf") then Some sample_results
  else if decide (pdf_path = "locked.pdf") then Some stale_results
  else if decide (pdf_path = "empty.pdf") then Some []
  else None.

Definition sample_writable (results : list result) : bool :=
  bool_decide (length results ≠ 1).

Definition sample_stats : PDFProcessorBatch.processing_stats Z :=
  PDFProcessorBatch.Stats 0 0 0 0 0%Z.

(** A batch of four paths with the durations measured for each. *)
Definition sample_batch : list (string * (Z * Z)) :=
  [("missing.pdf", (1, 1)%Z); ("broken.pdf", (1, 1)%Z);
   ("empty.pdf", (1, 1)%Z); ("report.pdf", (3, 1)%Z);
   ("locked.pdf", (2, 1)%Z)].

(** A page makes [parse_pdf_with_api] raise when its layout image exists
    and cannot be opened, its layout file exists and cannot be decoded,
    or its markdown file exists and cannot be read. *)
Definition page_raises {image} (image_open : string → option image)
    (json_loads : string → option json_data) (fs : filesystem)
    (read_text : string → option string) (r : result) : Prop :=
  (∃ p, EnhancedPDFProcessor.existing fs (layout_image_path r) = Some p ∧
        image_open p = None) ∨
  (∃ p, EnhancedPDFProcessor.existing fs (layout_info_path r) = Some p ∧
        json_load json_loads fs p = None) ∨
  (∃ p, EnhancedPDFProcessor.existing fs (md_content_path r) = Some p ∧
        read_text p = None).

(** The markdown of a page: the text read from its file when the file
    exists. *)
Definition page_markdown (fs : filesystem)
    (read_text : string → option string) (r : result) : option string :=
  EnhancedPDFProcessor.existing fs (md_content_path r) ≫= read_text.

(** The element dict behind a decoded JSON value, when it is one. *)
Definition elem_item (e : json_elem) : option item :=
  match e with
  | ElemDict it => Some it
  | ElemOther => None
  end.

(** The [{'text', 'bbox', 'category'}] dict built from an element. *)
Definition entry_of (it : item) : EnhancedAnalysis.entry :=
  EnhancedAnalysis.Entry (default EmptyString (text it))
    (default [] (bbox it)) (counted_category it).

(** The elements whose language is analysed: text blocks with a text that
    is not blank. *)
Definition text_block (it : item) : Prop :=
  counted_category it ∈ ["Text"; "List-item"; "Caption"].

Definition analysed_text (it : item) : Prop :=
  text_block it ∧ PyStr.strip (default EmptyString (text it)) ≠ EmptyString.

(** A page with one element of each counted kind, a blank paragraph and an
    element without category. *)
Definition sample_text (c s : string) : item :=
  {| category := Some c; bbox := Some [0; 0; 10; 10]%Z; text := Some s;
     reading_order := None; page_number := None |}.

Definition sample_cells : list item :=
  [sample_text "Title" "Report"; sample_text "Text" "Body";
   sample_text "Text" "  "; sample_text "Table" "<table></table>";
   sample_text "Picture" EmptyString; sample_text "Caption" "Figure 1";
   {| category := None; bbox := None; text := None;
      reading_order := None; page_number := None |}].

(** A toy detector: a text starting with [#] is all Chinese, any other
    text all English; ratios are percentages. *)
Definition sample_detect (s : string) : Z * Z :=
  if PyStr.startswith s "#" then (100, 0)%Z else (0, 100)%Z.

#[global] Instance language_eq_dec : EqDecision EnhancedAnalysis.language.
Proof. solve_decision. Defined.

(** The language under which [analyze_structured_content] files a text,
    and the dict it stores for it. *)
Definition detected {ratio} (detect : string → ratio * ratio)
    (gt_half lt_tenth gt_tenth : ratio → bool) (it : item)
    : EnhancedAnalysis.language :=
  let '(chinese_ratio, english_ratio) :=
    detect (default EmptyString (text it)) in
  EnhancedAnalysis.classify_language ratio gt_half lt_tenth gt_tenth
    chinese_ratio english_ratio.

Definition language_entry_of {ratio} (detect : string → ratio * ratio)
    (it : item) : EnhancedAnalysis.language_entry ratio :=
  let '(chinese_ratio, english_ratio) :=
    detect (default EmptyString (text it)) in
  EnhancedAnalysis.LanguageEntry ratio (entry_of it) chinese_ratio
    english_ratio.

(** The counter and the list of [language_stats] and [text_by_type] that
    belong to a language. *)
Definition language_count (l : EnhancedAnalysis.language)
    (ls : EnhancedAnalysis.language_stats) : nat :=
  match l with
  | EnhancedAnalysis.Chinese => EnhancedAnalysis.chinese_elements ls
  | EnhancedAnalysis.English => EnhancedAnalysis.english_elements ls
  | EnhancedAnalysis.Mixed => EnhancedAnalysis.mixed_elements ls
  end.

Definition language_texts {ratio} (l : EnhancedAnalysis.language)
    (tb : EnhancedAnalysis.text_by_type ratio)
    : list (EnhancedAnalysis.language_entry ratio) :=
  match l with
  | EnhancedAnalysis.Chinese => EnhancedAnalysis.chinese_text tb
  | EnhancedAnalysis.English => EnhancedAnalysis.english_text tb
  | EnhancedAnalysis.Mixed => EnhancedAnalysis.mixed_text tb
  end.

(** A region reader that fails on regions starting at the origin. *)
Definition sample_ocr_region (bbox : list Z) : option string :=
  match bbox with
  | 0%Z :: _ => None
  | _ => Some "text"
  end.

(** How a CSV reader takes a quoted field: two quotes stand for one. *)
Fixpoint csv_unquote (l : list Ascii.ascii) : list Ascii.ascii :=
  match l with
  | [] => []
  | c :: l' =>
      match l' with
      | c' :: l'' =>
          if decide (c = AdvancedParserFormats.quote_char
                     ∧ c' = AdvancedParserFormats.quote_char)
          then c :: csv_unquote l''
          else c :: csv_unquote l'
      | [] => [c]
      end
  end.

(** The number of double quotes of a string. *)
Definition quotes (s : string) : nat :=
  length (filter (λ c, c = AdvancedParserFormats.quote_char)
            (String.list_ascii_of_string s)).

(** The numbered lines of a category list whose first element has
    number [n]. *)
Fixpoint numbered_from (n : nat) (items : list item) : list string :=
  match items with
  | [] => []
  | it :: items' =>
      let text := default EmptyString (text it) in
      (if decide (PyStr.strip text = EmptyString) then []
       else [AdvancedParserFormats.numbered_line n text])
      ++ numbered_from (S n) items'
  end.

(** * Properties *)

(** ** The stable sort *)

Section sorting.
Import AdvancedParser.
Context {A : Type} (key : A → Z * Z).

Lemma key_lt_irrefl k : ¬ key_lt k k.
Proof. unfold key_lt. lia. Qed.

Lemma key_not_lt_le a b : ¬ key_lt b a → key_le a b.
Proof.
  destruct a as [a1 a2], b as [b1 b2]. unfold key_le, key_lt. simpl.
  intros Hn. destruct (decide (a1 = b1 ∧ a2 = b2)) as [[-> ->]|Hne].
  - by right.
  - left. lia.
Qed.

Lemma key_le_not_lt a b : key_le a b → ¬ key_lt b a.
Proof.
  intros [Hlt| ->]; [|apply key_lt_irrefl].
  revert Hlt. unfold key_lt. lia.
Qed.

Lemma key_le_trans a b c : key_le a b → key_le b c → key_le a c.
Proof.
  intros [Hab| ->] [Hbc| ->]; unfold key_le; auto.
  left. revert Hab Hbc. unfold key_lt. lia.
Qed.

Lemma key_le_antisym a b : key_le a b → key_le b a → a = b.
Proof.
  intros [Hab| ->] Hba; [|done].
  by apply key_le_not_lt in Hba.
Qed.

Lemma key_lt_le_trans a b c : key_lt a b → key_le b c → key_lt a c.
Proof.
  intros Hab [Hbc| ->]; [|done]. revert Hab Hbc. unfold key_lt. lia.
Qed.

Lemma insert_by_perm x l : insert_by key x l ≡ₚ x :: l.
Proof.
  induction l as [|y l IH]; simpl; [done|].
  case_decide; [|done]. rewrite IH. apply Permutation_swap.
Qed.

Lemma sorted_perm l : sorted key l ≡ₚ l.
Proof.
  induction l as [|x l IH]; simpl; [done|].
  by rewrite insert_by_perm, IH.
Qed.

Lemma sorted_length l : length (sorted key l) = length l.
Proof. by rewrite sorted_perm. Qed.

Lemma insert_by_sorted x l :
  StronglySorted (le_by key) l → StronglySorted (le_by key) (insert_by key x l).
Proof.
  induction 1 as [|y l Hl IH Hy]; simpl.
  - repeat constructor.
  - case_decide as Hlt.
    + constructor; [done|].
      rewrite insert_by_perm. constructor; [|done].
      by left.
    + assert ((le_by key) x y) as Hxy by by apply key_not_lt_le.
      constructor; [by constructor|].
      constructor; [done|].
      eapply list.Forall_impl; [exact Hy|].
      intros z Hz. by eapply key_le_trans.
Qed.

Lemma sorted_sorted l : StronglySorted (le_by key) (sorted key l).
Proof.
  induction l as [|x l IH]; simpl; [constructor|].
  by apply insert_by_sorted.
Qed.

(** Elements with equal keys keep their original relative order. *)
Lemma insert_by_filter k x l :
  filter (λ a, key a = k) (insert_by key x l)
  = filter (λ a, key a = k) (x :: l).
Proof.
  induction l as [|y l IH]; simpl; [done|].
  case_decide as Hlt; [|done].
  rewrite (filter_cons _ y), IH, !filter_cons.
  repeat case_decide; try done.
  exfalso. apply (key_lt_irrefl k). congruence.
Qed.

Lemma sorted_stable k l :
  filter (λ a, key a = k) (sorted key l) = filter (λ a, key a = k) l.
Proof.
  induction l as [|x l IH]; simpl; [done|].
  by rewrite insert_by_filter, !filter_cons, IH.
Qed.

(** Sorting a sorted list changes nothing. *)
Lemma sorted_id l : StronglySorted (le_by key) l → sorted key l = l.
Proof.
  induction 1 as [|x l Hl IH Hx]; simpl; [done|].
  rewrite IH. destruct l as [|y l]; simpl; [done|].
  rewrite decide_False; [done|].
  apply key_le_not_lt. by inversion Hx.
Qed.

Lemma sorted_sorted_id l : sorted key (sorted key l) = sorted key l.
Proof. apply sorted_id, sorted_sorted. Qed.

(** Two key-sorted lists that agree on the sublist of every key are
    equal: a stable sort has only one possible result, so modelling the
    built-in sort by insertion loses nothing. *)
Lemma sorted_stable_unique l1 l2 :
  StronglySorted (le_by key) l1 → StronglySorted (le_by key) l2 →
  (∀ k, filter (λ a, key a = k) l1 = filter (λ a, key a = k) l2) →
  l1 = l2.
Proof.
  intros H1. revert l2.
  induction H1 as [|x l1 Hl1 IH Hx]; intros l2 H2 Hf.
  - destruct l2 as [|y l2]; [done|].
    specialize (Hf (key y)). rewrite filter_nil, filter_cons_True in Hf; done.
  - destruct H2 as [|y l2 Hl2 Hy].
    { specialize (Hf (key x)). rewrite filter_nil, filter_cons_True in Hf; done. }
    assert (y ∈ x :: l1) as Hyin.
    { assert (y ∈ filter (λ a, key a = key y) (x :: l1)) as Hin
        by (rewrite Hf, filter_cons_True by done; left).
      by apply list_elem_of_filter in Hin as [_ ?]. }
    assert (x ∈ y :: l2) as Hxin.
    { assert (x ∈ filter (λ a, key a = key x) (y :: l2)) as Hin
        by (rewrite <-Hf, filter_cons_True by done; left).
      by apply list_elem_of_filter in Hin as [_ ?]. }
    assert (key x = key y) as Hk.
    { apply key_le_antisym.
      - apply elem_of_cons in Hyin as [->|Hyin]; [by right|].
        rewrite list.Forall_forall in Hx. by apply Hx.
      - apply elem_of_cons in Hxin as [->|Hxin]; [by right|].
        rewrite list.Forall_forall in Hy. by apply Hy. }
    pose proof (Hf (key x)) as Hfx.
    rewrite !filter_cons_True in Hfx by done.
    injection Hfx as -> Hfx. f_equal. apply IH; [done|].
    intros k. specialize (Hf k). rewrite !filter_cons in Hf.
    case_decide; [by injection Hf|done].
Qed.

Lemma sorted_characterised l l' :
  StronglySorted (le_by key) l' →
  (∀ k, filter (λ a, key a = k) l' = filter (λ a, key a = k) l) →
  l' = sorted key l.
Proof.
  intros Hs Hf. apply sorted_stable_unique; [done|apply sorted_sorted|].
  intros k. by rewrite sorted_stable.
Qed.

(** In a sorted list an element with a smaller key comes first. *)
Lemma sorted_lookup_lt l i j a b :
  StronglySorted (le_by key) l →
  l !! i = Some a → l !! j = Some b → key_lt (key a) (key b) → i < j.
Proof.
  intros Hs. revert i j.
  induction Hs as [|x l Hl IH Hx]; intros i j Hi Hj Hlt; [done|].
  destruct i as [|i], j as [|j]; simpl in *.
  - simplify_eq. by apply key_lt_irrefl in Hlt.
  - lia.
  - simplify_eq. exfalso.
    rewrite list.Forall_forall in Hx.
    apply (key_le_not_lt (key b) (key a)); [|done].
    apply Hx. by eapply list_elem_of_lookup_2.
  - specialize (IH i j Hi Hj Hlt). lia.
Qed.
End sorting.

(** ** Reading order: the store after the loop *)

Section reading_order.
Import AdvancedParser.

Lemma set_reading_order_twice v w it :
  set_reading_order v (set_reading_order w it) = set_reading_order v it.
Proof. done. Qed.

Lemma last_pos_None l ls : last_pos l ls = None ↔ l ∉ ls.
Proof.
  induction ls as [|x ls IH]; simpl.
  - split; [intros _; apply not_elem_of_nil|done].
  - rewrite not_elem_of_cons. destruct (last_pos l ls) as [k|].
    + split; [done|]. intros [_ Hn]. by apply IH in Hn.
    + case_decide as Hx; split; try done.
      * intros [Hn _]. by destruct Hn.
      * intros _. split; [done|by apply IH].
Qed.

Lemma last_pos_Some l ls k :
  last_pos l ls = Some k →
  ls !! k = Some l ∧ ∀ j, ls !! j = Some l → j ≤ k.
Proof.
  revert k. induction ls as [|x ls IH]; intros k; simpl; [done|].
  destruct (last_pos l ls) as [k'|] eqn:Hl.
  - intros [= <-]. destruct (IH k' eq_refl) as [Hk Hmax].
    split; [done|]. intros [|j] Hj; [lia|].
    apply Hmax in Hj. lia.
  - case_decide as Hx; [|done]. intros [= <-]. subst x.
    split; [done|]. intros [|j] Hj; [lia|]. simpl in Hj.
    apply last_pos_None in Hl. exfalso. apply Hl.
    by eapply list_elem_of_lookup_2.
Qed.

Lemma last_pos_elem_of l ls : l ∈ ls → ∃ k, last_pos l ls = Some k.
Proof.
  intros Hin. destruct (last_pos l ls) as [k|] eqn:Hl; [by eexists|].
  by apply last_pos_None in Hl.
Qed.

Lemma last_pos_NoDup l ls i :
  NoDup ls → ls !! i = Some l → last_pos l ls = Some i.
Proof.
  intros Hnd Hi.
  destruct (last_pos_elem_of l ls) as [k Hk];
    [by eapply list_elem_of_lookup_2|].
  destruct (last_pos_Some _ _ _ Hk) as [Hk' _].
  rewrite Hk. f_equal. by eapply NoDup_lookup.
Qed.

Lemma heap_insert_eq (h : heap) l v : (<[l := v]> h) l = v.
Proof. unfold insert, fn_insert. by rewrite decide_True. Qed.

Lemma heap_insert_ne (h : heap) l l' v : l ≠ l' → (<[l := v]> h) l' = h l'.
Proof. intros Hne. unfold insert, fn_insert. by rewrite decide_False. Qed.

(** The loop leaves in each dict the index of its last visit. *)
Lemma assign_reading_order_spec h i ls l :
  assign_reading_order h i ls l =
    match last_pos l ls with
    | Some k => set_reading_order (Z.of_nat (i + k) + 1) (h l)
    | None => h l
    end.
Proof.
  revert h i. induction ls as [|x ls IH]; intros h i; simpl; [done|].
  rewrite IH. destruct (last_pos l ls) as [k|].
  - replace (S i + k) with (i + S k) by lia.
    destruct (decide (x = l)) as [->|Hx].
    + by rewrite heap_insert_eq.
    + by rewrite heap_insert_ne.
  - case_decide as Hx.
    + subst x. rewrite heap_insert_eq. by rewrite Nat.add_0_r.
    + by rewrite heap_insert_ne.
Qed.

Lemma assign_reading_order_bbox h i ls l :
  bbox (assign_reading_order h i ls l) = bbox (h l).
Proof. rewrite assign_reading_order_spec. by destruct (last_pos l ls). Qed.

Lemma sort_key_bbox it it' : bbox it = bbox it' → sort_key it = sort_key it'.
Proof. unfold sort_key. by intros ->. Qed.

Lemma sort_key_four it x1 y1 x2 y2 rest :
  bbox it = Some (x1 :: y1 :: x2 :: y2 :: rest) → sort_key it = (y1, x1).
Proof.
  intros Hb. unfold sort_key. by rewrite Hb.
Qed.

Lemma sort_key_short it b :
  bbox it = Some b → length b < 4 → sort_key it = (0, 0)%Z.
Proof.
  intros Hb Hlen. unfold sort_key. rewrite Hb. simpl.
  case_decide; [lia|done].
Qed.

Lemma sorted_ext {A} (key key' : A → Z * Z) l :
  (∀ x, key x = key' x) → sorted key l = sorted key' l.
Proof.
  intros Hk. induction l as [|x l IH]; simpl; [done|]. rewrite IH.
  generalize (sorted key' l). intros s.
  induction s as [|y s IHs]; simpl; [done|].
  by rewrite IHs, !Hk.
Qed.

(** Two objects with ordered keys get ordered reading-order values. *)
Lemma reading_order_lt h layout_data a b :
  a ∈ layout_data → b ∈ layout_data →
  key_lt (sort_key (h a)) (sort_key (h b)) →
  ∃ oa ob,
    reading_order ((analyze_reading_order h layout_data).1 a) = Some oa ∧
    reading_order ((analyze_reading_order h layout_data).1 b) = Some ob ∧
    (oa < ob)%Z.
Proof.
  intros Ha Hb Hlt. unfold analyze_reading_order. simpl.
  set (key := λ l, sort_key (h l)). set (s := sorted key layout_data).
  assert (a ∈ s) as Has by by (unfold s; rewrite sorted_perm).
  assert (b ∈ s) as Hbs by by (unfold s; rewrite sorted_perm).
  destruct (last_pos_elem_of _ _ Has) as [ka Hka].
  destruct (last_pos_elem_of _ _ Hbs) as [kb Hkb].
  destruct (last_pos_Some _ _ _ Hka) as [Hia _].
  destruct (last_pos_Some _ _ _ Hkb) as [Hib _].
  assert (ka < kb) as Hk.
  { eapply (sorted_lookup_lt key s); eauto. apply sorted_sorted. }
  rewrite !assign_reading_order_spec, Hka, Hkb. simpl.
  eexists _, _. repeat split; lia.
Qed.
End reading_order.

(** ** Positions in a list *)

Section positions.

Lemma before_split {A} (a b : A) (l : list A) :
  before a b l ↔ ∃ l1 l2 l3, l = l1 ++ a :: l2 ++ b :: l3.
Proof.
  split.
  - intros (i & j & Hij & Hi & Hj).
    apply list_elem_of_split_length in Hi as (l1 & r & -> & ->).
    rewrite lookup_app_r in Hj by lia.
    replace (j - length l1) with (S (j - length l1 - 1)) in Hj by lia.
    simpl in Hj.
    apply list_elem_of_split_length in Hj as (l2 & l3 & -> & _).
    by exists l1, l2, l3.
  - intros (l1 & l2 & l3 & ->).
    exists (length l1), (length l1 + S (length l2)). split_and!.
    + lia.
    + by rewrite list_lookup_middle.
    + rewrite lookup_app_r by lia.
      replace (length l1 + S (length l2) - length l1) with (S (length l2))
        by lia.
      simpl. by rewrite list_lookup_middle.
Qed.

Lemma before_filter {A} (P : A → Prop) `{∀ x, Decision (P x)}
    (a b : A) (l : list A) :
  P a → P b → before a b l → before a b (filter P l).
Proof.
  intros Ha Hb (l1 & l2 & l3 & ->)%before_split. apply before_split.
  exists (filter P l1), (filter P l2), (filter P l3).
  rewrite filter_app, filter_cons_True by done.
  by rewrite filter_app, filter_cons_True by done.
Qed.

Lemma before_asym {A} (a b : A) (l : list A) :
  NoDup l → before a b l → ¬ before b a l.
Proof.
  intros Hnd (i & j & Hij & Hi & Hj) (j' & i' & Hji & Hj' & Hi').
  pose proof (NoDup_lookup _ _ _ _ Hnd Hi Hi').
  pose proof (NoDup_lookup _ _ _ _ Hnd Hj Hj'). lia.
Qed.

Lemma before_total {A} (a b : A) (l : list A) :
  a ∈ l → b ∈ l → a ≠ b → before a b l ∨ before b a l.
Proof.
  intros [i Hi]%list_elem_of_lookup [j Hj]%list_elem_of_lookup Hne.
  destruct (Nat.lt_total i j) as [Hlt|[->|Hgt]].
  - left. by exists i, j.
  - congruence.
  - right. by exists j, i.
Qed.

Lemma before_filter_inv {A} (P : A → Prop) `{∀ x, Decision (P x)}
    (a b : A) (l : list A) :
  NoDup l → a ≠ b → before a b (filter P l) → before a b l.
Proof.
  intros Hnd Hne Hb.
  assert (a ∈ filter P l ∧ b ∈ filter P l) as [Ha Hbin].
  { destruct Hb as (i & j & _ & Hi & Hj).
    split; by eapply list_elem_of_lookup_2. }
  apply list_elem_of_filter in Ha as [HPa Ha].
  apply list_elem_of_filter in Hbin as [HPb Hbin].
  destruct (before_total a b l Ha Hbin Hne) as [?|Hba]; [done|].
  exfalso. apply (before_asym a b (filter P l)); [|done|].
  - by apply NoDup_filter.
  - by apply before_filter.
Qed.
End positions.

(** ** Reading order: the stated properties *)

Section reading_order_claims.
Import AdvancedParser.

Example analyze_reading_order_sample :
  (analyze_reading_order sample_store [0; 1; 2; 3]).2 = [2; 1; 0; 3] ∧
  (λ l, reading_order ((analyze_reading_order sample_store [0; 1; 2; 3]).1 l))
    <$> [0; 1; 2; 3; 4] = [Some 3; Some 2; Some 1; Some 4; None]%Z.
Proof. split; reflexivity. Qed.

(** Two distinct objects with equal keys keep their input order. *)
Lemma reading_order_tie h layout_data a b :
  NoDup layout_data →
  sort_key (h a) = sort_key (h b) → before a b layout_data →
  ∃ oa ob,
    reading_order ((analyze_reading_order h layout_data).1 a) = Some oa ∧
    reading_order ((analyze_reading_order h layout_data).1 b) = Some ob ∧
    (oa < ob)%Z.
Proof.
  intros Hnd Hk Hbef.
  assert (a ≠ b) as Hne.
  { intros ->. destruct Hbef as (i & j & Hij & Hi & Hj).
    pose proof (NoDup_lookup _ _ _ _ Hnd Hi Hj). lia. }
  set (key := λ l, sort_key (h l)). set (s := sorted key layout_data).
  assert (s ≡ₚ layout_data) as Hperm by apply sorted_perm.
  assert (NoDup s) as Hnds by by rewrite Hperm.
  assert (before a b s) as (i & j & Hij & Hi & Hj).
  { apply (before_filter_inv (λ l, key l = key a)); [done..|].
    unfold s. rewrite (sorted_stable key).
    apply before_filter; [done|by symmetry|done]. }
  exists (Z.of_nat (0 + i) + 1)%Z, (Z.of_nat (0 + j) + 1)%Z.
  unfold analyze_reading_order. simpl. fold key. fold s.
  rewrite !assign_reading_order_spec.
  rewrite (last_pos_NoDup a s i Hnds Hi), (last_pos_NoDup b s j Hnds Hj).
  split_and!; [done..|lia].
Qed.

(** C2.  [analyze_reading_order] returns the elements of the page sorted
    by [(y1, x1)] ascending: of two elements the one with the smaller
    [y1] comes first and gets the smaller [reading_order], for equal [y1]
    the one with the smaller [x1], and for equal [y1] and [x1] the one
    that came first in the input.  The elements are numbered from 1 in
    that sequence, and running the function again, on its own output or on
    the caller's list, changes neither the order nor any stored value. *)
Theorem analyze_reading_order_sorts_stably (h : heap)
    (layout_data : list loc) :
  let key := λ l, sort_key (h l) in
  let h' := (analyze_reading_order h layout_data).1 in
  let sorted_data := (analyze_reading_order h layout_data).2 in
  sorted_data ≡ₚ layout_data ∧
  StronglySorted (le_by key) sorted_data ∧
  (∀ k, filter (λ l, key l = k) sorted_data
        = filter (λ l, key l = k) layout_data) ∧
  (NoDup layout_data →
   ∀ i l, sorted_data !! i = Some l →
          reading_order (h' l) = Some (Z.of_nat i + 1)%Z) ∧
  ((analyze_reading_order h' sorted_data).2 = sorted_data ∧
   (analyze_reading_order h' layout_data).2 = sorted_data ∧
   ∀ l, (analyze_reading_order h' sorted_data).1 l = h' l ∧
        (analyze_reading_order h' layout_data).1 l = h' l) ∧
  (∀ i j a b xa ya xa' ya' ra xb yb xb' yb' rb,
     sorted_data !! i = Some a → sorted_data !! j = Some b → i < j →
     bbox (h a) = Some (xa :: ya :: xa' :: ya' :: ra) →
     bbox (h b) = Some (xb :: yb :: xb' :: yb' :: rb) →
     (ya < yb)%Z ∨ (ya = yb ∧ (xa ≤ xb)%Z)) ∧
  (∀ a b xa ya xa' ya' ra xb yb xb' yb' rb,
     a ∈ layout_data → b ∈ layout_data →
     bbox (h a) = Some (xa :: ya :: xa' :: ya' :: ra) →
     bbox (h b) = Some (xb :: yb :: xb' :: yb' :: rb) →
     (ya < yb)%Z ∨ (ya = yb ∧ (xa < xb)%Z) ∨
     (ya = yb ∧ xa = xb ∧ NoDup layout_data ∧ before a b layout_data) →
     ∃ oa ob, reading_order (h' a) = Some oa ∧
              reading_order (h' b) = Some ob ∧ (oa < ob)%Z).
Proof.
  intros key h' sorted_data.
  assert (sorted_data = sorted key layout_data) as Hs by done.
  assert (∀ l, h' l = assign_reading_order h 0 sorted_data l) as Hh' by done.
  assert (∀ ls, sorted (λ l, sort_key (h' l)) ls = sorted key ls) as Hkey.
  { intros ls. apply sorted_ext. intros l. apply sort_key_bbox.
    rewrite Hh'. apply assign_reading_order_bbox. }
  assert (sorted key sorted_data = sorted_data) as Hid
    by (rewrite Hs; apply sorted_sorted_id).
  split_and!.
  - rewrite Hs. apply sorted_perm.
  - rewrite Hs. apply sorted_sorted.
  - intros k. rewrite Hs. apply (sorted_stable key).
  - intros Hnd i l Hi. rewrite Hh', assign_reading_order_spec.
    rewrite (last_pos_NoDup l sorted_data i); [done| |done].
    rewrite Hs, sorted_perm. done.
  - unfold analyze_reading_order at 1. simpl. by rewrite Hkey.
  - unfold analyze_reading_order at 1. simpl. by rewrite Hkey.
  - intros l.
    assert (assign_reading_order h' 0 sorted_data l = h' l) as Hagain.
    { rewrite assign_reading_order_spec, Hh', assign_reading_order_spec.
      by destruct (last_pos l sorted_data). }
    split; unfold analyze_reading_order at 1; simpl;
      by rewrite Hkey, ?Hid, <-?Hs.
  - intros i j a b xa ya xa' ya' ra xb yb xb' yb' rb Hi Hj Hij Hba Hbb.
    assert (key_le (key a) (key b)) as Hle.
    { apply key_not_lt_le. intros Hlt.
      assert (StronglySorted (le_by key) sorted_data) as Hsorted
        by (rewrite Hs; apply sorted_sorted).
      pose proof (sorted_lookup_lt key sorted_data j i b a Hsorted Hj Hi Hlt).
      lia. }
    unfold key in Hle.
    rewrite (sort_key_four _ _ _ _ _ _ Hba), (sort_key_four _ _ _ _ _ _ Hbb)
      in Hle.
    destruct Hle as [[Hlt|[Heq Hlt]]|[= -> ->]]; cbn [fst snd] in *.
    + by left.
    + right. split; [done|lia].
    + right. split; [done|lia].
  - intros a b xa ya xa' ya' ra xb yb xb' yb' rb Ha Hb Hba Hbb Horder.
    destruct Horder as [Hlt|[[-> Hlt]|(-> & -> & Hnd & Hbef)]].
    + apply reading_order_lt; [done..|].
      rewrite (sort_key_four _ _ _ _ _ _ Hba),
        (sort_key_four _ _ _ _ _ _ Hbb).
      by left.
    + apply reading_order_lt; [done..|].
      rewrite (sort_key_four _ _ _ _ _ _ Hba),
        (sort_key_four _ _ _ _ _ _ Hbb).
      by right.
    + apply reading_order_tie; [done| |done].
      by rewrite (sort_key_four _ _ _ _ _ _ Hba),
        (sort_key_four _ _ _ _ _ _ Hbb).
Qed.

Lemma analyze_reading_order_sorts_stably_witness :
  (analyze_reading_order sample_row_store [0; 1; 2; 3]).2 = [3; 1; 2; 0] ∧
  (∃ oa ob,
     reading_order ((analyze_reading_order sample_row_store [0; 1; 2; 3]).1 3)
     = Some oa ∧
     reading_order ((analyze_reading_order sample_row_store [0; 1; 2; 3]).1 1)
     = Some ob ∧ (oa < ob)%Z) ∧
  (∃ oa ob,
     reading_order ((analyze_reading_order sample_row_store [0; 1; 2; 3]).1 1)
     = Some oa ∧
     reading_order ((analyze_reading_order sample_row_store [0; 1; 2; 3]).1 0)
     = Some ob ∧ (oa < ob)%Z) ∧
  (∃ oa ob,
     reading_order ((analyze_reading_order sample_row_store [0; 1; 2; 3]).1 1)
     = Some oa ∧
     reading_order ((analyze_reading_order sample_row_store [0; 1; 2; 3]).1 2)
     = Some ob ∧ (oa < ob)%Z).
Proof.
  destruct (analyze_reading_order_sorts_stably sample_row_store [0; 1; 2; 3])
    as (_ & _ & _ & _ & _ & _ & Hord).
  assert (∀ l, l < 4 → l ∈ [0; 1; 2; 3]) as Hin.
  { intros l Hl. rewrite !elem_of_cons. lia. }
  split_and!.
  - reflexivity.
  - apply (Hord 3%nat 1%nat 10 10 200 40 [] 10 50 200 100 [])%Z;
      [apply Hin; lia..|reflexivity|reflexivity|].
    left. lia.
  - apply (Hord 1%nat 0%nat 10 50 200 100 [] 300 50 400 100 [])%Z;
      [apply Hin; lia..|reflexivity|reflexivity|].
    right. left. lia.
  - apply (Hord 1%nat 2%nat 10 50 200 100 [] 10 50 250 100 [])%Z;
      [apply Hin; lia..|reflexivity|reflexivity|].
    right. right. split_and!; [done..| |].
    + repeat constructor; rewrite ?elem_of_cons, ?elem_of_nil; lia.
    + exists 1, 2. split_and!; [lia|reflexivity..].
Defined.

Lemma element_store_insert_eq (h : element_store) l v : (<[l := v]> h) l = v.
Proof. unfold insert, fn_insert. by rewrite decide_True. Qed.

Lemma element_store_insert_ne (h : element_store) l l' v :
  l ≠ l' → (<[l := v]> h) l' = h l'.
Proof. intros Hne. unfold insert, fn_insert. by rewrite decide_False. Qed.

Lemma element_assign_reading_order_spec h i ls l :
  element_assign_reading_order h i ls l =
    match last_pos l ls with
    | Some k => el_set_reading_order (Z.of_nat (i + k) + 1) (h l)
    | None => h l
    end.
Proof.
  revert h i. induction ls as [|x ls IH]; intros h i;
    cbn [element_assign_reading_order last_pos]; [done|].
  rewrite IH. destruct (last_pos l ls) as [k|].
  - replace (S i + k) with (i + S k) by lia.
    destruct (decide (x = l)) as [->|Hx].
    + by rewrite element_store_insert_eq.
    + by rewrite element_store_insert_ne.
  - destruct (decide (x = l)) as [->|Hx].
    + rewrite element_store_insert_eq. by rewrite Nat.add_0_r.
    + by rewrite element_store_insert_ne.
Qed.

Lemma element_sort_key_None e :
  element_sort_key e = None
  ↔ el_bbox e = Some BBoxNull ∨ ∃ n, el_bbox e = Some (BBoxNumber n).
Proof.
  unfold element_sort_key.
  destruct (el_bbox e) as [[b| |n]|]; cbn [default Datatypes.id].
  - split; [done|]. by intros [|[? ?]].
  - split; [by left|done].
  - split; [right; by exists n|done].
  - split; [done|]. by intros [|[? ?]].
Qed.

Lemma element_sort_key_four e x1 y1 x2 y2 rest :
  el_bbox e = Some (BBoxList (x1 :: y1 :: x2 :: y2 :: rest)) →
  element_sort_key e = Some (y1, x1).
Proof.
  intros Hb. unfold element_sort_key. rewrite Hb. cbn [default Datatypes.id].
  rewrite decide_True by (cbn [length]; lia). done.
Qed.

Lemma element_sort_key_short e b :
  el_bbox e = Some (BBoxList b) → length b < 4 →
  element_sort_key e = Some (0, 0)%Z.
Proof.
  intros Hb Hlen. unfold element_sort_key. rewrite Hb.
  cbn [default Datatypes.id]. by rewrite decide_False by lia.
Qed.

Lemma element_sort_key_of_item it :
  element_sort_key (of_item it) = Some (sort_key it).
Proof.
  unfold element_sort_key, sort_key, of_item. cbn [el_bbox].
  by destruct (bbox it).
Qed.

Lemma analyze_reading_order_json_None h layout_data :
  analyze_reading_order_json h layout_data = None
  ↔ ∃ l, l ∈ layout_data ∧
         (el_bbox (h l) = Some BBoxNull
          ∨ ∃ n, el_bbox (h l) = Some (BBoxNumber n)).
Proof.
  unfold analyze_reading_order_json.
  destruct (mapM (λ l, element_sort_key (h l)) layout_data) as [keys|] eqn:Hk;
    cbn [mbind option_bind].
  - split; [done|]. intros (l & Hl & Hbad).
    apply mapM_Some in Hk.
    apply list_elem_of_lookup in Hl as [i Hi].
    destruct (Forall2_lookup_l _ _ _ _ _ Hk Hi) as (k & _ & Hkey).
    apply element_sort_key_None in Hbad. congruence.
  - split; [|done]. intros _.
    apply mapM_None in Hk. apply Exists_exists in Hk as (l & Hl & Hnone).
    exists l. split; [done|]. by apply element_sort_key_None.
Qed.

(** On the element dicts of a layout file the function on decoded
    elements returns, and does what [analyze_reading_order] does. *)
Lemma analyze_reading_order_json_of_item (h : heap) layout_data :
  ∃ h',
    analyze_reading_order_json (λ l, of_item (h l)) layout_data
    = Some (h', (analyze_reading_order h layout_data).2) ∧
    ∀ l, h' l = of_item ((analyze_reading_order h layout_data).1 l).
Proof.
  unfold analyze_reading_order_json, analyze_reading_order.
  destruct (mapM (λ l, element_sort_key (of_item (h l))) layout_data)
    as [keys|] eqn:Hk.
  2:{ apply mapM_None, Exists_exists in Hk as (l & _ & Hnone).
      by rewrite element_sort_key_of_item in Hnone. }
  cbn [mbind option_bind fst snd].
  assert (sorted (λ l, default (0, 0)%Z (element_sort_key (of_item (h l))))
            layout_data
          = sorted (λ l, sort_key (h l)) layout_data) as ->.
  { apply sorted_ext. intros l. by rewrite element_sort_key_of_item. }
  eexists. split; [done|]. intros l.
  rewrite element_assign_reading_order_spec, assign_reading_order_spec.
  by destruct (last_pos l _).
Qed.

(** C9.  [analyze_reading_order] returns for every list of elements whose
    bbox is absent or a list, and raises, before writing anything, exactly
    when the bbox of a listed element is [null] or a number.  When it
    returns, each element of the input is in the output, and the dict it
    refers to is overwritten in place with a [reading_order] between 1 and
    the length of the list, its other keys unchanged; dicts outside the
    list are untouched.  An element whose bbox has fewer than 4 entries
    has sort key [(0, 0)], is placed before every element with positive
    top and left coordinates, and is numbered as well. *)
Theorem analyze_reading_order_short_bbox_in_place (h : element_store)
    (layout_data : list loc) :
  (analyze_reading_order_json h layout_data = None
   ↔ ∃ l, l ∈ layout_data ∧
          (el_bbox (h l) = Some BBoxNull
           ∨ ∃ n, el_bbox (h l) = Some (BBoxNumber n))) ∧
  ((∀ l, l ∈ layout_data →
      el_bbox (h l) = None ∨ ∃ b, el_bbox (h l) = Some (BBoxList b)) →
   ∃ h' sorted_data,
     analyze_reading_order_json h layout_data = Some (h', sorted_data) ∧
     length sorted_data = length layout_data ∧
     (∀ l, l ∈ layout_data →
        l ∈ sorted_data ∧
        ∃ v, (1 ≤ v ≤ Z.of_nat (length layout_data))%Z ∧
             h' l = el_set_reading_order v (h l)) ∧
     (∀ l, l ∉ layout_data → h' l = h l) ∧
     (∀ l b, l ∈ layout_data → el_bbox (h l) = Some (BBoxList b) →
        length b < 4 →
        element_sort_key (h l) = Some (0, 0)%Z ∧
        ∀ p x1 y1 x2 y2 rest,
          p ∈ layout_data →
          el_bbox (h p) = Some (BBoxList (x1 :: y1 :: x2 :: y2 :: rest)) →
          (0 < x1)%Z → (0 < y1)%Z →
          (∀ i j, sorted_data !! i = Some l → sorted_data !! j = Some p →
                  i < j) ∧
          ∃ ol op, el_reading_order (h' l) = Some ol ∧
                   el_reading_order (h' p) = Some op ∧ (ol < op)%Z)).
Proof.
  split; [apply analyze_reading_order_json_None|].
  intros Htyped.
  set (key := λ l, default (0, 0)%Z (element_sort_key (h l))).
  set (s := sorted key layout_data).
  exists (element_assign_reading_order h 0 s), s.
  assert (s ≡ₚ layout_data) as Hperm by apply sorted_perm.
  assert (StronglySorted (le_by key) s) as Hsorted by apply sorted_sorted.
  split_and!.
  - unfold analyze_reading_order_json.
    destruct (mapM (λ l, element_sort_key (h l)) layout_data)
      as [keys|] eqn:Hk; [done|].
    apply mapM_None, Exists_exists in Hk as (l & Hl & Hnone).
    apply element_sort_key_None in Hnone.
    destruct (Htyped l Hl) as [Hb|[b Hb]], Hnone as [Hn|[n Hn]];
      congruence.
  - by rewrite Hperm.
  - intros l Hl. rewrite Hperm. split; [done|].
    rewrite <-Hperm in Hl.
    destruct (last_pos_elem_of _ _ Hl) as [k Hk].
    destruct (last_pos_Some _ _ _ Hk) as [Hlk _].
    apply lookup_lt_Some in Hlk. rewrite Hperm in Hlk.
    exists (Z.of_nat (0 + k) + 1)%Z. split; [lia|].
    by rewrite element_assign_reading_order_spec, Hk.
  - intros l Hl. rewrite <-Hperm in Hl. apply last_pos_None in Hl.
    by rewrite element_assign_reading_order_spec, Hl.
  - intros l b Hl Hb Hlen.
    pose proof (element_sort_key_short _ _ Hb Hlen) as Hkl.
    split; [done|].
    intros p x1 y1 x2 y2 rest Hp Hbp Hx Hy.
    assert (key_lt (key l) (key p)) as Hlt.
    { unfold key. rewrite Hkl, (element_sort_key_four _ _ _ _ _ _ Hbp).
      by left. }
    assert (∀ i j, s !! i = Some l → s !! j = Some p → i < j) as Hpos.
    { intros i j Hi Hj. by eapply (sorted_lookup_lt key s). }
    split; [done|].
    rewrite <-Hperm in Hl, Hp.
    destruct (last_pos_elem_of _ _ Hl) as [kl Hkl'].
    destruct (last_pos_elem_of _ _ Hp) as [kp Hkp].
    destruct (last_pos_Some _ _ _ Hkl') as [Hil _].
    destruct (last_pos_Some _ _ _ Hkp) as [Hip _].
    pose proof (Hpos kl kp Hil Hip).
    exists (Z.of_nat (0 + kl) + 1)%Z, (Z.of_nat (0 + kp) + 1)%Z.
    rewrite !element_assign_reading_order_spec, Hkl', Hkp.
    split_and!; [done..|lia].
Qed.

(** Counterexample to C9 as it is worded: a listed element whose bbox
    is [null] makes [len(bbox)] raise, and nothing is numbered. *)
Lemma analyze_reading_order_null_bbox_raises :
  analyze_reading_order_json null_bbox_store [0; 1; 2; 3] = None ∧
  el_bbox (null_bbox_store 2) = Some BBoxNull.
Proof. split; reflexivity. Qed.

Lemma analyze_reading_order_short_bbox_in_place_witness :
  ∃ h' sorted_data,
    analyze_reading_order_json sample_elements_store [0; 1; 2; 3]
    = Some (h', sorted_data) ∧
    2 ∈ sorted_data ∧
    element_sort_key (sample_elements_store 2) = Some (0, 0)%Z ∧
    ∃ ol op,
      el_reading_order (h' 2) = Some ol ∧
      el_reading_order (h' 1) = Some op ∧ (ol < op)%Z.
Proof.
  destruct (analyze_reading_order_short_bbox_in_place sample_elements_store
              [0; 1; 2; 3]) as [_ Htotal].
  destruct Htotal as (h' & sorted_data & Hrun & _ & Hin & _ & Hshort).
  { intros l Hl. right.
    repeat (apply elem_of_cons in Hl as [->|Hl]); [by eexists..|].
    by apply elem_of_nil in Hl. }
  assert (∀ l, l < 4 → l ∈ [0; 1; 2; 3]) as Hmem.
  { intros l Hl. rewrite !elem_of_cons. lia. }
  exists h', sorted_data. split; [exact Hrun|].
  split; [apply Hin, Hmem; lia|].
  destruct (Hshort 2 [5; 7]%Z) as [Hkey Hbefore];
    [apply Hmem; lia|reflexivity|cbn [length]; lia|].
  split; [exact Hkey|].
  apply (Hbefore 1%nat 10 10 200 40 [])%Z;
    [apply Hmem; lia|reflexivity|lia|lia].
Defined.
End reading_order_claims.

(** ** Grouping by category *)

Section structured_content.
Import AdvancedParser.

Lemma categories_NoDup : NoDup categories.
Proof. by apply (bool_decide_unpack _); vm_compute. Qed.

Lemma structured_content_keys :
  ((λ c : string, (c, @nil item)) <$> categories).*1 = categories.
Proof. reflexivity. Qed.

Lemma empty_structured_content_lookup c :
  empty_structured_content !! c
  = if decide (c ∈ categories) then Some [] else None.
Proof.
  unfold empty_structured_content. case_decide as Hc.
  - apply elem_of_list_to_map_1.
    + rewrite structured_content_keys. apply categories_NoDup.
    + apply list_elem_of_fmap. by exists c.
  - apply not_elem_of_list_to_map_1. by rewrite structured_content_keys.
Qed.

Lemma classify_lookup m it c :
  classify m it !! c
  = (λ items, items ++ filter (λ it, get_category it = c) [it]) <$> m !! c.
Proof.
  unfold classify.
  destruct (decide (get_category it = c)) as [Hc|Hc].
  - rewrite filter_cons_True by done. rewrite Hc.
    destruct (m !! c) as [items|] eqn:Hm; simpl.
    + by rewrite lookup_insert_eq.
    + by rewrite Hm.
  - rewrite filter_cons_False by done. simpl.
    destruct (m !! get_category it) as [items'|] eqn:Hm'.
    + rewrite lookup_insert_ne by done.
      destruct (m !! c); simpl; [|done]. by rewrite app_nil_r.
    + destruct (m !! c); simpl; [|done]. by rewrite app_nil_r.
Qed.

Lemma foldl_classify_lookup m layout_data c :
  foldl classify m layout_data !! c
  = (λ items, items ++ filter (λ it, get_category it = c) layout_data)
      <$> m !! c.
Proof.
  revert m. induction layout_data as [|it l IH]; intros m; simpl.
  - destruct (m !! c); simpl; [|done]. by rewrite app_nil_r.
  - rewrite IH, classify_lookup. destruct (m !! c); simpl; [|done].
    rewrite <-app_assoc. f_equal. f_equal.
    rewrite (filter_cons _ it l). simpl.
    rewrite filter_cons, filter_nil. by case_decide.
Qed.

Lemma extract_structured_content_lookup layout_data c :
  extract_structured_content layout_data !! c
  = if decide (c ∈ categories)
    then Some (filter (λ it, get_category it = c) layout_data)
    else None.
Proof.
  unfold extract_structured_content.
  rewrite foldl_classify_lookup, empty_structured_content_lookup.
  by case_decide.
Qed.

Lemma filter_disjoint_or (P Q : item → Prop) `{!∀ x, Decision (P x)}
    `{!∀ x, Decision (Q x)} (l : list item) :
  (∀ x, P x → Q x → False) →
  filter P l ++ filter Q l ≡ₚ filter (λ x, P x ∨ Q x) l.
Proof.
  intros Hdis. induction l as [|x l IH]; [done|].
  rewrite !filter_cons.
  destruct (decide (P x)) as [HP|HP], (decide (Q x)) as [HQ|HQ].
  - by destruct (Hdis x).
  - rewrite decide_True by by left. cbn [app]. by rewrite IH.
  - rewrite decide_True by by right.
    rewrite <-Permutation_middle. by rewrite IH.
  - rewrite decide_False by by intros [|]. done.
Qed.

Lemma found_under_filters layout_data targets :
  targets ⊆ categories →
  found_under targets (extract_structured_content layout_data)
  = targets ≫= λ c, filter (λ it, get_category it = c) layout_data.
Proof.
  unfold found_under. induction targets as [|c targets IH]; [done|].
  intros Hsub. rewrite !bind_cons, IH.
  - rewrite extract_structured_content_lookup, decide_True; [done|].
    apply Hsub, list_elem_of_here.
  - intros c' Hc'. by apply Hsub, list_elem_of_further.
Qed.

Lemma bind_filters_perm (layout_data : list item) targets :
  NoDup targets →
  (targets ≫= λ c, filter (λ it, get_category it = c) layout_data)
  ≡ₚ filter (λ it, get_category it ∈ targets) layout_data.
Proof.
  induction 1 as [|c targets Hc Hnd IH].
  - change ([] ≡ₚ filter (λ it, get_category it ∈ []) layout_data).
    induction layout_data as [|it l IH]; [done|].
    rewrite filter_cons_False; [done|]. by intros ?%elem_of_nil.
  - rewrite bind_cons, IH.
    rewrite (filter_disjoint_or (λ it, get_category it = c)
               (λ it, get_category it ∈ targets)).
    + erewrite list_filter_iff; [done|].
      intros it. by rewrite elem_of_cons.
    + intros it <- Hin. done.
Qed.

(** C7.  For every element list and every set of targets among the eleven
    category names, the list [extract_structured_content] stores under a
    target is exactly the subsequence of the elements of that category,
    in their original order.  The elements found under the targets are
    exactly those whose category is in the set, each once, grouped by
    category: for a single target this is the order-preserving
    subsequence, for several targets the relative order is kept inside a
    category and not across categories.  On the page
    [Title, Text, Table, Text] the target [Text] gives the two Text
    elements in their original order. *)
Theorem extract_structured_content_filters (layout_data : list item)
    (targets : list string) :
  targets ⊆ ["Title"; "Text"; "Table"; "Formula"; "List-item"; "Caption";
             "Section-header"; "Picture"; "Footnote"; "Page-header";
             "Page-footer"] →
  (∀ c, c ∈ targets →
     extract_structured_content layout_data !! c
     = Some (filter (λ it, get_category it = c) layout_data) ∧
     sublist (filter (λ it, get_category it = c) layout_data) layout_data) ∧
  (∀ it,
     (∃ c items, c ∈ targets ∧
        extract_structured_content layout_data !! c = Some items ∧
        it ∈ items)
     ↔ it ∈ layout_data ∧ get_category it ∈ targets) ∧
  found_under targets (extract_structured_content layout_data)
  = (targets ≫= λ c, filter (λ it, get_category it = c) layout_data) ∧
  (NoDup targets →
   found_under targets (extract_structured_content layout_data)
   ≡ₚ filter (λ it, get_category it ∈ targets) layout_data) ∧
  (∀ c, targets = [c] →
     found_under targets (extract_structured_content layout_data)
     = filter (λ it, get_category it ∈ targets) layout_data) ∧
  found_under ["Text"] (extract_structured_content sample_page)
  = [sample_item "Text" [10; 50; 200; 100]%Z;
     sample_item "Text" [10; 310; 200; 400]%Z].
Proof.
  intros Hsub. change (targets ⊆ categories) in Hsub. split_and!.
  - intros c Hc. split; [|apply sublist_filter].
    rewrite extract_structured_content_lookup.
    rewrite decide_True; [done|]. by apply Hsub.
  - intros it. split.
    + intros (c & items & Hc & Hitems & Hit).
      rewrite extract_structured_content_lookup in Hitems.
      case_decide; [|done]. injection Hitems as <-.
      apply list_elem_of_filter in Hit as [<- Hit]. done.
    + intros [Hit Hc].
      exists (get_category it), (filter (λ it', get_category it' = get_category it) layout_data).
      split_and!; [done| |].
      * rewrite extract_structured_content_lookup.
        rewrite decide_True; [done|]. by apply Hsub.
      * by apply list_elem_of_filter.
  - by apply found_under_filters.
  - intros Hnd. rewrite found_under_filters by done.
    by apply bind_filters_perm.
  - intros c ->. rewrite found_under_filters by done.
    rewrite bind_cons. cbn [mbind list_bind]. rewrite app_nil_r.
    apply list_filter_iff. intros it. by rewrite list_elem_of_singleton.
  - reflexivity.
Qed.

(** Counterexample to C7 as the specification words it: with the title
    between the two paragraphs and the targets [Title] and [Text], what is
    found under the targets is not the subsequence of the page in either
    order of the targets, and a category outside the eleven keys has no
    entry, so its elements are not returned at all. *)
Lemma extract_structured_content_groups_by_category :
  found_under ["Title"; "Text"] (extract_structured_content interleaved_page)
  ≠ filter (λ it, get_category it ∈ ["Title"; "Text"]) interleaved_page ∧
  found_under ["Text"; "Title"] (extract_structured_content interleaved_page)
  ≠ filter (λ it, get_category it ∈ ["Title"; "Text"]) interleaved_page ∧
  found_under ["Stamp"] (extract_structured_content stamp_page) = [] ∧
  filter (λ it, get_category it ∈ ["Stamp"]) stamp_page = stamp_page.
Proof.
  split_and!; [| |reflexivity..];
    intros Heq; vm_compute in Heq; discriminate Heq.
Qed.

(** The set-based filter of [detect_then_ocr] is the same order-preserving
    filter, restricted to the elements whose bbox has at least four
    entries. *)
Lemma target_regions_filter target_categories layout_data :
  GroundingOCRProcessor.target_regions target_categories layout_data
  = (λ it, (default [] (bbox it), default EmptyString (category it)))
      <$> filter (λ it, default EmptyString (category it) ∈ target_categories ∧
                        4 ≤ length (default [] (bbox it))) layout_data.
Proof.
  unfold GroundingOCRProcessor.target_regions.
  set (step := λ (acc : list (list Z * string)) (it : item), _).
  set (pair := λ it : item, _).
  set (P := λ it : item, _).
  assert (∀ acc, foldl step acc layout_data
                 = acc ++ (pair <$> filter P layout_data)) as Hgen.
  { induction layout_data as [|it l IH]; intros acc; simpl.
    - by rewrite app_nil_r.
    - rewrite IH, filter_cons.
      change (step acc it) with
        (if decide (P it) then acc ++ [pair it] else acc).
      case_decide; [|done].
      by rewrite fmap_cons, <-app_assoc. }
  apply (Hgen []).
Qed.

Example target_regions_sample :
  GroundingOCRProcessor.target_regions ["Text"]
    (sample_page ++ [sample_item "Text" [5; 7]%Z])
  = [([10; 50; 200; 100]%Z, "Text"); ([10; 310; 200; 400]%Z, "Text")].
Proof. reflexivity. Qed.

Lemma extract_structured_content_filters_witness :
  found_under ["Title"; "Text"] (extract_structured_content interleaved_page)
  ≡ₚ filter (λ it, get_category it ∈ ["Title"; "Text"]) interleaved_page ∧
  extract_structured_content sample_page !! "Text"
  = Some (filter (λ it, get_category it = "Text") sample_page).
Proof.
  destruct (extract_structured_content_filters interleaved_page
              ["Title"; "Text"]) as (_ & _ & _ & Hperm & _).
  { intros c Hc. apply (bool_decide_unpack _).
    repeat (apply elem_of_cons in Hc as [->|Hc]); [done..|].
    by apply elem_of_nil in Hc. }
  destruct (extract_structured_content_filters sample_page ["Text"])
    as (Hlookup & _).
  { intros c Hc. apply list_elem_of_singleton in Hc. subst c.
    apply list_elem_of_further, list_elem_of_here. }
  split.
  - apply Hperm. apply (bool_decide_unpack _). done.
  - apply Hlookup. apply list_elem_of_here.
Defined.
End structured_content.

(** ** Merging the pages of a PDF *)

Section merge_claims.
Import PDFProcessor.
Variable json_loads : string → option json_data.
Variable fs : filesystem.

Lemma foldl_snoc_fmap {A B} (f : A → B) (acc : list B) (l : list A) :
  foldl (λ acc r, acc ++ [f r]) acc l = acc ++ (f <$> l).
Proof.
  revert acc. induction l as [|x l IH]; intros acc; simpl.
  - by rewrite app_nil_r.
  - by rewrite IH, <-app_assoc.
Qed.

Lemma read_page_layout_app acc r :
  read_page_layout json_loads fs acc r
  = acc ++ page_elements json_loads fs r.
Proof.
  unfold read_page_layout, page_elements.
  destruct (layout_info_path r) as [path|]; simpl.
  - destruct (json_load json_loads fs path ≫= _); simpl; [done|].
    by rewrite app_nil_r.
  - by rewrite app_nil_r.
Qed.

Lemma foldl_read_pages layout texts results :
  foldl (λ '(layout, texts) r,
           (read_page_layout json_loads fs layout r,
            read_page_text fs texts r))
        (layout, texts) results
  = (layout ++ (results ≫= page_elements json_loads fs),
     foldl (read_page_text fs) texts results).
Proof.
  revert layout texts.
  induction results as [|r results IH]; intros layout texts; simpl.
  - by rewrite app_nil_r.
  - rewrite IH, read_page_layout_app, <-app_assoc. done.
Qed.

Lemma merge_pdf_results_closed_form r results :
  merge_pdf_results json_loads fs (r :: results)
  = Some
      {| all_layout_data := (r :: results) ≫= page_elements json_loads fs;
         all_text_content := foldl (read_page_text fs) [] (r :: results);
         info :=
           {| total_pages := length (r :: results);
              total_layout_elements :=
                length ((r :: results) ≫= page_elements json_loads fs);
              pages_info := make_page_info <$> (r :: results);
              category_statistics :=
                foldl count_category ∅
                  ((r :: results) ≫= page_elements json_loads fs) |} |}.
Proof.
  unfold merge_pdf_results.
  rewrite (foldl_read_pages [] [] (r :: results)).
  by rewrite (foldl_snoc_fmap make_page_info [] (r :: results)).
Qed.

(** The elements a page contributes are the dicts of its decoded list,
    each with [page_number] set to the page's number plus one. *)
Lemma page_elements_elem_of r it :
  it ∈ page_elements json_loads fs r →
  ∃ path elems it0,
    layout_info_path r = Some path ∧
    json_load json_loads fs path = Some (JsonList elems) ∧
    ElemDict it0 ∈ elems ∧
    it = set_page_number (default 0%Z (page_no r) + 1) it0.
Proof.
  unfold page_elements.
  destruct (layout_info_path r) as [path|]; simpl;
    [|by intros ?%elem_of_nil].
  destruct (json_load json_loads fs path) as [d|] eqn:Hd; simpl;
    [|by intros ?%elem_of_nil].
  destruct d as [elems|str|keys|]; simpl;
    try (repeat case_decide; simpl; by intros ?%elem_of_nil).
  destruct (mapM _ elems) as [items|] eqn:Hm; simpl;
    [|by intros ?%elem_of_nil].
  intros Hit. apply mapM_Some in Hm.
  apply list_elem_of_lookup in Hit as [i Hi].
  destruct (Forall2_lookup_r _ _ _ _ _ Hm Hi) as (e & He & Htag).
  destruct e as [it0|]; [|done]. injection Htag as <-.
  exists path, elems, it0. split_and!; try done.
  by eapply list_elem_of_lookup_2.
Qed.

Lemma page_elements_readable r path items :
  layout_info_path r = Some path →
  json_load json_loads fs path = Some (JsonList (ElemDict <$> items)) →
  page_elements json_loads fs r
  = set_page_number (default 0%Z (page_no r) + 1) <$> items.
Proof.
  intros Hp Hj. unfold page_elements. rewrite Hp. simpl. rewrite Hj. simpl.
  replace (mapM (tag_elem (default 0%Z (page_no r) + 1)) (ElemDict <$> items))
    with (Some (set_page_number (default 0%Z (page_no r) + 1) <$> items));
    [done|].
  symmetry. apply mapM_Some. clear Hj.
  induction items; simpl; by constructor.
Qed.

(** C8.  [merge_pdf_results] returns for every list of page results and
    every state of the files: the empty dict when there is no page, and
    otherwise a summary with one entry per page in page order, each
    numbered [page_no + 1].  Every retained element is a dict of some
    page's layout file, tagged with that page's number plus one, which is
    the page's position plus one when the results are in page order; a
    page whose layout file is missing, undecodable or not a list of dicts
    contributes nothing and stops nothing, and a readable page is retained
    whole whatever the other pages are. *)
Theorem merge_pdf_results_page_numbers (results : list result) :
  match merge_pdf_results json_loads fs results with
  | None => results = []
  | Some m =>
      total_pages (info m) = length results ∧
      length (pages_info (info m)) = length results ∧
      (∀ i r, results !! i = Some r →
         ∃ entry, pages_info (info m) !! i = Some entry ∧
           pi_page_number entry = (default 0 (page_no r) + 1)%Z ∧
           has_layout entry = bool_decide (is_Some (layout_info_path r))) ∧
      total_layout_elements (info m) = length (all_layout_data m) ∧
      (∀ it, it ∈ all_layout_data m →
         ∃ i r path elems it0,
           results !! i = Some r ∧
           layout_info_path r = Some path ∧
           json_load json_loads fs path = Some (JsonList elems) ∧
           ElemDict it0 ∈ elems ∧
           it = set_page_number (default 0 (page_no r) + 1)%Z it0 ∧
           page_number it = Some (default 0 (page_no r) + 1)%Z ∧
           (page_no r = Some (Z.of_nat i) →
            page_number it = Some (Z.of_nat i + 1)%Z)) ∧
      (∀ r path items it0,
         r ∈ results → layout_info_path r = Some path →
         json_load json_loads fs path = Some (JsonList (ElemDict <$> items)) →
         it0 ∈ items →
         set_page_number (default 0 (page_no r) + 1)%Z it0
           ∈ all_layout_data m)
  end.
Proof.
  destruct results as [|r0 results]; [done|].
  rewrite merge_pdf_results_closed_form.
  set (rs := r0 :: results).
  cbn [info all_layout_data total_pages pages_info total_layout_elements].
  split_and!.
  - done.
  - by rewrite length_fmap.
  - intros i r Hi. exists (make_page_info r).
    split; [|done]. by rewrite list_lookup_fmap, Hi.
  - done.
  - intros it Hit. apply list_elem_of_bind in Hit as (r & Hit & Hr).
    apply list_elem_of_lookup in Hr as [i Hi].
    destruct (page_elements_elem_of r it Hit)
      as (path & elems & it0 & Hp & Hj & He & ->).
    exists i, r, path, elems, it0. split_and!; try done.
    by intros ->.
  - intros r path items it0 Hr Hp Hj Hit.
    apply list_elem_of_bind. exists r. split; [|done].
    rewrite (page_elements_readable r path items Hp Hj).
    apply list_elem_of_fmap. by exists it0.
Qed.
End merge_claims.

Example merge_pdf_results_sample :
  (λ m, (PDFProcessor.all_layout_data m,
         PDFProcessor.pi_page_number
           <$> PDFProcessor.pages_info (PDFProcessor.info m)))
    <$> PDFProcessor.merge_pdf_results sample_json_loads sample_fs
          sample_results
  = Some ([set_page_number 1 (sample_item "Title" [10; 10; 200; 40]%Z);
           set_page_number 1 (sample_item "Text" [10; 50; 200; 100]%Z)],
          [1; 2]%Z).
Proof. reflexivity. Qed.

Lemma merge_pdf_results_page_numbers_witness :
  ∃ m, PDFProcessor.merge_pdf_results sample_json_loads sample_fs
         sample_results = Some m ∧
       ∀ it, it ∈ PDFProcessor.all_layout_data m →
             page_number it = Some 1%Z.
Proof.
  pose proof (merge_pdf_results_page_numbers sample_json_loads sample_fs
                sample_results) as H.
  destruct (PDFProcessor.merge_pdf_results sample_json_loads sample_fs
              sample_results) as [m|] eqn:Hm; [|discriminate H].
  exists m. split; [reflexivity|].
  destruct H as (_ & _ & _ & _ & Htag & _).
  intros it Hit.
  destruct (Htag it Hit) as (i & r & path & elems & it0 & Hi & Hp & Hj & _ & _ & _ & Hpos).
  destruct i as [|[|i]]; simpl in Hi; [| |discriminate Hi].
  - injection Hi as <-. apply Hpos. reflexivity.
  - injection Hi as <-. injection Hp as <-. discriminate Hj.
Defined.

(** ** The enhanced PDF example: filtered pages *)

Section enhanced_claims.
Import EnhancedPDFProcessor.
Variable image : Type.
Variable image_open : string → option image.
Variable json_loads : string → option json_data.
Variable fs : filesystem.
Variable read_text : string → option string.

Lemma existing_json_load path p :
  existing fs path = Some p →
  path = Some p ∧ (path ≫= json_load json_loads fs) = json_load json_loads fs p.
Proof.
  unfold existing. destruct path as [q|]; simpl; [|done].
  destruct (fs q); [|done]. by intros [= ->].
Qed.

Lemma existing_None_json_load path :
  existing fs path = None → path ≫= json_load json_loads fs = None.
Proof.
  unfold existing, json_load. destruct path as [q|]; simpl; [|done].
  by destruct (fs q).
Qed.

(** One iteration appends the page's cells and one page result. *)
Lemma parse_page_spec a i r a' :
  parse_page image image_open json_loads fs read_text a i r = Some a' →
  all_cells_data a' = all_cells_data a ++ page_cells json_loads fs r ∧
  ∃ pr, parsed_results a' = parsed_results a ++ [pr] ∧
        cells_data pr = layout_info_path r ≫= json_load json_loads fs ∧
        pr_filtered pr = default false (filtered r).
Proof.
  unfold parse_page, page_cells. intros Hp.
  destruct (match existing fs (layout_image_path r) with
            | Some p => Some <$> image_open p
            | None => Some None
            end) as [img|]; simpl in Hp; [|done].
  destruct (existing fs (layout_info_path r)) as [p|] eqn:Hex.
  - destruct (existing_json_load _ _ Hex) as [Hpath Hload].
    rewrite Hload.
    destruct (json_load json_loads fs p) as [d|]; simpl in Hp; [|done].
    destruct (match existing fs (md_content_path r) with
              | Some p0 => _ | None => _ end) as [[md all_md]|];
      simpl in Hp; [|done].
    injection Hp as <-. simpl. split.
    + destruct (default false (filtered r)); [by rewrite app_nil_r|].
      destruct d; by rewrite ?app_nil_r.
    + by eexists.
  - rewrite (existing_None_json_load _ Hex). simpl in Hp.
    destruct (match existing fs (md_content_path r) with
              | Some p0 => _ | None => _ end) as [[md all_md]|];
      simpl in Hp; [|done].
    injection Hp as <-. simpl. split.
    + destruct (default false (filtered r)); by rewrite app_nil_r.
    + by eexists.
Qed.

Lemma parse_pages_spec results a i a' :
  parse_pages image image_open json_loads fs read_text a i results = Some a' →
  all_cells_data a'
  = all_cells_data a ++ (results ≫= page_cells json_loads fs) ∧
  ∃ prs, parsed_results a' = parsed_results a ++ prs ∧
    Forall2 (λ r pr,
               cells_data pr = layout_info_path r ≫= json_load json_loads fs ∧
               pr_filtered pr = default false (filtered r))
            results prs.
Proof.
  revert a i. induction results as [|r results IH]; intros a i; simpl.
  - intros [= <-]. rewrite app_nil_r. split; [done|].
    exists []. by rewrite app_nil_r.
  - destruct (parse_page image image_open json_loads fs read_text a i r) as [a1|] eqn:H1;
      simpl; [|done].
    intros H2. destruct (parse_page_spec _ _ _ _ H1) as (Hc1 & pr & Hp1 & Hpr).
    destruct (IH _ _ H2) as (Hc2 & prs & Hp2 & Hprs).
    split.
    + by rewrite Hc2, Hc1, <-app_assoc.
    + exists (pr :: prs). split; [|by constructor].
      by rewrite Hp2, Hp1, <-app_assoc.
Qed.

Lemma page_cells_elem_of r e :
  e ∈ page_cells json_loads fs r →
  ∃ path elems,
    default false (filtered r) = false ∧
    layout_info_path r = Some path ∧
    json_load json_loads fs path = Some (JsonList elems) ∧ e ∈ elems.
Proof.
  unfold page_cells. destruct (default false (filtered r));
    [by intros ?%elem_of_nil|].
  destruct (layout_info_path r) as [path|]; simpl;
    [|by intros ?%elem_of_nil].
  destruct (json_load json_loads fs path) as [[elems| | |]|] eqn:Hj;
    try by intros ?%elem_of_nil.
  intros He. by exists path, elems.
Qed.

(** C10.  When [parse_pdf_with_api] succeeds, [combined_cells_data] is the
    concatenation, in page order, of the decoded lists of the pages that
    are not filtered: a page with [filtered = true] contributes nothing,
    whatever its layout file holds, and every combined element comes from
    the list of a page that is not filtered.  The per-page [cells_data]
    still holds the decoded file of every page, filtered or not, so for a
    filtered page whose file is a well-formed list the two disagree. *)
Theorem parse_pdf_with_api_skips_filtered (results : list result)
    (out : api_output image) :
  parse_pdf_with_api image image_open json_loads fs read_text results = Some out →
  combined_cells_data out = results ≫= page_cells json_loads fs ∧
  (∀ r, filtered r = Some true → page_cells json_loads fs r = []) ∧
  (∀ e, e ∈ combined_cells_data out →
     ∃ r path elems,
       r ∈ results ∧ default false (filtered r) = false ∧
       layout_info_path r = Some path ∧
       json_load json_loads fs path = Some (JsonList elems) ∧ e ∈ elems) ∧
  (∀ i r, results !! i = Some r →
     ∃ pr, out_parsed_results out !! i = Some pr ∧
       cells_data pr = layout_info_path r ≫= json_load json_loads fs ∧
       pr_filtered pr = default false (filtered r)) ∧
  (∀ i r pr path e elems,
     results !! i = Some r → out_parsed_results out !! i = Some pr →
     filtered r = Some true → layout_info_path r = Some path →
     json_load json_loads fs path = Some (JsonList (e :: elems)) →
     cells_data pr = Some (JsonList (e :: elems)) ∧
     page_cells json_loads fs r = []).
Proof.
  unfold parse_pdf_with_api. intros Hout.
  destruct results as [|r0 results]; [done|].
  set (rs := r0 :: results) in *.
  destruct (parse_pages image image_open json_loads fs read_text
              (Acc [] [] []) 0 rs) as [a|] eqn:Ha;
    simpl in Hout; [|done].
  injection Hout as <-.
  destruct (parse_pages_spec _ _ _ _ Ha) as (Hcells & prs & Hprs & Hall).
  cbn [all_cells_data parsed_results app] in Hcells, Hprs.
  cbn [combined_cells_data out_parsed_results].
  assert (∀ r, filtered r = Some true → page_cells json_loads fs r = [])
    as Hfiltered.
  { intros r Hr. unfold page_cells. by rewrite Hr. }
  assert (∀ i r, rs !! i = Some r →
     ∃ pr, parsed_results a !! i = Some pr ∧
       cells_data pr = layout_info_path r ≫= json_load json_loads fs ∧
       pr_filtered pr = default false (filtered r)) as Hpages.
  { intros i r Hi. rewrite Hprs.
    destruct (Forall2_lookup_l _ _ _ _ _ Hall Hi) as (pr & Hpr & Hc).
    by exists pr. }
  split_and!; try done.
  - intros e He. rewrite Hcells in He.
    apply list_elem_of_bind in He as (r & He & Hr).
    destruct (page_cells_elem_of r e He) as (path & elems & Hf & Hp & Hj & Hin).
    by exists r, path, elems.
  - intros i r pr path e elems Hi Hpr Hf Hp Hj.
    split; [|by apply Hfiltered].
    destruct (Hpages i r Hi) as (pr' & Hpr' & Hc & _).
    rewrite Hpr in Hpr'. injection Hpr' as <-.
    rewrite Hc, Hp. simpl. done.
Qed.
End enhanced_claims.

Example parse_pdf_with_api_sample :
  EnhancedPDFProcessor.combined_cells_data
    <$> EnhancedPDFProcessor.parse_pdf_with_api unit (λ _, Some ())
          sample_json_loads sample_fs sample_fs sample_results
  = Some [ElemDict (sample_item "Title" [10; 10; 200; 40]%Z);
          ElemDict (sample_item "Text" [10; 50; 200; 100]%Z)].
Proof. reflexivity. Qed.

Lemma parse_pdf_with_api_skips_filtered_witness :
  ∃ out pr,
    EnhancedPDFProcessor.parse_pdf_with_api unit (λ _, Some ())
      sample_json_loads sample_fs sample_fs stale_results = Some out ∧
    EnhancedPDFProcessor.combined_cells_data out = [] ∧
    EnhancedPDFProcessor.out_parsed_results out !! 0 = Some pr ∧
    EnhancedPDFProcessor.cells_data pr
    = Some (JsonList [ElemDict (sample_item "Text" [0; 0; 10; 10]%Z)]).
Proof.
  destruct (EnhancedPDFProcessor.parse_pdf_with_api unit (λ _, Some ())
              sample_json_loads sample_fs sample_fs stale_results)
    as [out|] eqn:Hout;
    [|discriminate Hout].
  destruct (parse_pdf_with_api_skips_filtered unit (λ _, Some ())
              sample_json_loads sample_fs sample_fs stale_results out Hout)
    as (Hcomb & _ & _ & Hpages & Hdis).
  destruct (Hpages 0 (sample_result 0 "page_2.json" true) eq_refl)
    as (pr & Hpr & _ & _).
  exists out, pr. split_and!.
  - reflexivity.
  - exact Hcomb.
  - exact Hpr.
  - apply (Hdis 0 (sample_result 0 "page_2.json" true) pr "page_2.json"
             (ElemDict (sample_item "Text" [0; 0; 10; 10]%Z)) []);
      [reflexivity|exact Hpr|reflexivity..].
Defined.

(** ** Parsing a backend response *)

Section parser_claims.
Import ResultParser.
Variable strict_decode : string → option (list record).
Variable repair : string → string.

Lemma parse_category_name c : parse_category (category_name c) = Some c.
Proof. by destruct c. Qed.

Lemma parse_category_Some s c :
  parse_category s = Some c → s = category_name c.
Proof.
  unfold parse_category. intros Hs.
  destruct (list_find _ all_categories) as [[i c']|] eqn:Hf;
    simpl in Hs; [|done].
  injection Hs as <-. apply list_find_Some in Hf as (_ & Hc & _). done.
Qed.

Lemma parse_bbox_Some b bb :
  parse_bbox b = Some bb →
  b = [Some (x1 bb); Some (y1 bb); Some (x2 bb); Some (y2 bb)].
Proof.
  destruct b as [|[a|] [|[b'|] [|[c|] [|[d|] [|? ?]]]]]; simpl; try done.
  by intros [= <-].
Qed.

Lemma validate_carries r e : validate r = Some e → carries r e.
Proof.
  unfold validate, carries. intros Hv.
  destruct (rec_category r) as [s|]; simpl in Hv; [|done].
  destruct (parse_category s) as [c|] eqn:Hc; simpl in Hv; [|done].
  destruct (rec_bbox r) as [b|]; simpl in Hv; [|done].
  destruct (parse_bbox b) as [bb|] eqn:Hb; simpl in Hv; [|done].
  injection Hv as <-. simpl.
  by rewrite (parse_category_Some _ _ Hc), (parse_bbox_Some _ _ Hb).
Qed.

Lemma validate_valid r : is_Some (validate r) ↔ valid_record r.
Proof.
  split.
  - intros [e He]. apply validate_carries in He as [Hc Hb].
    split; [by eexists|by eexists _, _, _, _].
  - intros [[c Hc] (a & b & c' & d & Hb)].
    unfold validate. rewrite Hc, Hb. simpl.
    rewrite parse_category_name. simpl. by eexists.
Qed.

(** C4.  For every raw text the parser answers in one of two ways.
    Either a decode succeeded, directly or after the repair pass, and the
    page is Succeeded with exactly the valid records of the decoded list,
    in order, each element carrying the category of the fixed set and the
    four-number bbox of its record, the other records being dropped one by
    one; or both decodes failed and the page is Filtered with the raw text
    unchanged. *)
Theorem parse_keeps_valid_records_or_raw_text (raw : string) :
  (∃ records : list record,
     (strict_decode raw = Some records ∨
      strict_decode raw = None ∧ strict_decode (repair raw) = Some records) ∧
     parse strict_decode repair raw = Succeeded (omap validate records) ∧
     (∀ r, r ∈ records → valid_record r →
        ∃ e, validate r = Some e ∧ e ∈ omap validate records) ∧
     (∀ e, e ∈ omap validate records →
        ∃ r, r ∈ records ∧ valid_record r ∧ carries r e)) ∨
  (strict_decode raw = None ∧ strict_decode (repair raw) = None ∧
   parse strict_decode repair raw = Filtered raw MalformedResponse).
Proof.
  assert (∀ records : list record,
    (∀ r, r ∈ records → valid_record r →
       ∃ e, validate r = Some e ∧ e ∈ omap validate records) ∧
    (∀ e, e ∈ omap validate records →
       ∃ r, r ∈ records ∧ valid_record r ∧ carries r e)) as Hrec.
  { intros records. split.
    - intros r Hr Hv. apply validate_valid in Hv as [e He].
      exists e. split; [done|]. apply list_elem_of_omap. by exists r.
    - intros e He. apply list_elem_of_omap in He as (r & Hr & He).
      exists r. split_and!; [done| |by apply validate_carries].
      apply validate_valid. by eexists. }
  unfold parse.
  destruct (strict_decode raw) as [records|] eqn:H1.
  - left. exists records. destruct (Hrec records). split_and!; auto.
  - destruct (strict_decode (repair raw)) as [records|] eqn:H2.
    + left. exists records. destruct (Hrec records). split_and!; auto.
    + by right.
Qed.

End parser_claims.

Example parse_sample :
  ResultParser.parse sample_decode sample_repair
    "Here is the layout: [records]"
  = ResultParser.Succeeded
      [ResultParser.MkElement ResultParser.Title
         (ResultParser.MkBBox 10 10 200 40) "Report" None;
       ResultParser.MkElement ResultParser.Text
         (ResultParser.MkBBox 10 50 200 100) "Body" None] ∧
  ResultParser.parse sample_decode sample_repair "[records"
  = ResultParser.Filtered "[records" ResultParser.MalformedResponse.
Proof. split; reflexivity. Qed.

Lemma parse_keeps_valid_records_or_raw_text_witness :
  ∃ e, e ∈ omap ResultParser.validate sample_records ∧
       ResultParser.el_category e = ResultParser.Text.
Proof.
  destruct (parse_keeps_valid_records_or_raw_text sample_decode sample_repair
              "[records]") as [(records & Hdec & _ & Hkeep & _)|(Hdec & _)];
    [|discriminate Hdec].
  destruct Hdec as [Hdec|[Hdec _]]; [|discriminate Hdec].
  injection Hdec as <-.
  destruct (Hkeep (ResultParser.MkRecord (Some "Text")
                     (Some [Some 10; Some 50; Some 200; Some 100]%Z)
                     (Some "Body"))) as (e & He & Hin).
  - apply list_elem_of_further, list_elem_of_further, list_elem_of_here.
  - split; [by exists ResultParser.Text|by eexists _, _, _, _].
  - exists e. split; [exact Hin|]. by injection He as <-.
Defined.

(** ** Coordinate normalisation *)

Section normalize_claims.
Import ResultParser LayoutPostProcessor.
Local Open Scope Z_scope.

Lemma omap_idemp {A} (f : A → option A) (l : list A) :
  (∀ x y, f x = Some y → f y = Some y) → omap f (omap f l) = omap f l.
Proof.
  intros Hf. induction l as [|x l IH]; [done|].
  change (omap f (x :: l)) with
    (match f x with Some y => y :: omap f l | None => omap f l end).
  destruct (f x) as [y|] eqn:Hx; [|done].
  change (omap f (y :: omap f l)) with
    (match f y with Some z => z :: omap f (omap f l)
                  | None => omap f (omap f l) end).
  by rewrite (Hf _ _ Hx), IH.
Qed.

Lemma with_bbox_id e : with_bbox e (el_bbox e) = e.
Proof. by destruct e. Qed.

Lemma clip_in_range lo hi v : lo ≤ v ≤ hi → clip lo hi v = v.
Proof. unfold clip. lia. Qed.

Lemma bbox_area_nonzero b : bbox_area b ≠ 0 ↔ x1 b < x2 b ∧ y1 b < y2 b.
Proof.
  unfold bbox_area. rewrite <-Z.neq_mul_0. lia.
Qed.

Lemma clip_bbox_in_bounds width height e :
  in_bounds width height e → clip_bbox width height (el_bbox e) = el_bbox e.
Proof.
  unfold in_bounds, clip_bbox. intros (? & ? & ? & ? & ? & ?).
  destruct (el_bbox e) as [a b c d]; simpl in *.
  by rewrite !clip_in_range by lia.
Qed.

Lemma normalize_element_in_bounds width height e :
  in_bounds width height e → normalize_element width height e = Some e.
Proof.
  intros Hin. unfold normalize_element.
  rewrite (clip_bbox_in_bounds _ _ _ Hin), with_bbox_id.
  rewrite decide_False; [done|].
  apply bbox_area_nonzero. unfold in_bounds in Hin. lia.
Qed.

Lemma normalize_element_Some width height e e' :
  normalize_element width height e = Some e' →
  e' = with_bbox e (clip_bbox width height (el_bbox e)) ∧
  in_bounds width height e'.
Proof.
  unfold normalize_element. case_decide as Ha; [done|].
  intros [= <-]. split; [done|].
  apply bbox_area_nonzero in Ha. revert Ha.
  unfold in_bounds, with_bbox, clip_bbox, clip. simpl. lia.
Qed.

(** C5.  Every element that coordinate normalisation hands on satisfies
    [0 ≤ x1 < x2 ≤ width] and [0 ≤ y1 < y2 ≤ height]: it is an input
    element with its bbox clipped to the page, and elements whose clipped
    bbox has no area are dropped.  An element that already satisfies the
    invariant is handed on as it is, and normalising twice is the same as
    normalising once. *)
Theorem normalize_establishes_bounds (width height : Z)
    (elements : list Element) :
  (∀ e, e ∈ normalize width height elements →
     in_bounds width height e ∧
     ∃ e0, e0 ∈ elements ∧
           e = with_bbox e0 (clip_bbox width height (el_bbox e0))) ∧
  (∀ e0, e0 ∈ elements → in_bounds width height e0 →
     e0 ∈ normalize width height elements) ∧
  (∀ e0, e0 ∈ elements →
     bbox_area (clip_bbox width height (el_bbox e0)) = 0 →
     ¬ in_bounds width height e0 ∧
     normalize_element width height e0 = None) ∧
  normalize width height (normalize width height elements)
  = normalize width height elements.
Proof.
  split_and!.
  - intros e He. apply list_elem_of_omap in He as (e0 & He0 & Hn).
    apply normalize_element_Some in Hn as [-> Hb].
    split; [done|]. by exists e0.
  - intros e0 He0 Hb. apply list_elem_of_omap. exists e0.
    split; [done|]. by apply normalize_element_in_bounds.
  - intros e0 He0 Ha. split.
    + intros Hb. rewrite (clip_bbox_in_bounds _ _ _ Hb) in Ha.
      assert (bbox_area (el_bbox e0) ≠ 0) as Hne
        by (apply bbox_area_nonzero; unfold in_bounds in Hb; lia).
      done.
    + unfold normalize_element. by rewrite decide_True.
  - apply omap_idemp. intros e0 e Hn.
    apply normalize_element_Some in Hn as [_ Hb].
    by apply normalize_element_in_bounds.
Qed.

Example normalize_sample :
  normalize 1000 800 sample_elements
  = [sample_element 10 10 200 40; sample_element 900 700 1000 800].
Proof. reflexivity. Qed.

Lemma normalize_establishes_bounds_witness :
  in_bounds 1000 800 (sample_element 900 700 1000 800) ∧
  sample_element 10 10 200 40 ∈ normalize 1000 800 sample_elements.
Proof.
  destruct (normalize_establishes_bounds 1000 800 sample_elements)
    as (Hout & Hkeep & _ & _).
  split.
  - apply Hout. apply list_elem_of_further, list_elem_of_here.
  - apply Hkeep; [apply list_elem_of_here|].
    unfold in_bounds. simpl. lia.
Defined.
End normalize_claims.

(** ** Dispatch *)

Section dispatch_claims.
Import ResultParser InferenceDispatcher.
Variable page : Type.
Variable backend : page → nat → attempt.
Variable retry_budget : nat.
Variable strict_decode : string → option (list record).
Variable repair : string → string.

Local Abbreviation page_task := (page_task page backend retry_budget strict_decode repair).
Local Abbreviation complete := (complete page backend retry_budget strict_decode repair).
Local Abbreviation run := (run page backend retry_budget strict_decode repair).
Local Abbreviation dispatch := (dispatch page backend retry_budget strict_decode repair).

Lemma complete_length pages slots i :
  length (complete pages slots i) = length slots.
Proof.
  unfold InferenceDispatcher.complete.
  destruct (pages !! i); [|done]. by rewrite length_insert.
Qed.

Lemma complete_lookup pages slots i j :
  length slots = length pages →
  complete pages slots j !! i
  = if decide (i = j) then (λ p, Some (page_task p)) <$> pages !! i
    else slots !! i.
Proof.
  intros Hlen. unfold InferenceDispatcher.complete.
  destruct (pages !! j) as [p|] eqn:Hj.
  - case_decide as Hij.
    + subst j. rewrite Hj. simpl. apply list_lookup_insert_eq.
      rewrite Hlen. by eapply lookup_lt_Some.
    + by apply list_lookup_insert_ne.
  - case_decide as Hij; [|done]. subst j. rewrite Hj. simpl.
    apply lookup_ge_None. rewrite Hlen. by apply lookup_ge_None.
Qed.

(** A slot holds the result of its own page as soon as that page has
    completed, whatever else completed before or after. *)
Lemma foldl_complete_lookup pages completion slots i :
  length slots = length pages →
  foldl (complete pages) slots completion !! i
  = if decide (i ∈ completion)
    then (λ p, Some (page_task p)) <$> pages !! i
    else slots !! i.
Proof.
  revert slots. induction completion as [|j completion IH];
    intros slots Hlen; simpl.
  - done.
  - rewrite IH by by rewrite complete_length.
    rewrite complete_lookup by done.
    destruct (decide (i ∈ completion)) as [Hin|Hin].
    + rewrite decide_True; [done|]. by right.
    + destruct (decide (i = j)) as [->|Hij].
      * rewrite decide_True; [done|]. by left.
      * rewrite decide_False; [done|].
        rewrite elem_of_cons. by intros [?|?].
Qed.

Lemma run_all_completed pages completion :
  completion ≡ₚ seq 0 (length pages) →
  run pages completion = Some ∘ page_task <$> pages.
Proof.
  intros Hperm. apply list_eq. intros i.
  unfold InferenceDispatcher.run.
  rewrite foldl_complete_lookup by by rewrite length_replicate.
  rewrite list_lookup_fmap. case_decide as Hin; [done|].
  destruct (pages !! i) as [p|] eqn:Hp; simpl.
  - exfalso. apply Hin. rewrite Hperm. apply elem_of_seq.
    apply lookup_lt_Some in Hp. lia.
  - apply lookup_ge_None. rewrite length_replicate.
    by apply lookup_ge_None.
Qed.

Lemma mapM_Some_fmap {A B} (f : A → B) (l : list A) :
  mapM (λ slot, slot) (Some ∘ f <$> l) = Some (f <$> l).
Proof.
  apply mapM_Some. induction l; simpl; by constructor.
Qed.

(** A page whose every allowed call fails is Filtered with the last
    diagnostic. *)
Lemma call_with_retry_exhausted p k budget :
  (∀ n, k ≤ n ≤ k + budget → ∃ d, backend p n = Transient d) →
  ∃ d, call_with_retry page backend strict_decode repair p k budget
       = Filtered d BackendFailure.
Proof.
  revert k. induction budget as [|budget IH]; intros k Hfail; simpl.
  - destruct (Hfail k) as [d Hd]; [lia|]. rewrite Hd. by exists d.
  - destruct (Hfail k) as [d Hd]; [lia|]. rewrite Hd.
    apply IH. intros n Hn. apply Hfail. lia.
Qed.

Lemma filter_is_filtered_one (doc : list PageResult) j :
  (∀ i r, doc !! i = Some r → is_filtered r = bool_decide (i = j)) →
  j < length doc →
  length (filter (λ r, is_filtered r = true) doc) = 1 ∧
  length (filter (λ r, is_succeeded r = true) doc) = length doc - 1.
Proof.
  revert j. induction doc as [|r doc IH]; intros j Hdoc Hj; simpl in Hj;
    [lia|].
  assert (∀ r', is_succeeded r' = negb (is_filtered r')) as Hneg
    by by intros [].
  pose proof (Hdoc 0 r eq_refl) as Hr.
  destruct j as [|j].
  - assert (∀ r', r' ∈ doc → is_filtered r' = false) as Hrest.
    { intros r' [i Hi]%list_elem_of_lookup.
      by rewrite (Hdoc (S i) r' Hi). }
    rewrite bool_decide_eq_true_2 in Hr by done.
    rewrite (filter_cons_True (λ r, is_filtered r = true)) by done.
    rewrite (filter_cons_False (λ r, is_succeeded r = true))
      by by rewrite Hneg, Hr.
    assert (filter (λ r, is_filtered r = true) doc = []) as ->.
    { clear -Hrest. induction doc as [|r' doc IH]; [done|].
      rewrite filter_cons_False; [apply IH|].
      - intros r'' Hr''. apply Hrest. by right.
      - rewrite Hrest; [done|by left]. }
    assert (filter (λ r, is_succeeded r = true) doc = doc) as ->.
    { clear -Hrest Hneg. induction doc as [|r' doc IH]; [done|].
      rewrite filter_cons_True; [f_equal; apply IH|].
      - intros r'' Hr''. apply Hrest. by right.
      - rewrite Hneg, Hrest; [done|by left]. }
    simpl. lia.
  - destruct (IH j) as [IH1 IH2].
    + intros i r' Hi. rewrite (Hdoc (S i) r' Hi).
      apply bool_decide_ext. lia.
    + lia.
    + rewrite bool_decide_eq_false_2 in Hr by done.
      rewrite (filter_cons_False (λ r, is_filtered r = true))
        by by rewrite Hr.
      rewrite (filter_cons_True (λ r, is_succeeded r = true))
        by by rewrite Hneg, Hr.
      simpl. rewrite IH1, IH2. split; lia.
Qed.

(** C1.  Whatever the order in which the page tasks complete, the
    document result has one page result per input page, in input order:
    entry [i] is the result of the task of page [i], which depends on the
    backend's answers for that page only.  If every allowed call for page
    [j] fails while every other page succeeds, the result has a Filtered
    entry at index [j], Succeeded entries everywhere else, hence exactly
    one Filtered and [N - 1] Succeeded entries. *)
Theorem dispatch_keeps_page_order (pages : list page)
    (completion : list nat) :
  completion ≡ₚ seq 0 (length pages) →
  ∃ doc,
    dispatch pages completion = Some doc ∧
    doc = page_task <$> pages ∧
    length doc = length pages ∧
    (∀ j pj,
       pages !! j = Some pj →
       (∀ n, n ≤ retry_budget → ∃ d, backend pj n = Transient d) →
       (∀ i p, i ≠ j → pages !! i = Some p →
               is_succeeded (page_task p) = true) →
       (∀ i r, doc !! i = Some r → is_filtered r = bool_decide (i = j)) ∧
       (∀ i r, doc !! i = Some r → is_succeeded r = bool_decide (i ≠ j)) ∧
       length (filter (λ r, is_filtered r = true) doc) = 1 ∧
       length (filter (λ r, is_succeeded r = true) doc)
       = length pages - 1).
Proof.
  intros Hperm. exists (page_task <$> pages).
  assert (length (page_task <$> pages) = length pages) as Hlen
    by by rewrite length_fmap.
  split_and!; [|done|done|].
  - unfold InferenceDispatcher.dispatch.
    rewrite (run_all_completed _ _ Hperm). apply mapM_Some_fmap.
  - intros j pj Hj Hfail Hothers.
    assert (∀ i r, (page_task <$> pages) !! i = Some r →
                   is_filtered r = bool_decide (i = j)) as Hshape.
    { intros i r Hi. rewrite list_lookup_fmap in Hi.
      destruct (pages !! i) as [p|] eqn:Hp; simpl in Hi; [|done].
      injection Hi as <-.
      destruct (decide (i = j)) as [->|Hij].
      - rewrite bool_decide_eq_true_2 by done.
        rewrite Hj in Hp. injection Hp as <-.
        destruct (call_with_retry_exhausted pj 0 retry_budget) as [d Hd].
        { intros n Hn. apply Hfail. lia. }
        unfold InferenceDispatcher.page_task. by rewrite Hd.
      - rewrite bool_decide_eq_false_2 by done.
        specialize (Hothers i p Hij Hp).
        by destruct (page_task p). }
    split_and!.
    + done.
    + intros i r Hi. specialize (Hshape i r Hi).
      destruct r; simpl in *; symmetry in Hshape.
      * apply bool_decide_eq_false in Hshape.
        symmetry. by apply bool_decide_eq_true.
      * apply bool_decide_eq_true in Hshape.
        symmetry. apply bool_decide_eq_false. by intros ?.
    + apply (filter_is_filtered_one _ j Hshape).
      rewrite Hlen. by eapply lookup_lt_Some.
    + rewrite <-Hlen. apply (filter_is_filtered_one _ j Hshape).
      rewrite Hlen. by eapply lookup_lt_Some.
Qed.
End dispatch_claims.

Example dispatch_sample :
  InferenceDispatcher.dispatch nat sample_backend 2 sample_decode
    sample_repair [0; 1; 2] [2; 0; 1]
  = Some
      [ResultParser.Succeeded
         [ResultParser.MkElement ResultParser.Title
            (ResultParser.MkBBox 10 10 200 40) "Report" None;
          ResultParser.MkElement ResultParser.Text
            (ResultParser.MkBBox 10 50 200 100) "Body" None];
       ResultParser.Filtered "timeout" ResultParser.BackendFailure;
       ResultParser.Succeeded
         [ResultParser.MkElement ResultParser.Title
            (ResultParser.MkBBox 10 10 200 40) "Report" None;
          ResultParser.MkElement ResultParser.Text
            (ResultParser.MkBBox 10 50 200 100) "Body" None]].
Proof. reflexivity. Qed.

Lemma dispatch_keeps_page_order_witness :
  ∃ doc,
    InferenceDispatcher.dispatch nat sample_backend 2 sample_decode
      sample_repair [0; 1; 2] [2; 0; 1] = Some doc ∧
    length doc = 3 ∧
    length (filter (λ r, InferenceDispatcher.is_filtered r = true) doc) = 1 ∧
    length (filter (λ r, InferenceDispatcher.is_succeeded r = true) doc) = 2.
Proof.
  destruct (dispatch_keeps_page_order nat sample_backend 2 sample_decode
              sample_repair [0; 1; 2] [2; 0; 1])
    as (doc & Hdoc & _ & Hlen & Hone).
  - simpl. rewrite (Permutation_swap 0 2 [1]). apply perm_skip.
    apply Permutation_swap.
  - exists doc. split; [exact Hdoc|]. split; [exact Hlen|].
    destruct (Hone 1 1 eq_refl) as (_ & _ & Hf & Hs).
    + intros n _. by exists "timeout".
    + intros i p Hij Hp. destruct i as [|[|[|i]]]; simpl in Hp;
        try discriminate Hp; try (by destruct Hij);
        injection Hp as <-; reflexivity.
    + split; [exact Hf|exact Hs].
Defined.


(** ** Resolution planning and the coordinate mappings *)

Section planner_claims.
Import ResolutionPlanner.
Local Open Scope R_scope.

Lemma clamp_area_pos area min_pixels max_pixels :
  0 < area → (∀ hi, max_pixels = Some hi → 0 < hi) →
  0 < clamp_area area min_pixels max_pixels.
Proof.
  intros Ha Hhi. unfold clamp_area.
  destruct min_pixels as [lo|], max_pixels as [hi|];
    try specialize (Hhi hi eq_refl);
    unfold Rmin, Rmax; repeat destruct (Rle_dec _ _); lra.
Qed.

Lemma clamp_area_bounds area min_pixels max_pixels :
  (∀ lo hi, min_pixels = Some lo → max_pixels = Some hi → lo <= hi) →
  (∀ lo, min_pixels = Some lo → lo <= clamp_area area min_pixels max_pixels) ∧
  (∀ hi, max_pixels = Some hi → clamp_area area min_pixels max_pixels <= hi).
Proof.
  intros Hord. unfold clamp_area.
  destruct min_pixels as [lo|], max_pixels as [hi|];
    try specialize (Hord lo hi eq_refl eq_refl);
    split; intros b [= <-];
    unfold Rmin, Rmax; repeat destruct (Rle_dec _ _); lra.
Qed.

Lemma clamp_area_within area min_pixels max_pixels :
  (∀ lo, min_pixels = Some lo → lo <= area) →
  (∀ hi, max_pixels = Some hi → area <= hi) →
  clamp_area area min_pixels max_pixels = area.
Proof.
  intros Hlo Hhi. unfold clamp_area.
  destruct min_pixels as [lo|], max_pixels as [hi|];
    try specialize (Hlo lo eq_refl); try specialize (Hhi hi eq_refl);
    unfold Rmin, Rmax; repeat destruct (Rle_dec _ _); lra.
Qed.

Lemma resolution_plan_Some width height min_pixels max_pixels :
  0 < width → 0 < height →
  resolution_plan width height min_pixels max_pixels
  = Some (let s := sqrt (clamp_area (width * height) min_pixels max_pixels
                         / (width * height)) in
          Plan (width * s) (height * s) s).
Proof.
  intros Hw Hh. unfold resolution_plan.
  destruct (Rle_dec width 0); [lra|].
  destruct (Rle_dec height 0); [lra|]. done.
Qed.

Lemma scale_factor_sqr width height target :
  0 < width → 0 < height → 0 < target →
  let s := sqrt (target / (width * height)) in
  0 < s ∧ (width * s) * (height * s) = target.
Proof.
  intros Hw Hh Ht s.
  assert (0 < width * height) as Ha by by apply Rmult_lt_0_compat.
  assert (0 < target / (width * height)) as Hq by by apply Rdiv_lt_0_compat.
  split; [by apply sqrt_lt_R0|].
  replace (width * s * (height * s)) with (width * height * (s * s)) by ring.
  unfold s. rewrite sqrt_sqrt by lra. field. lra.
Qed.

(** C3.  For positive dimensions and positive pixel budgets with
    [min_pixels ≤ max_pixels], the planner returns target dimensions with
    the aspect ratio of the original whose area is the original area clamped
    to the supplied bounds: inside [[min_pixels, max_pixels]] when both are
    given, clamped to the single bound when one is given, and the original
    dimensions with scale factor 1 when none is given or when the original
    already meets the budget. *)
Theorem resolution_plan_within_budget (width height : R)
    (min_pixels max_pixels : option R) :
  0 < width → 0 < height →
  (∀ hi, max_pixels = Some hi → 0 < hi) →
  (∀ lo hi, min_pixels = Some lo → max_pixels = Some hi → lo <= hi) →
  ∃ p,
    resolution_plan width height min_pixels max_pixels = Some p ∧
    0 < scale_factor p ∧
    target_width p = width * scale_factor p ∧
    target_height p = height * scale_factor p ∧
    target_width p / target_height p = width / height ∧
    target_width p * target_height p
    = clamp_area (width * height) min_pixels max_pixels ∧
    (∀ lo, min_pixels = Some lo → lo <= target_width p * target_height p) ∧
    (∀ hi, max_pixels = Some hi → target_width p * target_height p <= hi) ∧
    (∀ lo, min_pixels = Some lo → max_pixels = None →
       target_width p * target_height p = Rmax (width * height) lo) ∧
    (∀ hi, min_pixels = None → max_pixels = Some hi →
       target_width p * target_height p = Rmin (width * height) hi) ∧
    ((∀ lo, min_pixels = Some lo → lo <= width * height) →
     (∀ hi, max_pixels = Some hi → width * height <= hi) →
     scale_factor p = 1 ∧ target_width p = width ∧ target_height p = height).
Proof.
  intros Hw Hh Hpos Hord.
  assert (0 < width * height) as Ha by by apply Rmult_lt_0_compat.
  pose proof (clamp_area_pos _ min_pixels max_pixels Ha Hpos) as Ht.
  destruct (scale_factor_sqr width height _ Hw Hh Ht) as [Hs Harea].
  destruct (clamp_area_bounds (width * height) _ _ Hord) as [Hlo Hhi].
  eexists. split; [by apply resolution_plan_Some|].
  cbn [scale_factor target_width target_height].
  set (s := sqrt _) in *.
  split_and!; try done.
  - field. lra.
  - intros lo Hmin. rewrite Harea. by apply Hlo.
  - intros hi Hmax. rewrite Harea. by apply Hhi.
  - intros lo -> ->. by rewrite Harea.
  - intros hi -> ->. by rewrite Harea.
  - intros Hin1 Hin2.
    assert (s = 1) as ->.
    { unfold s. rewrite (clamp_area_within _ _ _ Hin1 Hin2).
      replace (width * height / (width * height)) with 1 by (field; lra).
      apply sqrt_1. }
    split_and!; [done|ring|ring].
Qed.

Lemma resolution_plan_within_budget_witness :
  ∃ p, resolution_plan 4 2 None (Some 2) = Some p ∧
       target_width p / target_height p = 4 / 2 ∧
       target_width p * target_height p <= 2.
Proof.
  destruct (resolution_plan_within_budget 4 2 None (Some 2))
    as (p & Hp & _ & _ & _ & Hratio & _ & _ & Hmax & _).
  - lra.
  - lra.
  - intros hi [= <-]. lra.
  - intros lo hi [=].
  - exists p. split; [exact Hp|]. split; [exact Hratio|].
    apply Hmax. reflexivity.
Defined.

Example resolution_plan_invalid width height min_pixels max_pixels :
  width <= 0 ∨ height <= 0 →
  resolution_plan width height min_pixels max_pixels = None.
Proof.
  intros Hbad. unfold resolution_plan.
  destruct (Rle_dec width 0); [done|].
  destruct (Rle_dec height 0); [done|]. lra.
Qed.

Lemma to_original_to_scaled s b : s ≠ 0 → to_original s (to_scaled s b) = b.
Proof.
  intros Hs. destruct b as [[[a b] c] d]. unfold to_scaled, to_original.
  repeat f_equal; field; done.
Qed.

Lemma to_scaled_to_original s b : s ≠ 0 → to_scaled s (to_original s b) = b.
Proof.
  intros Hs. destruct b as [[[a b] c] d]. unfold to_scaled, to_original.
  repeat f_equal; field; done.
Qed.

(** C6.  With the scale factor the planner recorded for the page, mapping
    a bbox of the original image into the scaled image and back gives the
    bbox again, and so does mapping a bbox of the scaled image to the
    original and back; the whole original image is mapped onto the whole
    scaled image.  No rounding takes place in the mappings, so the round
    trip is exact. *)
Theorem region_bbox_round_trip (width height : R)
    (min_pixels max_pixels : option R) (p : plan) (b : box) :
  0 < width → 0 < height →
  (∀ hi, max_pixels = Some hi → 0 < hi) →
  resolution_plan width height min_pixels max_pixels = Some p →
  to_original (scale_factor p) (to_scaled (scale_factor p) b) = b ∧
  to_scaled (scale_factor p) (to_original (scale_factor p) b) = b ∧
  to_scaled (scale_factor p) (0, 0, width, height)
  = (0, 0, target_width p, target_height p).
Proof.
  intros Hw Hh Hpos Hp.
  rewrite resolution_plan_Some in Hp by done. injection Hp as <-.
  cbn [scale_factor target_width target_height].
  assert (0 < width * height) as Ha by by apply Rmult_lt_0_compat.
  pose proof (clamp_area_pos _ min_pixels max_pixels Ha Hpos) as Ht.
  destruct (scale_factor_sqr width height _ Hw Hh Ht) as [Hs _].
  set (s := sqrt _) in *.
  split_and!.
  - apply to_original_to_scaled. lra.
  - apply to_scaled_to_original. lra.
  - unfold to_scaled. repeat f_equal; ring.
Qed.

Lemma region_bbox_round_trip_witness :
  ∃ p, resolution_plan 4 2 None (Some 2) = Some p ∧
       to_original (scale_factor p) (to_scaled (scale_factor p) (1, 1, 3, 2))
       = (1, 1, 3, 2).
Proof.
  destruct (resolution_plan 4 2 None (Some 2)) as [p|] eqn:Hp.
  - exists p. split; [reflexivity|].
    apply (region_bbox_round_trip 4 2 None (Some 2) p (1, 1, 3, 2)).
    + lra.
    + lra.
    + intros hi [= <-]. lra.
    + exact Hp.
  - exfalso. rewrite resolution_plan_Some in Hp by lra. discriminate Hp.
Defined.
End planner_claims.


(** * Further properties of the example programs *)

(** ** Tables and formulas *)

Section helper_properties.
Import AdvancedParser AdvancedParserHelpers PyStr.

Lemma foldl_filter_append {A} (P : A → Prop) `{∀ x, Decision (P x)}
    (acc l : list A) :
  foldl (λ acc x, if decide (P x) then acc ++ [x] else acc) acc l
  = acc ++ filter P l.
Proof.
  revert acc. induction l as [|x l IH]; intros acc; simpl.
  - by rewrite app_nil_r.
  - rewrite IH, filter_cons. case_decide; [|done].
    by rewrite <-app_assoc.
Qed.

Lemma get_category_Some it c :
  c ≠ "Unknown" → get_category it = c ↔ category it = Some c.
Proof.
  intros Hc. unfold get_category. destruct (category it) as [c'|]; simpl.
  - split; [by intros ->|by intros [= ->]].
  - split; [by intros <-|done].
Qed.

(** X1.  [extract_tables_only] and [extract_formulas_only] return exactly
    the lists that [extract_structured_content] stores under ['Table'] and
    ['Formula']: the three functions agree on every layout, also on
    elements without a category. *)
Theorem extract_tables_only_agrees (layout_data : list item) :
  extract_structured_content layout_data !! "Table"
  = Some (extract_tables_only layout_data) ∧
  extract_structured_content layout_data !! "Formula"
  = Some (extract_formulas_only layout_data) ∧
  extract_tables_only layout_data
  = filter (λ it, category it = Some "Table") layout_data ∧
  extract_formulas_only layout_data
  = filter (λ it, category it = Some "Formula") layout_data.
Proof.
  assert ("Table" ∈ categories) as Ht
    by by apply (bool_decide_unpack _); vm_compute.
  assert ("Formula" ∈ categories) as Hf
    by by apply (bool_decide_unpack _); vm_compute.
  unfold extract_tables_only, extract_formulas_only.
  rewrite !foldl_filter_append, !extract_structured_content_lookup.
  rewrite !decide_True by done.
  split_and!; try done; f_equal; apply list_filter_iff; intros it;
    by apply get_category_Some.
Qed.

(** X2.  Whatever the layout, also the empty one, the dict returned by
    [extract_structured_content] has exactly the eleven category keys, and
    an element is only ever stored under its own category. *)
Theorem extract_structured_content_keys (layout_data : list item) :
  (∀ c, is_Some (extract_structured_content layout_data !! c)
        ↔ c ∈ categories) ∧
  size (extract_structured_content layout_data) = 11 ∧
  (∀ c items it,
     extract_structured_content layout_data !! c = Some items →
     it ∈ items → get_category it = c ∧ it ∈ layout_data).
Proof.
  assert (∀ c, is_Some (extract_structured_content layout_data !! c)
               ↔ c ∈ categories) as Hkeys.
  { intros c. rewrite extract_structured_content_lookup.
    case_decide; split; try done; try (by eexists); by intros [? ?]. }
  split_and!.
  - done.
  - assert (dom (extract_structured_content layout_data)
            = list_to_set categories) as Hdom.
    { apply set_eq. intros c.
      rewrite elem_of_dom, Hkeys, elem_of_list_to_set. done. }
    rewrite <-size_dom, Hdom. rewrite size_list_to_set.
    + done.
    + apply categories_NoDup.
  - intros c items it Hc Hit.
    rewrite extract_structured_content_lookup in Hc.
    case_decide; [|done]. injection Hc as <-.
    by apply list_elem_of_filter in Hit.
Qed.

Lemma sum_list_indicator (c : string) (cs : list string) :
  NoDup cs →
  sum_list ((λ c', if decide (c = c') then 1 else 0) <$> cs)
  = if decide (c ∈ cs) then 1 else 0.
Proof.
  induction 1 as [|c' cs Hnotin Hnd IH]; csimpl; [done|].
  rewrite IH. destruct (decide (c = c')) as [->|Hne].
  - rewrite decide_False by done.
    rewrite decide_True; [done|by left].
  - destruct (decide (c ∈ cs)) as [Hin|Hin].
    + rewrite decide_True; [done|by right].
    + rewrite decide_False; [done|]. rewrite elem_of_cons. by intros [?|?].
Qed.

Lemma sum_list_filter_lengths (cs : list string) (l : list item) :
  NoDup cs →
  sum_list ((λ c, length (filter (λ it, get_category it = c) l)) <$> cs)
  = length (filter (λ it, get_category it ∈ cs) l).
Proof.
  intros Hnd. induction l as [|it l IH].
  - rewrite filter_nil. clear Hnd.
    induction cs as [|c cs IHcs]; simpl in *; [done|exact IHcs].
  - rewrite (filter_cons (λ it, get_category it ∈ cs)).
    assert (sum_list ((λ c, length (filter (λ it, get_category it = c)
                                      (it :: l))) <$> cs)
            = (if decide (get_category it ∈ cs) then 1 else 0)
              + sum_list ((λ c, length (filter (λ it, get_category it = c) l))
                            <$> cs)) as ->.
    { rewrite <-(sum_list_indicator (get_category it) cs Hnd).
      clear. induction cs as [|c cs IHcs]; csimpl; [done|].
      rewrite IHcs, filter_cons.
      destruct (decide (get_category it = c)) as [Hc|Hc]; simpl; lia. }
    rewrite IH. by case_decide.
Qed.

(** X3.  [extract_structured_content] neither loses nor duplicates an
    element of a known category: the sizes of the eleven lists add up to
    the number of elements whose category is one of the eleven.  The other
    elements, those with another or no category, are in no list. *)
Theorem extract_structured_content_counts (layout_data : list item) :
  sum_list ((λ c, length (default []
                            (extract_structured_content layout_data !! c)))
              <$> categories)
  = length (filter (λ it, get_category it ∈ categories) layout_data) ∧
  (∀ it, it ∈ layout_data → get_category it ∉ categories →
     ∀ c items, extract_structured_content layout_data !! c = Some items →
                it ∉ items).
Proof.
  split.
  - rewrite <-(sum_list_filter_lengths _ _ categories_NoDup).
    f_equal. apply Forall_fmap_ext, list.Forall_forall. intros c Hc.
    rewrite extract_structured_content_lookup. by rewrite decide_True.
  - intros it Hit Hnot c items Hc Hin.
    rewrite extract_structured_content_lookup in Hc.
    case_decide as Hk; [|done]. injection Hc as <-.
    apply list_elem_of_filter in Hin as [<- _]. done.
Qed.
End helper_properties.

(** ** Reading order: the complete comparison *)

Section reading_order_complete.
Import AdvancedParser.

(** X4.  For a list of distinct dicts, [analyze_reading_order] gives [a] a
    smaller [reading_order] than [b] exactly when the sort key of [a] is
    smaller, or the keys are equal and [a] comes before [b] in the list
    that was passed in. *)
Theorem analyze_reading_order_compares (h : heap) (layout_data : list loc)
    (a b : loc) :
  NoDup layout_data → a ∈ layout_data → b ∈ layout_data → a ≠ b →
  ∃ oa ob,
    reading_order ((analyze_reading_order h layout_data).1 a) = Some oa ∧
    reading_order ((analyze_reading_order h layout_data).1 b) = Some ob ∧
    ((oa < ob)%Z ↔
     key_lt (sort_key (h a)) (sort_key (h b)) ∨
     (sort_key (h a) = sort_key (h b) ∧ before a b layout_data)).
Proof.
  intros Hnd Ha Hb Hne.
  set (key := λ l, sort_key (h l)).
  set (s := sorted key layout_data).
  assert (s ≡ₚ layout_data) as Hperm by apply sorted_perm.
  assert (NoDup s) as Hnds by by rewrite Hperm.
  assert (StronglySorted (le_by key) s) as Hsorted by apply sorted_sorted.
  assert (a ∈ s) as Has by by rewrite Hperm.
  assert (b ∈ s) as Hbs by by rewrite Hperm.
  apply list_elem_of_lookup in Has as [pa Hpa].
  apply list_elem_of_lookup in Hbs as [pb Hpb].
  exists (Z.of_nat (0 + pa) + 1)%Z, (Z.of_nat (0 + pb) + 1)%Z.
  unfold analyze_reading_order. simpl. fold key. fold s.
  rewrite !assign_reading_order_spec.
  rewrite (last_pos_NoDup a s pa Hnds Hpa), (last_pos_NoDup b s pb Hnds Hpb).
  split_and!; [done..|].
  assert (pa < pb ↔ before a b s) as Hpos.
  { split.
    - intros Hlt. by exists pa, pb.
    - intros (i & j & Hij & Hi & Hj).
      rewrite (NoDup_lookup _ _ _ _ Hnds Hpa Hi).
      by rewrite (NoDup_lookup _ _ _ _ Hnds Hpb Hj). }
  assert (∀ k, filter (λ l, key l = k) s = filter (λ l, key l = k) layout_data)
    as Hstable by (intros k; apply (sorted_stable key)).
  transitivity (pa < pb); [lia|]. rewrite Hpos. split.
  - intros Hbef.
    destruct (decide (key_lt (key a) (key b))) as [Hlt|Hnlt]; [by left|].
    right.
    assert (key a = key b) as Hk.
    { apply key_le_antisym.
      - apply key_not_lt_le. intros Hba.
        pose proof (sorted_lookup_lt key s pb pa b a Hsorted Hpb Hpa Hba).
        apply Hpos in Hbef. lia.
      - by apply key_not_lt_le. }
    split; [done|].
    apply (before_filter_inv (λ l, key l = key a)); [done..|].
    rewrite <-Hstable. by apply before_filter.
  - intros [Hlt|[Hk Hbef]].
    + apply Hpos. by eapply (sorted_lookup_lt key s).
    + apply (before_filter_inv (λ l, key l = key a)); [done..|].
      rewrite Hstable. by apply before_filter.
Qed.

Lemma analyze_reading_order_compares_witness :
  ∃ oa ob,
    reading_order ((analyze_reading_order sample_store [0; 1; 3]).1 0)
    = Some oa ∧
    reading_order ((analyze_reading_order sample_store [0; 1; 3]).1 3)
    = Some ob ∧ (oa < ob)%Z.
Proof.
  destruct (analyze_reading_order_compares sample_store [0; 1; 3] 0 3)
    as (oa & ob & Ha & Hb & Hiff).
  - repeat constructor; simpl; rewrite ?elem_of_cons, ?elem_of_nil; lia.
  - apply list_elem_of_here.
  - apply list_elem_of_further, list_elem_of_further, list_elem_of_here.
  - lia.
  - exists oa, ob. split; [exact Ha|]. split; [exact Hb|].
    apply Hiff. right. split; [reflexivity|].
    exists 0, 2. split; [lia|]. split; reflexivity.
Defined.
End reading_order_complete.

(** ** Formulas and HTML tables as strings *)

Section string_properties.
Import AdvancedParserHelpers PyStr.

Lemma string_app_assoc (s1 s2 s3 : string) :
  (s1 +:+ s2) +:+ s3 = s1 +:+ s2 +:+ s3.
Proof.
  induction s1 as [|c s1 IH]; [done|].
  change (String c ((s1 +:+ s2) +:+ s3) = String c (s1 +:+ s2 +:+ s3)).
  by rewrite IH.
Qed.

Lemma list_of_string_app (s1 s2 : string) :
  String.list_ascii_of_string (s1 +:+ s2)
  = String.list_ascii_of_string s1 ++ String.list_ascii_of_string s2.
Proof. induction s1 as [|c s1 IH]; simpl; [done|]. by rewrite <-IH. Qed.

Lemma string_of_list_app (l1 l2 : list Ascii.ascii) :
  String.string_of_list_ascii (l1 ++ l2)
  = String.string_of_list_ascii l1 +:+ String.string_of_list_ascii l2.
Proof. induction l1 as [|c l1 IH]; simpl; [done|]. by rewrite IH. Qed.

Lemma list_of_string_of_list (l : list Ascii.ascii) :
  String.list_ascii_of_string (String.string_of_list_ascii l) = l.
Proof. induction l as [|c l IH]; simpl; [done|]. by rewrite IH. Qed.

Lemma string_of_list_of_string (s : string) :
  String.string_of_list_ascii (String.list_ascii_of_string s) = s.
Proof. induction s as [|c s IH]; simpl; [done|]. by rewrite IH. Qed.

(** Stripping on the left stops at the first character that is not white
    space. *)
Lemma lstrip_list_app_nonspace (a b : list Ascii.ascii) (c : Ascii.ascii) :
  isspace c = false →
  ∃ x, lstrip_list (a ++ c :: b) = x ++ c :: b.
Proof.
  intros Hc. induction a as [|d a IH]; simpl.
  - rewrite Hc. by exists [].
  - destruct (isspace d); [done|]. by exists (d :: a).
Qed.

(** Stripping keeps everything between the first and the last character
    that are not white space. *)
Lemma strip_list_keeps (p r : list Ascii.ascii) (c d : Ascii.ascii) :
  isspace c = false → isspace d = false →
  ∃ x, strip_list (c :: p ++ d :: r) = c :: p ++ d :: x.
Proof.
  intros Hc Hd. unfold strip_list. simpl. rewrite Hc.
  rewrite reverse_cons, reverse_app, reverse_cons, <-!app_assoc. simpl.
  destruct (lstrip_list_app_nonspace (reverse r) (reverse p ++ [c]) d Hd)
    as [x Hx].
  rewrite Hx. exists (reverse x).
  rewrite reverse_app, reverse_cons, reverse_app. simpl.
  rewrite reverse_involutive, <-!app_assoc. done.
Qed.

Lemma startswith_app (p s : string) : startswith (p +:+ s) p = true.
Proof.
  unfold startswith. apply bool_decide_eq_true.
  rewrite list_of_string_app. by apply prefix_app_r.
Qed.

Lemma endswith_app (p s : string) : endswith (s +:+ p) p = true.
Proof.
  unfold endswith. apply bool_decide_eq_true.
  rewrite list_of_string_app. by apply suffix_app_r.
Qed.

Lemma slice_inner_one (c d : Ascii.ascii) (s : string) :
  slice_inner 1 (String c (s +:+ String d EmptyString)) = s.
Proof.
  unfold slice_inner. simpl. rewrite list_of_string_app. simpl.
  rewrite length_app. simpl.
  replace (length (String.list_ascii_of_string s) + 1 - 0)
    with (S (length (String.list_ascii_of_string s))) by lia.
  simpl. rewrite take_app_length.
  apply string_of_list_of_string.
Qed.

Lemma extract_formulas_latex_omap formulas :
  extract_formulas_latex formulas
  = omap (λ f, clean_formula (default EmptyString (text f))) formulas.
Proof.
  unfold extract_formulas_latex.
  set (step := λ (acc : list string) (formula : item), _).
  assert (∀ acc, foldl step acc formulas
                 = acc ++ omap (λ f, clean_formula
                                       (default EmptyString (text f)))
                            formulas) as Hgen.
  { induction formulas as [|f l IH]; intros acc; csimpl.
    - by rewrite app_nil_r.
    - rewrite IH. subst step. cbv beta.
      destruct (clean_formula _); simpl; [|done].
      by rewrite <-app_assoc. }
  apply (Hgen []).
Qed.

(** X5.  [extract_formulas_latex] removes only one dollar sign on each side:
    a formula whose stripped text is [$$m$$] is returned as [$m$], so the
    branch for double dollars never takes effect.  Formulas whose text is
    empty or white space yield no entry, and no other formula is skipped. *)
Theorem extract_formulas_latex_double_dollar (formulas : list item)
    (f : item) (m : string) :
  f ∈ formulas →
  strip (default EmptyString (text f)) = "$$" +:+ m +:+ "$$" →
  "$" +:+ m +:+ "$" ∈ extract_formulas_latex formulas ∧
  length (extract_formulas_latex formulas)
  = length (filter (λ f, strip (default EmptyString (text f)) ≠ EmptyString)
              formulas).
Proof.
  intros Hf Hstrip. rewrite extract_formulas_latex_omap. split.
  - apply list_elem_of_omap. exists f. split; [done|].
    unfold clean_formula. rewrite Hstrip.
    rewrite decide_False by done.
    assert ("$$" +:+ m +:+ "$$" = ("$$" +:+ m +:+ "$") +:+ "$") as Hend
      by by rewrite !string_app_assoc.
    assert ("$$" +:+ m +:+ "$$"
            = String (Ascii.ascii_of_nat 36)
                (("$" +:+ m +:+ "$")
                 +:+ String (Ascii.ascii_of_nat 36) EmptyString))
      as Hmid by by rewrite !string_app_assoc.
    assert (startswith ("$$" +:+ m +:+ "$$") "$" = true) as ->
      by apply (startswith_app "$" ("$" +:+ m +:+ "$$")).
    assert (endswith ("$$" +:+ m +:+ "$$") "$" = true) as ->
      by (rewrite Hend; apply endswith_app).
    simpl andb. cbv iota. f_equal.
    rewrite Hmid. apply slice_inner_one.
  - clear. induction formulas as [|f l IH]; csimpl; [done|].
    rewrite filter_cons. unfold clean_formula at 1.
    destruct (decide (strip (default EmptyString (text f)) = EmptyString))
      as [He|He].
    + rewrite decide_False by (by intros ?). exact IH.
    + rewrite decide_True by done. simpl. by rewrite IH.
Qed.

Lemma extract_formulas_latex_double_dollar_witness :
  "$" +:+ "x+y" +:+ "$"
  ∈ extract_formulas_latex [sample_formula "  "; sample_formula " $$x+y$$ "].
Proof.
  apply (extract_formulas_latex_double_dollar
           [sample_formula "  "; sample_formula " $$x+y$$ "]
           (sample_formula " $$x+y$$ ") "x+y").
  - apply list_elem_of_further, list_elem_of_here.
  - reflexivity.
Defined.

Lemma lstrip_list_spaces (w l : list Ascii.ascii) :
  Forall (λ c, isspace c = true) w → lstrip_list (w ++ l) = lstrip_list l.
Proof. induction 1 as [|c w Hc _ IH]; simpl; [done|]. by rewrite Hc. Qed.

Lemma html_table_chars (i : nat) (text : string) :
  ∃ middle,
    String.list_ascii_of_string (html_table i text)
    = String.list_ascii_of_string (nl +:+ indent)
      ++ String.list_ascii_of_string "<table" ++ middle
      ++ String.list_ascii_of_string ">"
      ++ String.list_ascii_of_string (nl +:+ indent).
Proof.
  exists (String.list_ascii_of_string (">" +:+ nl +:+ indent
                                        +:+ "<caption>Table ")
          ++ String.list_ascii_of_string (pretty (i + 1))
          ++ String.list_ascii_of_string ("</caption>" +:+ nl +:+ indent
                                          +:+ "<tbody>" +:+ nl +:+ indent)
          ++ String.list_ascii_of_string text
          ++ String.list_ascii_of_string (nl +:+ indent +:+ "</tbody>"
                                          +:+ nl +:+ indent +:+ "</table")).
  unfold html_table. rewrite !list_of_string_app, <-!app_assoc.
  reflexivity.
Qed.

Lemma strip_html_table (i : nat) (text : string) :
  startswith (strip (html_table i text)) "<table" = true.
Proof.
  destruct (html_table_chars i text) as [middle Hchars].
  unfold strip, startswith. rewrite Hchars, list_of_string_of_list.
  apply bool_decide_eq_true.
  unfold strip_list at 1. rewrite lstrip_list_spaces.
  2:{ apply list.Forall_forall. intros c Hc.
      assert (c ∈ [Ascii.ascii_of_nat 10; Ascii.ascii_of_nat 32]) as Hc'.
      { revert Hc. unfold nl, indent. simpl.
        rewrite !elem_of_cons, elem_of_nil. tauto. }
      apply elem_of_cons in Hc' as [->|Hc']; [done|].
      apply list_elem_of_singleton in Hc' as ->. done. }
  fold (strip_list (String.list_ascii_of_string "<table" ++ middle
                    ++ String.list_ascii_of_string ">"
                    ++ String.list_ascii_of_string (nl +:+ indent))).
  destruct (strip_list_keeps
              (String.list_ascii_of_string "table" ++ middle)
              (String.list_ascii_of_string (nl +:+ indent))
              (Ascii.ascii_of_nat 60) (Ascii.ascii_of_nat 62))
    as [x Hx]; [done..|].
  change (String.list_ascii_of_string "<table" ++ middle
          ++ String.list_ascii_of_string ">"
          ++ String.list_ascii_of_string (nl +:+ indent))
    with (Ascii.ascii_of_nat 60
          :: (String.list_ascii_of_string "table" ++ middle
              ++ Ascii.ascii_of_nat 62
                 :: String.list_ascii_of_string (nl +:+ indent))).
  rewrite <-app_assoc in Hx. rewrite Hx.
  exists (middle ++ Ascii.ascii_of_nat 62 :: x).
  by rewrite <-app_assoc.
Qed.

Lemma convert_tables_to_html_imap tables :
  convert_tables_to_html tables = imap convert_table tables.
Proof.
  unfold convert_tables_to_html.
  match goal with |- (foldl ?f _ _).1 = _ => set (step := f) end.
  assert (∀ acc n, foldl step (acc, n) tables
                   = (acc ++ imap (λ k, convert_table (n + k)) tables,
                      n + length tables)) as Hgen.
  { induction tables as [|t l IH]; intros acc n; csimpl.
    - by rewrite app_nil_r, Nat.add_0_r.
    - rewrite IH. rewrite Nat.add_0_r, <-app_assoc. simpl. f_equal.
      + f_equal. f_equal. apply imap_ext. intros k ? _. simpl.
        f_equal. lia.
      + lia. }
  by rewrite (Hgen [] 0).
Qed.

(** X6.  [convert_tables_to_html] returns one string per table, in order;
    a table whose stripped text starts with [<table] is returned as it is,
    any other text is wrapped in a table captioned with its position in the
    input plus one.  Either way every returned string starts with [<table]
    once stripped. *)
Theorem convert_tables_to_html_all_tables (tables : list item) :
  length (convert_tables_to_html tables) = length tables ∧
  (∀ i table, tables !! i = Some table →
     convert_tables_to_html tables !! i
     = Some (let text := default EmptyString (text table) in
             if startswith (strip text) "<table" then text
             else html_table i text)) ∧
  (∀ html, html ∈ convert_tables_to_html tables →
     startswith (strip html) "<table" = true).
Proof.
  rewrite convert_tables_to_html_imap. split_and!.
  - apply length_imap.
  - intros i table Hi. by rewrite list_lookup_imap, Hi.
  - intros html Hin. apply list_elem_of_lookup in Hin as [i Hi].
    rewrite list_lookup_imap in Hi.
    destruct (tables !! i) as [table|]; simpl in Hi; [|done].
    injection Hi as <-. unfold convert_table.
    destruct (startswith (strip (default EmptyString (text table))) "<table")
      eqn:Hs; [done|apply strip_html_table].
Qed.

Example convert_tables_to_html_sample :
  convert_tables_to_html
    [sample_formula " <table><tr><td>1</td></tr></table>"; sample_formula "1"]
  = [" <table><tr><td>1</td></tr></table>"; html_table 1 "1"].
Proof. reflexivity. Qed.
End string_properties.

(** ** Dicts of counts *)

Section counting.
Variable key : item → string.

Lemma foldl_count_key_lookup (l : list item) (m : gmap string nat) c :
  foldl (count_key key) m l !! c
  = let n := length (filter (λ it, key it = c) l) in
    if decide (n = 0) then m !! c else Some (default 0 (m !! c) + n).
Proof.
  revert m. induction l as [|x l IH]; intros m; [done|].
  cbn [foldl]. rewrite IH, filter_cons. cbv zeta.
  destruct (decide (key x = c)) as [<-|Hne].
  - assert (count_key key m x !! key x
            = Some (default 0 (m !! key x) + 1)) as ->
      by apply lookup_insert_eq.
    cbn [length default]. unfold Datatypes.id.
    repeat case_decide; try lia; f_equal; lia.
  - assert (count_key key m x !! c = m !! c) as ->
      by by apply lookup_insert_ne.
    done.
Qed.

Lemma map_sum_count_key (m : gmap string nat) it :
  map_sum (count_key key m it) = S (map_sum m).
Proof.
  unfold count_key, map_sum.
  assert (∀ (m' : gmap string nat) (j1 j2 : string) (z1 z2 y : nat),
            j1 ≠ j2 → m' !! j1 = Some z1 → m' !! j2 = Some z2 →
            z1 + (z2 + y) = z2 + (z1 + y)) as Hcomm by (intros; lia).
  destruct (m !! key it) as [n|] eqn:Hk; cbn [default].
  - rewrite <-insert_delete_eq.
    rewrite map_fold_insert_L; [|by eauto|by rewrite lookup_delete_eq].
    rewrite (map_fold_delete_L _ _ (key it) n m); [|by eauto|done].
    unfold Datatypes.id. lia.
  - rewrite map_fold_insert_L; [|by eauto|done].
    unfold Datatypes.id. lia.
Qed.

Lemma map_sum_foldl_count_key (l : list item) (m : gmap string nat) :
  map_sum (foldl (count_key key) m l) = map_sum m + length l.
Proof.
  revert m. induction l as [|x l IH]; intros m; cbn [foldl length]; [lia|].
  rewrite IH, map_sum_count_key. lia.
Qed.
End counting.

(** ** Merging the pages of a PDF: statistics and text *)

Section merge_statistics.
Import PDFProcessor.
Variable json_loads : string → option json_data.
Variable fs : filesystem.

Lemma foldl_read_page_text texts results :
  foldl (read_page_text fs) texts results
  = texts ++ omap (page_text fs) results.
Proof.
  revert texts. induction results as [|r results IH]; intros texts;
    cbn [foldl]; [by rewrite app_nil_r|].
  rewrite IH. unfold read_page_text, page_text. cbn [omap list_omap].
  destruct (md_content_path r) as [path|]; cbn [mbind option_bind]; [|done].
  destruct (fs path); cbn [mbind option_bind]; [|done].
  by rewrite <-app_assoc.
Qed.

(** X7.  The [category_statistics] of [merge_pdf_results] hold, for every
    category, the number of merged elements counted under it (an element
    without a category counts as [Unknown]), and no entry for a category
    that does not occur; the counts add up to [total_layout_elements]. *)
Theorem merge_pdf_results_category_statistics (results : list result)
    (m : merged) :
  merge_pdf_results json_loads fs results = Some m →
  (∀ c, category_statistics (info m) !! c
        = count_entry
            (length (filter (λ it, counted_category it = c)
                       (all_layout_data m)))) ∧
  map_sum (category_statistics (info m)) = total_layout_elements (info m).
Proof.
  destruct results as [|r results]; [done|].
  rewrite merge_pdf_results_closed_form. intros [= <-].
  cbn [info all_layout_data category_statistics total_layout_elements].
  change (foldl count_category ∅ ?l)
    with (foldl (count_key counted_category) ∅ l).
  split.
  - intros c. rewrite foldl_count_key_lookup. cbv zeta. unfold count_entry.
    rewrite lookup_empty. cbn [default]. by case_decide.
  - rewrite map_sum_foldl_count_key. unfold map_sum.
    by rewrite map_fold_empty.
Qed.

Lemma text_entries_le rs :
  length (omap (page_text fs) rs)
  ≤ length (filter (λ e, has_text e = true) (make_page_info <$> rs)).
Proof.
  induction rs as [|r rs IH]; [done|].
  rewrite fmap_cons, filter_cons.
  change (omap (page_text fs) (r :: rs))
    with (match page_text fs r with
          | Some y => y :: omap (page_text fs) rs
          | None => omap (page_text fs) rs
          end).
  destruct (decide (has_text (make_page_info r) = true)) as [Ht|Ht].
  - destruct (page_text fs r); cbn [length]; lia.
  - assert (page_text fs r = None) as ->; [|done].
    unfold page_text. destruct (md_content_path r) as [path|] eqn:Hmd;
      [|done].
    exfalso. apply Ht. unfold make_page_info. cbn [has_text].
    apply bool_decide_eq_true. rewrite Hmd. eauto.
Qed.

(** X8.  The merged text of [merge_pdf_results] has one entry for every
    page whose markdown file can be read, in page order, labelled with
    [page_no + 1]; a page whose file cannot be read is left out although
    its [has_text] flag is set, so there are at most as many text entries
    as flagged pages. *)
Theorem merge_pdf_results_text_content (results : list result)
    (m : merged) :
  merge_pdf_results json_loads fs results = Some m →
  all_text_content m = omap (page_text fs) results ∧
  length (all_text_content m)
  ≤ length (filter (λ e, has_text e = true) (pages_info (info m))) ∧
  (∀ i r, results !! i = Some r → is_Some (md_content_path r) →
     page_text fs r = None →
     ∃ e, pages_info (info m) !! i = Some e ∧ has_text e = true ∧
          ∀ t, (pi_page_number e, t) ∉ all_text_content m ∨
               ∃ r', r' ∈ results ∧ r' ≠ r ∧
                     page_text fs r' = Some (pi_page_number e, t)).
Proof.
  destruct results as [|r0 results]; [done|].
  rewrite merge_pdf_results_closed_form.
  rewrite (foldl_read_page_text [] (r0 :: results)).
  generalize (r0 :: results). clear r0 results. intros rs Hm.
  assert (all_text_content m = omap (page_text fs) rs) as ->
    by (by injection Hm as <-).
  assert (pages_info (info m) = make_page_info <$> rs) as ->
    by (by injection Hm as <-).
  clear Hm. split_and!.
  - done.
  - apply text_entries_le.
  - intros i r Hi Hmd Hnone. exists (make_page_info r). split_and!.
    + by rewrite list_lookup_fmap, Hi.
    + by apply bool_decide_eq_true.
    + intros t.
      destruct (decide ((pi_page_number (make_page_info r), t)
                        ∈ omap (page_text fs) rs)) as [Hin|Hout];
        [right|by left].
      apply list_elem_of_omap in Hin as (r' & Hr' & Ht).
      exists r'. split_and!; [done| |done].
      intros ->. by rewrite Hnone in Ht.
Qed.

End merge_statistics.

Lemma merge_pdf_results_category_statistics_witness :
  ∃ m, PDFProcessor.merge_pdf_results sample_json_loads sample_fs sample_results = Some m ∧
       PDFProcessor.category_statistics (PDFProcessor.info m) !! "Title" = Some 1 ∧
       PDFProcessor.category_statistics (PDFProcessor.info m) !! "Table" = None.
Proof.
  eexists. split; [reflexivity|].
  destruct (merge_pdf_results_category_statistics sample_json_loads
              sample_fs sample_results _ eq_refl) as [Hcount _].
  split; [apply (Hcount "Title")|apply (Hcount "Table")].
Defined.

Lemma merge_pdf_results_text_content_witness :
  ∃ m, PDFProcessor.merge_pdf_results sample_json_loads sample_md_fs sample_md_results
       = Some m ∧
       PDFProcessor.all_text_content m = [(1%Z, "# Report")] ∧
       PDFProcessor.has_text <$> PDFProcessor.pages_info (PDFProcessor.info m) = [true; true].
Proof.
  eexists. split; [reflexivity|].
  destruct (merge_pdf_results_text_content sample_json_loads
              sample_md_fs sample_md_results _ eq_refl) as [Htexts _].
  split; [apply Htexts|reflexivity].
Defined.

(** ** Page ranges *)

Section page_ranges.
Import PDFProcessorBatch.
Variable image : Type.
Variable load_images_from_pdf : string → option (list image).
Variable parse_single_image : image → Z → option result.

Lemma parse_selected_Some pdf_path start_page selected i results out :
  parse_selected image parse_single_image pdf_path start_page i selected
    results = Some out →
  ∃ rs, out = results ++ ((λ r, (r, pdf_path)) <$> rs) ∧
        length rs = length selected ∧
        ∀ k r, rs !! k = Some r →
          ∃ img, selected !! k = Some img ∧
                 parse_single_image img (start_page + Z.of_nat (i + k))%Z
                 = Some r.
Proof.
  revert i results.
  induction selected as [|img selected IH]; intros i results; cbn [parse_selected].
  - intros [= <-]. exists []. by rewrite app_nil_r.
  - destruct (parse_single_image img (start_page + Z.of_nat i)%Z)
      as [r|] eqn:Hr; cbn [mbind option_bind]; [|done].
    intros (rs & -> & Hlen & Hrs)%IH.
    exists (r :: rs). split_and!.
    + by rewrite <-app_assoc.
    + cbn [length]. by rewrite Hlen.
    + intros [|k] r' Hk; cbn [lookup list_lookup] in Hk |- *.
      * injection Hk as <-. exists img. by rewrite Nat.add_0_r.
      * destruct (Hrs k r' Hk) as (img' & Himg & Hp).
        exists img'. split; [done|].
        by replace (i + S k) with (S i + k) by lia.
Qed.

Lemma parse_selected_None pdf_path start_page selected i results k img :
  selected !! k = Some img →
  parse_single_image img (start_page + Z.of_nat (i + k))%Z = None →
  parse_selected image parse_single_image pdf_path start_page i selected
    results = None.
Proof.
  revert i results k.
  induction selected as [|img0 selected IH]; intros i results k Hk Hnone;
    [done|].
  cbn [parse_selected]. destruct k as [|k]; cbn [lookup list_lookup] in Hk.
  - injection Hk as ->. rewrite Nat.add_0_r in Hnone. by rewrite Hnone.
  - destruct (parse_single_image img0 _); cbn [mbind option_bind]; [|done].
    apply (IH _ _ k); [done|].
    by replace (S i + k) with (i + S k) by lia.
Qed.

Lemma parse_selected_is_Some pdf_path start_page selected i results :
  (∀ k img, selected !! k = Some img →
     is_Some (parse_single_image img (start_page + Z.of_nat (i + k))%Z)) →
  is_Some (parse_selected image parse_single_image pdf_path start_page i
             selected results).
Proof.
  revert i results.
  induction selected as [|img selected IH]; intros i results Hall;
    cbn [parse_selected]; [by eexists|].
  destruct (Hall 0 img eq_refl) as [r Hr]. rewrite Nat.add_0_r in Hr.
  rewrite Hr. cbn [mbind option_bind]. apply IH.
  intros k img' Hk. replace (S i + k) with (i + S k) by lia.
  by apply Hall.
Qed.

Lemma py_slice_lookup (images : list image) (start_page end_page : Z) i img :
  (0 ≤ start_page)%Z →
  py_slice images start_page end_page !! i = Some img →
  images !! (Z.to_nat start_page + i) = Some img ∧
  (Z.of_nat (Z.to_nat start_page + i) < end_page ∨ end_page < 0)%Z.
Proof.
  unfold py_slice, slice_index. intros Hstart Hi. cbv zeta in Hi.
  rewrite (decide_False (P := (start_page < 0)%Z)) in Hi by lia.
  apply lookup_take_Some in Hi as [Hi Hlt].
  rewrite lookup_drop in Hi.
  pose proof (lookup_lt_Some _ _ _ Hi) as Hlen.
  assert (Z.to_nat (start_page `min` Z.of_nat (length images))
          = Z.to_nat start_page) as Hmin by lia.
  rewrite Hmin in Hi. split; [done|].
  destruct (decide (end_page < 0)%Z); [by right|left].
  lia.
Qed.

(** X9.  Once the PDF is loaded, [parse_pdf_pages_range] is all or
    nothing: it returns one result per image of the slice
    [all_images[start_page:end_page]], in order, each the parse of that
    image called with [page_idx = start_page + i] and paired with the path
    of the PDF, when every page parses, and the empty list as soon as one
    page raises.  For a start page that is not negative the image at
    position [i] of the slice is page [start_page + i] of the PDF. *)
Theorem parse_pdf_pages_range_all_or_nothing (pdf_path : string)
    (start_page end_page : Z) (all_images : list image) :
  load_images_from_pdf pdf_path = Some all_images →
  let selected_images := py_slice all_images start_page end_page in
  let out :=
    parse_pdf_pages_range image load_images_from_pdf parse_single_image
      pdf_path start_page end_page in
  (∀ i r path, out !! i = Some (r, path) →
     path = pdf_path ∧
     ∃ img, selected_images !! i = Some img ∧
            parse_single_image img (start_page + Z.of_nat i)%Z = Some r) ∧
  ((∀ i img, selected_images !! i = Some img →
      is_Some (parse_single_image img (start_page + Z.of_nat i)%Z)) →
   length out = length selected_images) ∧
  ((∃ i img, selected_images !! i = Some img ∧
      parse_single_image img (start_page + Z.of_nat i)%Z = None) →
   out = []) ∧
  ((0 ≤ start_page)%Z →
   ∀ i img, selected_images !! i = Some img →
     all_images !! (Z.to_nat start_page + i) = Some img).
Proof.
  intros Hload selected_images out. subst out.
  unfold parse_pdf_pages_range. rewrite Hload. cbn [mbind option_bind].
  fold selected_images.
  split_and!.
  - intros i r path Hi.
    destruct (parse_selected image parse_single_image pdf_path start_page 0
                selected_images []) as [out|] eqn:Hout;
      cbn [default Datatypes.id] in Hi; [|done].
    destruct (parse_selected_Some _ _ _ _ _ _ Hout)
      as (rs & -> & _ & Hrs).
    cbn [app] in Hi. rewrite list_lookup_fmap in Hi.
    destruct (rs !! i) as [r'|] eqn:Hr'; [|done].
    injection Hi as <- <-. split; [done|].
    by destruct (Hrs i r' Hr') as (img & Himg & Hp); exists img.
  - intros Hall.
    destruct (parse_selected_is_Some pdf_path start_page selected_images 0 []
                Hall) as [out Hout].
    rewrite Hout. cbn [default Datatypes.id].
    destruct (parse_selected_Some _ _ _ _ _ _ Hout) as (rs & -> & Hlen & _).
    cbn [app]. by rewrite length_fmap.
  - intros (i & img & Hi & Hnone).
    by rewrite (parse_selected_None pdf_path start_page selected_images 0 []
                  i img Hi Hnone).
  - intros Hstart i img Hi.
    by destruct (py_slice_lookup all_images start_page end_page i img
                   Hstart Hi).
Qed.
End page_ranges.

Lemma parse_pdf_pages_range_all_or_nothing_witness :
  PDFProcessorBatch.parse_pdf_pages_range Z sample_load
    sample_parse_single_image "report.pdf" 1 3 !! 0
  = Some (sample_result 1 "page.json" false, "report.pdf") ∧
  [0; 1; 2]%Z !! (Z.to_nat 1 + 0) = Some 1%Z.
Proof.
  destruct (parse_pdf_pages_range_all_or_nothing Z sample_load
              sample_parse_single_image "report.pdf" 1 3 [0; 1; 2]%Z eq_refl)
    as (_ & _ & _ & Hpage).
  split; [reflexivity|].
  apply Hpage; [lia|reflexivity].
Defined.

(** ** One PDF and a batch of PDFs *)

Section batch_properties.
Import PDFProcessorBatch.
Variable image : Type.
Variable image_size : image → Z * Z.
Variable load_images_from_pdf : string → option (list image).
Variable getsize : string → option Z.
Variable pdf_exists : string → bool.
Variable parse_file : string → option (list result).
Variable time : Type.
Variable time_add : time → time → time.
Variable time_is_zero : time → bool.
Variable json_loads : string → option json_data.
Variable fs : filesystem.
Variable merged_files_writable : list result → bool.

Local Abbreviation pdf_info_of :=
  (get_pdf_info image image_size load_images_from_pdf getsize).
Local Abbreviation basic :=
  (parse_pdf_basic image image_size load_images_from_pdf getsize parse_file
     time time_add time_is_zero).
Local Abbreviation process :=
  (process_pdf image image_size load_images_from_pdf getsize pdf_exists
     parse_file time time_add time_is_zero json_loads fs
     merged_files_writable).
Local Abbreviation batch :=
  (batch_process_pdfs image image_size load_images_from_pdf getsize
     pdf_exists parse_file time time_add time_is_zero json_loads fs
     merged_files_writable).

Lemma get_pdf_info_error pdf_path :
  pdf_info_of pdf_path = InfoError
  ↔ load_images_from_pdf pdf_path = None ∨ getsize pdf_path = None.
Proof.
  unfold get_pdf_info.
  destruct (load_images_from_pdf pdf_path) as [images|];
    [|by split; [left|]].
  destruct (getsize pdf_path); [|by split; [right|]].
  split; [done|]. by intros [|].
Qed.

Lemma get_pdf_info_page_count pdf_path details images :
  pdf_info_of pdf_path = Info details →
  load_images_from_pdf pdf_path = Some images →
  page_count details = length images.
Proof.
  unfold get_pdf_info. intros Hinfo Hload. rewrite Hload in Hinfo.
  destruct (getsize pdf_path); [|done]. by injection Hinfo as <-.
Qed.

(** X10.  [parse_pdf_basic] raises exactly when the PDF cannot be loaded
    or its size cannot be read: the information line reads [file_size]
    before the [error] key is looked at, so the announced empty result is
    never returned for such a file.  Otherwise it returns a list and
    counts the file: once as failed, with all its pages, when the parser
    raises; once as parsed, with the pages returned, when the parse took
    measurable time; and twice, both as parsed and as failed, with the
    empty list returned, when the measured duration is zero and the speed
    line divides by it. *)
Theorem parse_pdf_basic_accounting (st : processing_stats time)
    (pdf_path : string) (elapsed elapsed_except : time) :
  let out := basic st pdf_path elapsed elapsed_except in
  (out = None
   ↔ load_images_from_pdf pdf_path = None ∨ getsize pdf_path = None) ∧
  (∀ images st' results,
     load_images_from_pdf pdf_path = Some images →
     out = Some (st', results) →
     let n := Z.of_nat (length images) in
     match parse_file pdf_path with
     | None =>
         results = [] ∧
         total_files st' = (total_files st + 1)%Z ∧
         total_pages st' = (total_pages st + n)%Z ∧
         successful_pages st' = successful_pages st ∧
         failed_pages st' = (failed_pages st + n)%Z
     | Some parsed =>
         if time_is_zero elapsed then
           results = [] ∧
           total_files st' = (total_files st + 2)%Z ∧
           total_pages st' = (total_pages st + 2 * n)%Z ∧
           successful_pages st'
           = (successful_pages st + Z.of_nat (length parsed))%Z ∧
           failed_pages st' = (failed_pages st + n)%Z
         else
           results = parsed ∧
           total_files st' = (total_files st + 1)%Z ∧
           total_pages st' = (total_pages st + n)%Z ∧
           successful_pages st'
           = (successful_pages st + Z.of_nat (length parsed))%Z ∧
           failed_pages st' = failed_pages st
     end).
Proof.
  cbv zeta. unfold parse_pdf_basic. split.
  - rewrite <-get_pdf_info_error.
    destruct (pdf_info_of pdf_path) as [details|]; [|done].
    split; [|done].
    destruct (parse_file pdf_path); [destruct (time_is_zero elapsed)|];
      done.
  - intros images st' results Hload.
    destruct (pdf_info_of pdf_path) as [details|] eqn:Hinfo; [|done].
    rewrite <-(get_pdf_info_page_count _ _ _ Hinfo Hload).
    destruct (parse_file pdf_path) as [parsed|].
    + destruct (time_is_zero elapsed); intros [= <- <-];
        cbn [count_success count_failure total_files total_pages
             successful_pages failed_pages]; split_and!; try done; lia.
    + intros [= <- <-].
      cbn [count_failure total_files total_pages successful_pages
           failed_pages]; by split_and!.
Qed.

Lemma process_pdf_entries st batch_results pdf_path elapsed elapsed_except :
  ∃ entries,
    (process st batch_results pdf_path elapsed elapsed_except).2
    = batch_results ++ entries ∧
    Forall2 (λ '(p, (e, _)) b,
               br_file_path b = p ∧
               (br_status b = error
                ↔ load_images_from_pdf p = None ∨ getsize p = None
                  ∨ ∃ results, parse_file p = Some results ∧
                      results ≠ [] ∧ time_is_zero e = false ∧
                      merged_files_writable results = false))
            (filter (λ x, pdf_exists x.1 = true)
               [(pdf_path, (elapsed, elapsed_except))])
            entries ∧
    Forall (λ b,
              br_page_count b = length (br_page_results b) ∧
              br_merged_info b
              = PDFProcessor.info
                  <$> PDFProcessor.merge_pdf_results json_loads fs
                        (br_page_results b) ∧
              (br_status b = success ↔ br_page_results b ≠ []))
           entries.
Proof.
  unfold process_pdf. cbv zeta. rewrite filter_cons, filter_nil. cbn [fst].
  destruct (pdf_exists pdf_path) eqn:Hex.
  2:{ rewrite decide_False by done. exists []. by rewrite app_nil_r. }
  rewrite decide_True by done.
  pose proof (get_pdf_info_error pdf_path) as Herr.
  unfold parse_pdf_basic.
  destruct (pdf_info_of pdf_path) as [details|].
  2:{ eexists [_]. split_and!; [done| |by repeat constructor].
      constructor; [|done]. cbn [br_file_path br_status].
      split; [done|]. split; [intros _|done].
      destruct Herr as [Herr _]. destruct (Herr eq_refl); auto. }
  assert (load_images_from_pdf pdf_path ≠ None ∧ getsize pdf_path ≠ None)
    as [Hload Hsize].
  { split; intros Hn; by destruct Herr as [_ Herr]; discriminate Herr; auto. }
  destruct (parse_file pdf_path) as [parsed|] eqn:Hparse.
  - destruct (time_is_zero elapsed) eqn:Hzero.
    + eexists [_]. split_and!; [done| |by repeat constructor].
      constructor; [|done]. cbn [br_file_path br_status].
      split; [done|]. split; [done|].
      intros [?|[?|(rs & ? & ? & ? & ?)]]; congruence.
    + destruct parsed as [|r parsed].
      * eexists [_]. split_and!; [done| |by repeat constructor].
        constructor; [|done]. cbn [br_file_path br_status].
        split; [done|]. split; [done|].
        intros [?|[?|(rs & ? & ? & ? & ?)]]; congruence.
      * destruct (merged_files_writable (r :: parsed)) eqn:Hw.
        -- eexists [_]. split_and!; [done| |].
           ++ constructor; [|done]. cbn [br_file_path br_status].
              split; [done|]. split; [done|].
              intros [?|[?|(rs & ? & ? & ? & ?)]]; congruence.
           ++ constructor; [|done].
              cbn [br_page_count br_page_results br_merged_info br_status].
              by split_and!.
        -- eexists [_]. split_and!; [done| |by repeat constructor].
           constructor; [|done]. cbn [br_file_path br_status].
           split; [done|]. split; [intros _|done].
           right. right. by exists (r :: parsed).
  - eexists [_]. split_and!; [done| |by repeat constructor].
    constructor; [|done]. cbn [br_file_path br_status].
    split; [done|]. split; [done|].
    intros [?|[?|(rs & ? & ? & ? & ?)]]; congruence.
Qed.

(** X11.  When [batch_process_pdfs] returns, it has one entry for every
    path that exists, in the order given, and none for the others.  An
    entry has status [error] exactly when the PDF could not be loaded or
    sized, so that [parse_pdf_basic] raised, or when pages were returned
    and the files of [merge_pdf_results] could not be written.  Every
    entry's [page_count] is the length of its page results, its status is
    [success] exactly when there is a page result, and its merged
    information is that of its page results, present exactly for the
    successful ones. *)
Theorem batch_process_pdfs_entries (st st' : processing_stats time)
    (pdf_paths : list (string * (time * time)))
    (batch_results : list batch_result) :
  batch st pdf_paths = Some (st', batch_results) →
  br_file_path <$> batch_results
  = filter (λ p, pdf_exists p = true) pdf_paths.*1 ∧
  Forall2 (λ '(p, (e, _)) b,
             br_file_path b = p ∧
             (br_status b = error
              ↔ load_images_from_pdf p = None ∨ getsize p = None
                ∨ ∃ results, parse_file p = Some results ∧
                    results ≠ [] ∧ time_is_zero e = false ∧
                    merged_files_writable results = false))
          (filter (λ x, pdf_exists x.1 = true) pdf_paths)
          batch_results ∧
  Forall (λ b,
            br_page_count b = length (br_page_results b) ∧
            br_merged_info b
            = PDFProcessor.info
                <$> PDFProcessor.merge_pdf_results json_loads fs
                      (br_page_results b) ∧
            (br_status b = success ↔ br_page_results b ≠ []) ∧
            (br_status b = success ↔ is_Some (br_merged_info b)))
         batch_results.
Proof.
  unfold batch_process_pdfs.
  match goal with
  | |- context [foldl ?f _ _] => set (step := f)
  end.
  match goal with
  | |- _ → _ ∧ Forall2 ?E _ _ ∧ _ => set (environment := E)
  end.
  set (ok := λ b : batch_result,
         br_page_count b = length (br_page_results b) ∧
         br_merged_info b
         = PDFProcessor.info
             <$> PDFProcessor.merge_pdf_results json_loads fs
                   (br_page_results b) ∧
         (br_status b = success ↔ br_page_results b ≠ [])).
  assert (∀ st0 acc, ∃ entries,
            (foldl step (st0, acc) pdf_paths).2 = acc ++ entries ∧
            Forall2 environment
              (filter (λ x, pdf_exists x.1 = true) pdf_paths) entries ∧
            Forall ok entries) as Hgen.
  { induction pdf_paths as [|[pdf_path [elapsed elapsed_except]] paths IH];
      intros st0 acc.
    - exists []. cbn [foldl snd]. by rewrite app_nil_r, filter_nil.
    - cbn [foldl].
      change (step (st0, acc) (pdf_path, (elapsed, elapsed_except)))
        with (process st0 acc pdf_path elapsed elapsed_except).
      destruct (process_pdf_entries st0 acc pdf_path elapsed elapsed_except)
        as (entries & Hacc & Henv & Hok).
      destruct (process st0 acc pdf_path elapsed elapsed_except)
        as [st1 acc1]. cbn [snd] in Hacc. subst acc1.
      destruct (IH st1 (acc ++ entries)) as (rest & Hrest & Henv' & Hok').
      exists (entries ++ rest). split_and!.
      + by rewrite Hrest, <-app_assoc.
      + change ((pdf_path, (elapsed, elapsed_except)) :: paths)
          with ([(pdf_path, (elapsed, elapsed_except))] ++ paths).
        rewrite filter_app. apply Forall2_app; [exact Henv|exact Henv'].
      + by apply Forall_app. }
  destruct (Hgen st []) as (entries & Hentries & Henv & Hok).
  destruct (foldl step (st, []) pdf_paths) as [st1 out].
  destruct (_ && _); [done|]. intros [= <- <-].
  cbn [snd app] in Hentries. subst out. split_and!.
  - clear Hok. revert Henv. generalize entries. clear.
    induction pdf_paths as [|[p [e e']] paths IH]; intros entries Henv.
    + rewrite filter_nil in Henv. by apply Forall2_nil_inv_l in Henv as ->.
    + rewrite fmap_cons, !filter_cons in *. cbn [fst] in *.
      destruct (decide (pdf_exists p = true)).
      * apply Forall2_cons_inv_l in Henv as (b & rest & [Hb _] & Hrest & ->).
        rewrite fmap_cons, Hb. f_equal. by apply IH.
      * by apply IH.
  - done.
  - eapply list.Forall_impl; [exact Hok|].
    intros b (Hcount & Hmerged & Hsuccess).
    split_and!; [done..|].
    rewrite Hsuccess, Hmerged.
    destruct (br_page_results b) as [|r rs].
    + split; [done|]. by intros [? [=]].
    + rewrite merge_pdf_results_closed_form. split; [by eexists|done].
Qed.
End batch_properties.

Lemma batch_process_pdfs_entries_witness :
  ∃ st' batch_results,
    PDFProcessorBatch.batch_process_pdfs Z (λ _, (1000, 800)%Z)
      sample_batch_load sample_getsize sample_pdf_exists sample_parse_file
      Z Z.add (λ t, bool_decide (t = 0%Z)) sample_json_loads sample_fs
      sample_writable sample_stats sample_batch
    = Some (st', batch_results) ∧
    PDFProcessorBatch.br_file_path <$> batch_results
    = ["broken.pdf"; "empty.pdf"; "report.pdf"; "locked.pdf"] ∧
    PDFProcessorBatch.br_status <$> batch_results
    = [PDFProcessorBatch.error; PDFProcessorBatch.failed;
       PDFProcessorBatch.success; PDFProcessorBatch.error].
Proof.
  eexists _, _. split; [reflexivity|].
  split; [|reflexivity].
  refine (proj1 (batch_process_pdfs_entries Z (λ _, (1000, 800)%Z)
                   sample_batch_load sample_getsize sample_pdf_exists
                   sample_parse_file Z Z.add (λ t, bool_decide (t = 0%Z))
                   sample_json_loads sample_fs sample_writable sample_stats
                   _ sample_batch _ _)).
  reflexivity.
Defined.

(** ** The enhanced PDF example: failures and pages *)

Section enhanced_pages.
Import EnhancedPDFProcessor.
Variable image : Type.
Variable image_open : string → option image.
Variable json_loads : string → option json_data.
Variable fs : filesystem.
Variable read_text : string → option string.

Lemma parse_page_None a i r :
  parse_page image image_open json_loads fs read_text a i r = None
  ↔ page_raises image_open json_loads fs read_text r.
Proof.
  unfold parse_page, page_raises.
  destruct (existing fs (layout_image_path r)) as [p1|].
  - destruct (image_open p1) as [img|] eqn:Himg;
      cbn [fmap option_fmap option_map mbind option_bind];
      [|split; [intros _; left; by exists p1|done]].
    destruct (existing fs (layout_info_path r)) as [p2|].
    + destruct (json_load json_loads fs p2) as [d|] eqn:Hd;
        cbn [mbind option_bind];
        [|split; [intros _; right; left; by exists p2|done]].
      destruct (existing fs (md_content_path r)) as [p3|].
      * destruct (read_text p3) as [t|] eqn:Ht; cbn [mbind option_bind];
          [|split; [intros _; right; right; by exists p3|done]].
        split; [done|].
        intros [(p & [= <-] & Hp)|[(p & [= <-] & Hp)|(p & [= <-] & Hp)]];
          congruence.
      * cbn [mbind option_bind]. split; [done|].
        intros [(p & [= <-] & Hp)|[(p & [= <-] & Hp)|(p & [=] & Hp)]];
          congruence.
    + cbn [mbind option_bind].
      destruct (existing fs (md_content_path r)) as [p3|].
      * destruct (read_text p3) as [t|] eqn:Ht; cbn [mbind option_bind];
          [|split; [intros _; right; right; by exists p3|done]].
        split; [done|].
        intros [(p & [= <-] & Hp)|[(p & [=] & Hp)|(p & [= <-] & Hp)]];
          congruence.
      * cbn [mbind option_bind]. split; [done|].
        intros [(p & [= <-] & Hp)|[(p & [=] & Hp)|(p & [=] & Hp)]];
          congruence.
  - cbn [mbind option_bind].
    destruct (existing fs (layout_info_path r)) as [p2|].
    + destruct (json_load json_loads fs p2) as [d|] eqn:Hd;
        cbn [mbind option_bind];
        [|split; [intros _; right; left; by exists p2|done]].
      destruct (existing fs (md_content_path r)) as [p3|].
      * destruct (read_text p3) as [t|] eqn:Ht; cbn [mbind option_bind];
          [|split; [intros _; right; right; by exists p3|done]].
        split; [done|].
        intros [(p & [=] & Hp)|[(p & [= <-] & Hp)|(p & [= <-] & Hp)]];
          congruence.
      * cbn [mbind option_bind]. split; [done|].
        intros [(p & [=] & Hp)|[(p & [= <-] & Hp)|(p & [=] & Hp)]];
          congruence.
    + cbn [mbind option_bind].
      destruct (existing fs (md_content_path r)) as [p3|].
      * destruct (read_text p3) as [t|] eqn:Ht; cbn [mbind option_bind];
          [|split; [intros _; right; right; by exists p3|done]].
        split; [done|].
        intros [(p & [=] & Hp)|[(p & [=] & Hp)|(p & [= <-] & Hp)]];
          congruence.
      * cbn [mbind option_bind]. split; [done|].
        by intros [(p & [=] & Hp)|[(p & [=] & Hp)|(p & [=] & Hp)]].
Qed.

Lemma parse_pages_None a i results :
  parse_pages image image_open json_loads fs read_text a i results = None
  ↔ Exists (page_raises image_open json_loads fs read_text) results.
Proof.
  revert a i. induction results as [|r results IH]; intros a i;
    cbn [parse_pages].
  - split; [done|]. by intros ?%Exists_nil.
  - rewrite Exists_cons, <-(parse_page_None a i).
    destruct (parse_page image image_open json_loads fs read_text a i r)
      as [a'|]; cbn [mbind option_bind].
    + rewrite IH. split; [by right|]. by intros [|].
    + split; [by left|done].
Qed.

(** X12.  Once the parser has returned, [parse_pdf_with_api] answers
    [success = False] exactly when there is no page, or some page has a
    layout image that exists and cannot be opened, a layout file that
    exists and cannot be decoded, or a markdown file that exists and
    cannot be read.  A file that does not exist never makes it fail. *)
Theorem parse_pdf_with_api_fails_iff (results : list result) :
  parse_pdf_with_api image image_open json_loads fs read_text results = None
  ↔ results = []
    ∨ Exists (page_raises image_open json_loads fs read_text) results.
Proof.
  unfold parse_pdf_with_api. destruct results as [|r results].
  - split; [by left|done].
  - set (rs := r :: results). rewrite <-(parse_pages_None (Acc [] [] []) 0).
    destruct (parse_pages image image_open json_loads fs read_text
                (Acc [] [] []) 0 rs); cbn [mbind option_bind].
    + split; [done|]. by intros [|].
    + split; [by right|done].
Qed.

Lemma parse_page_pages a i r a' :
  parse_page image image_open json_loads fs read_text a i r = Some a' →
  all_md_content a'
  = all_md_content a ++ option_list (page_markdown fs read_text r) ∧
  ∃ pr, parsed_results a' = parsed_results a ++ [pr] ∧
        pr_page_no pr = default (Z.of_nat i) (page_no r) ∧
        md_content pr = page_markdown fs read_text r ∧
        (is_Some (layout_image pr)
         ↔ is_Some (existing fs (layout_image_path r))).
Proof.
  unfold parse_page, page_markdown. intros Hp.
  destruct (existing fs (layout_image_path r)) as [p1|] eqn:H1.
  - destruct (image_open p1) as [img|];
      cbn [fmap option_fmap option_map mbind option_bind] in Hp; [|done].
    destruct (match existing fs (layout_info_path r) with
              | Some p => _ | None => _ end) as [[cells all_cells]|];
      cbn [mbind option_bind] in Hp; [|done].
    destruct (existing fs (md_content_path r)) as [p3|];
      cbn [mbind option_bind] in Hp |- *.
    + destruct (read_text p3) as [t|]; cbn [mbind option_bind] in Hp;
        [|done].
      injection Hp as <-. cbn [all_md_content parsed_results option_list].
      split; [done|]. eexists. split_and!; [done..|].
      cbn [layout_image]. split; by eexists.
    + injection Hp as <-. cbn [all_md_content parsed_results option_list].
      rewrite app_nil_r.
      split; [done|]. eexists. split_and!; [done..|].
      cbn [layout_image]. split; by eexists.
  - cbn [mbind option_bind] in Hp.
    destruct (match existing fs (layout_info_path r) with
              | Some p => _ | None => _ end) as [[cells all_cells]|];
      cbn [mbind option_bind] in Hp; [|done].
    destruct (existing fs (md_content_path r)) as [p3|];
      cbn [mbind option_bind] in Hp |- *.
    + destruct (read_text p3) as [t|]; cbn [mbind option_bind] in Hp;
        [|done].
      injection Hp as <-. cbn [all_md_content parsed_results option_list].
      split; [done|]. eexists. split_and!; [done..|].
      cbn [layout_image]. split; by intros [? [=]].
    + injection Hp as <-. cbn [all_md_content parsed_results option_list].
      rewrite app_nil_r.
      split; [done|]. eexists. split_and!; [done..|].
      cbn [layout_image]. split; by intros [? [=]].
Qed.

Lemma parse_pages_pages results a i a' :
  parse_pages image image_open json_loads fs read_text a i results
  = Some a' →
  all_md_content a'
  = all_md_content a ++ omap (page_markdown fs read_text) results ∧
  ∃ prs, parsed_results a' = parsed_results a ++ prs ∧
    length prs = length results ∧
    ∀ k r, results !! k = Some r →
      ∃ pr, prs !! k = Some pr ∧
        pr_page_no pr = default (Z.of_nat (i + k)) (page_no r) ∧
        md_content pr = page_markdown fs read_text r ∧
        (is_Some (layout_image pr)
         ↔ is_Some (existing fs (layout_image_path r))).
Proof.
  revert a i. induction results as [|r results IH]; intros a i;
    cbn [parse_pages].
  - intros [= <-]. rewrite app_nil_r. split; [done|].
    exists []. by rewrite app_nil_r.
  - destruct (parse_page image image_open json_loads fs read_text a i r)
      as [a1|] eqn:H1; cbn [mbind option_bind]; [|done].
    intros H2.
    destruct (parse_page_pages _ _ _ _ H1) as (Hmd1 & pr & Hp1 & Hpr).
    destruct (IH _ _ H2) as (Hmd2 & prs & Hp2 & Hlen & Hprs).
    split.
    + rewrite Hmd2, Hmd1, <-app_assoc. f_equal.
      change (omap (page_markdown fs read_text) (r :: results))
        with (match page_markdown fs read_text r with
              | Some y => y :: omap (page_markdown fs read_text) results
              | None => omap (page_markdown fs read_text) results
              end).
      by destruct (page_markdown fs read_text r).
    + exists (pr :: prs). split_and!.
      * by rewrite Hp2, Hp1, <-app_assoc.
      * cbn [length]. by rewrite Hlen.
      * intros [|k] r' Hk; cbn [lookup list_lookup] in Hk |- *.
        -- injection Hk as <-. exists pr. by rewrite Nat.add_0_r.
        -- destruct (Hprs k r' Hk) as (pr' & Hpr' & Hrest).
           exists pr'. split; [done|].
           by replace (i + S k) with (S i + k) by lia.
Qed.

(** X13.  When [parse_pdf_with_api] succeeds it reports as many pages as
    the parser returned and holds one page result for each, in order.  A
    page result carries the page's own [page_no], or its position in the
    list when the page has none, the text of the page's markdown file when
    that file exists, and a layout image exactly when the image file
    exists; the markdown texts collected for the whole document are those
    of the pages that have one, in page order. *)
Theorem parse_pdf_with_api_page_results (results : list result)
    (out : api_output image) :
  parse_pdf_with_api image image_open json_loads fs read_text results
  = Some out →
  out_total_pages out = length results ∧
  length (out_parsed_results out) = length results ∧
  md_pages out = omap (page_markdown fs read_text) results ∧
  (∀ i r, results !! i = Some r →
     ∃ pr, out_parsed_results out !! i = Some pr ∧
       pr_page_no pr = default (Z.of_nat i) (page_no r) ∧
       md_content pr = page_markdown fs read_text r ∧
       (is_Some (layout_image pr)
        ↔ is_Some (existing fs (layout_image_path r)))).
Proof.
  unfold parse_pdf_with_api. intros Hout.
  destruct results as [|r0 results]; [done|].
  set (rs := r0 :: results) in *.
  destruct (parse_pages image image_open json_loads fs read_text
              (Acc [] [] []) 0 rs) as [a|] eqn:Ha;
    cbn [mbind option_bind] in Hout; [|done].
  injection Hout as <-.
  destruct (parse_pages_pages _ _ _ _ Ha) as (Hmd & prs & Hprs & Hlen & Hall).
  cbn [all_md_content parsed_results app] in Hmd, Hprs.
  cbn [out_total_pages out_parsed_results md_pages].
  rewrite Hprs. by split_and!.
Qed.
End enhanced_pages.

Lemma parse_pdf_with_api_fails_iff_witness :
  EnhancedPDFProcessor.parse_pdf_with_api unit (λ _, Some ())
    sample_json_loads sample_md_fs (λ _, None) sample_md_results = None.
Proof.
  apply parse_pdf_with_api_fails_iff. right. apply Exists_cons_hd.
  right. right. exists "page_0.md". split; reflexivity.
Defined.

Lemma parse_pdf_with_api_page_results_witness :
  ∃ out,
    EnhancedPDFProcessor.parse_pdf_with_api unit (λ _, Some ())
      sample_json_loads sample_md_fs sample_md_fs sample_md_results
    = Some out ∧
    EnhancedPDFProcessor.md_pages out = ["# Report"] ∧
    EnhancedPDFProcessor.out_total_pages out = 2.
Proof.
  eexists. split; [reflexivity|].
  destruct (parse_pdf_with_api_page_results unit (λ _, Some ())
              sample_json_loads sample_md_fs sample_md_fs sample_md_results
              _ eq_refl)
    as (Htotal & _ & Hmd & _).
  split; [exact Hmd|exact Htotal].
Defined.

(** ** The enhanced PDF example: structured analysis *)

Section analysis_properties.
Import EnhancedAnalysis.
Variable ratio : Type.
Variable detect_content_languages : string → ratio * ratio.
Variable gt_half : ratio → bool.
Variable lt_tenth : ratio → bool.
Variable gt_tenth : ratio → bool.

Local Abbreviation element :=
  (analyze_element ratio detect_content_languages gt_half lt_tenth gt_tenth).
Local Abbreviation analyze :=
  (analyze_structured_content ratio detect_content_languages gt_half
     lt_tenth gt_tenth).
Local Abbreviation classify :=
  (classify_language ratio gt_half lt_tenth gt_tenth).

Lemma analyze_structured_content_mapM cells :
  analyze cells
  = items ← mapM elem_item cells;
    Some (foldl element (empty_analysis ratio (length cells)) items).
Proof.
  unfold analyze_structured_content.
  generalize (empty_analysis ratio (length cells)).
  match goal with
  | |- ∀ a, foldl ?f _ _ = _ => set (step := f)
  end.
  assert (∀ l, foldl step None l = None) as Hnone.
  { induction l as [|e l IH]; [done|]. apply IH. }
  induction cells as [|e cells IH]; intros a; [done|].
  cbn [foldl]. destruct e as [it|].
  - change (step (Some a) (ElemDict it)) with (Some (element a it)).
    rewrite IH. cbn [mapM elem_item mbind option_bind].
    by destruct (mapM elem_item cells).
  - change (step (Some a) ElemOther) with (@None (analysis ratio)).
    by rewrite Hnone.
Qed.

Lemma mapM_elem_item_dicts items :
  mapM elem_item (ElemDict <$> items) = Some items.
Proof.
  induction items as [|it items IH]; [done|].
  rewrite fmap_cons. cbn [mapM elem_item mbind option_bind].
  by rewrite IH.
Qed.

Lemma mapM_elem_item_other cells :
  ElemOther ∈ cells → mapM elem_item cells = None.
Proof.
  induction cells as [|e cells IH]; [by intros ?%elem_of_nil|].
  intros [<-|Hin]%elem_of_cons; cbn [mapM elem_item mbind option_bind];
    [done|].
  rewrite (IH Hin). by destruct (elem_item e).
Qed.

Lemma analyze_element_content_types a it :
  total_elements (element a it) = total_elements a ∧
  content_types (element a it)
  = count_key counted_category (content_types a) it.
Proof.
  unfold analyze_element. cbv zeta.
  repeat case_decide; try destruct (count_language _ _ _ _ _ _ _ _);
    done.
Qed.

Lemma foldl_analyze_element_content_types items a :
  total_elements (foldl element a items) = total_elements a ∧
  content_types (foldl element a items)
  = foldl (count_key counted_category) (content_types a) items.
Proof.
  revert a. induction items as [|it items IH]; intros a; [done|].
  cbn [foldl]. destruct (IH (element a it)) as [-> ->].
  by destruct (analyze_element_content_types a it) as [-> ->].
Qed.

(** X14.  [analyze_structured_content] raises as soon as one element is
    not a dict.  On a list of dicts it returns an analysis whose
    [total_elements] is the length of the list and whose [content_types]
    hold, for every category, the number of elements counted under it
    (elements without a category under [Unknown]) and no entry for a
    category that does not occur; these counts add up to
    [total_elements]. *)
Theorem analyze_structured_content_content_types :
  (∀ cells, ElemOther ∈ cells → analyze cells = None) ∧
  (∀ items, ∃ a,
     analyze (ElemDict <$> items) = Some a ∧
     total_elements a = length items ∧
     (∀ c, content_types a !! c
           = count_entry
               (length (filter (λ it, counted_category it = c) items))) ∧
     map_sum (content_types a) = total_elements a).
Proof.
  split.
  - intros cells Hin.
    by rewrite analyze_structured_content_mapM, mapM_elem_item_other.
  - intros items. eexists. split.
    { rewrite analyze_structured_content_mapM, mapM_elem_item_dicts.
      reflexivity. }
    destruct (foldl_analyze_element_content_types items
                (empty_analysis ratio (length (ElemDict <$> items))))
      as [-> ->].
    cbn [empty_analysis total_elements content_types].
    rewrite length_fmap. split_and!.
    + done.
    + intros c. rewrite foldl_count_key_lookup. cbv zeta.
      unfold count_entry. rewrite lookup_empty. cbn [default Datatypes.id].
      by case_decide.
    + rewrite map_sum_foldl_count_key. unfold map_sum.
      by rewrite map_fold_empty.
Qed.
Lemma foldl_counter {A S} (f : S → A → S) (g : S → nat) (P : A → Prop)
    `{!∀ x, Decision (P x)} :
  (∀ s x, g (f s x) = g s + (if decide (P x) then 1 else 0)) →
  ∀ l s, g (foldl f s l) = g s + length (filter P l).
Proof.
  intros Hstep. induction l as [|x l IH]; intros s; cbn [foldl].
  - cbn. lia.
  - rewrite IH, Hstep, filter_cons. case_decide; cbn [length]; lia.
Qed.

Lemma foldl_collector {A B S} (f : S → A → S) (g : S → list B) (h : A → B)
    (P : A → Prop) `{!∀ x, Decision (P x)} :
  (∀ s x, g (f s x) = g s ++ (if decide (P x) then [h x] else [])) →
  ∀ l s, g (foldl f s l) = g s ++ (h <$> filter P l).
Proof.
  intros Hstep. induction l as [|x l IH]; intros s; cbn [foldl].
  - by rewrite app_nil_r.
  - rewrite IH, Hstep, filter_cons, <-app_assoc.
    by case_decide.
Qed.

Lemma count_language_keeps e ls tb :
  let out := count_language ratio detect_content_languages gt_half lt_tenth
               gt_tenth e ls tb in
  table_entries out.2 = table_entries tb ∧
  formula_entries out.2 = formula_entries tb ∧
  title_entries out.2 = title_entries tb.
Proof.
  cbv zeta. unfold count_language.
  destruct (detect_content_languages (en_text e)) as [cr er].
  by destruct (classify_language ratio gt_half lt_tenth gt_tenth cr er).
Qed.

Ltac not_among :=
  let H := fresh in
  intros H; repeat (apply elem_of_cons in H as [?|H]); try done;
  by apply elem_of_nil in H.

Lemma text_block_categories it :
  text_block it →
  counted_category it ≠ "Table" ∧ counted_category it ≠ "Picture" ∧
  counted_category it ≠ "Formula" ∧
  counted_category it ∉ ["Title"; "Section-header"].
Proof.
  unfold text_block. intros Hin.
  repeat (apply elem_of_cons in Hin as [->|Hin]);
    [| | |by apply elem_of_nil in Hin];
    (split_and!; [done..|]); intros H;
    repeat (apply elem_of_cons in H as [?|H]); try done;
    by apply elem_of_nil in H.
Qed.

Lemma title_categories it :
  counted_category it ∈ ["Title"; "Section-header"] →
  counted_category it ≠ "Table" ∧ counted_category it ≠ "Picture" ∧
  counted_category it ≠ "Formula".
Proof.
  intros Hin.
  repeat (apply elem_of_cons in Hin as [->|Hin]);
    [| |by apply elem_of_nil in Hin]; by split_and!.
Qed.

(** What one element adds to the counters and lists by kind. *)
Lemma analyze_element_types a it :
  let a' := element a it in
  let c := counted_category it in
  (tables (types a')
   = tables (types a) + (if decide (c = "Table") then 1 else 0) ∧
   images (types a')
   = images (types a) + (if decide (c = "Picture") then 1 else 0) ∧
   formulas (types a')
   = formulas (types a) + (if decide (c = "Formula") then 1 else 0) ∧
   titles (types a')
   = titles (types a)
     + (if decide (c ∈ ["Title"; "Section-header"]) then 1 else 0) ∧
   text_blocks (types a')
   = text_blocks (types a) + (if decide (text_block it) then 1 else 0)) ∧
  (table_entries (texts a')
   = table_entries (texts a)
     ++ (if decide (c = "Table") then [entry_of it] else []) ∧
   formula_entries (texts a')
   = formula_entries (texts a)
     ++ (if decide (c = "Formula") then [entry_of it] else []) ∧
   title_entries (texts a')
   = title_entries (texts a)
     ++ (if decide (c ∈ ["Title"; "Section-header"]) then [entry_of it]
         else [])).
Proof.
  cbv zeta. unfold analyze_element. cbv zeta.
  change (default "Unknown" (category it)) with (counted_category it).
  change (Entry (default EmptyString (text it)) (default [] (bbox it))
            (counted_category it)) with (entry_of it).
  change (counted_category it ∈ ["Text"; "List-item"; "Caption"])
    with (text_block it).
  destruct (decide (text_block it)) as [Htb|Htb].
  { destruct (text_block_categories it Htb) as (H1 & H2 & H3 & H4).
    rewrite !(decide_False (P := counted_category it = "Table")) by done.
    rewrite !(decide_False (P := counted_category it = "Picture")) by done.
    rewrite !(decide_False (P := counted_category it = "Formula")) by done.
    rewrite !(decide_False (P := counted_category it ∈ _)) by done.
    destruct (decide (PyStr.strip (default EmptyString (text it))
                      = EmptyString)).
    - cbn [types texts tables images formulas titles text_blocks].
      rewrite !app_nil_r. split_and!; lia || done.
    - pose proof (count_language_keeps (entry_of it) (languages a) (texts a))
        as Hkeep. cbv zeta in Hkeep.
      destruct (count_language ratio detect_content_languages gt_half
                  lt_tenth gt_tenth (entry_of it) (languages a) (texts a))
        as [ls tb].
      cbn [snd] in Hkeep. destruct Hkeep as (Hk1 & Hk2 & Hk3).
      cbn [types texts tables images formulas titles text_blocks].
      rewrite Hk1, Hk2, Hk3, !app_nil_r. split_and!; lia || done. }
  destruct (decide (counted_category it = "Table")) as [Hc|H1].
  { rewrite Hc.
    cbn [types texts tables images formulas titles text_blocks
         table_entries formula_entries title_entries].
    rewrite decide_False by done. rewrite decide_False by done.
    rewrite !(decide_False (P := "Table" ∈ _)) by not_among.
    rewrite !app_nil_r. split_and!; lia || done. }
  destruct (decide (counted_category it = "Picture")) as [Hc|H2].
  { rewrite Hc.
    cbn [types texts tables images formulas titles text_blocks
         table_entries formula_entries title_entries].
    rewrite decide_False by done.
    rewrite !(decide_False (P := "Picture" ∈ _)) by not_among.
    rewrite !app_nil_r. split_and!; lia || done. }
  destruct (decide (counted_category it = "Formula")) as [Hc|H3].
  { rewrite Hc.
    cbn [types texts tables images formulas titles text_blocks
         table_entries formula_entries title_entries].
    rewrite !(decide_False (P := "Formula" ∈ _)) by not_among.
    rewrite !app_nil_r. split_and!; lia || done. }
  destruct (decide (counted_category it ∈ ["Title"; "Section-header"])).
  - cbn [types texts tables images formulas titles text_blocks
         table_entries formula_entries title_entries].
    rewrite !app_nil_r. split_and!; lia || done.
  - cbn [types texts tables images formulas titles text_blocks
         table_entries formula_entries title_entries].
    rewrite !app_nil_r. split_and!; lia || done.
Qed.

(** X15.  The [element_types] counters of [analyze_structured_content]
    count the elements by category: [tables] those of category [Table],
    [images] the [Picture]s, [formulas] the [Formula]s, [titles] the
    [Title]s and [Section-header]s, [text_blocks] the [Text]s,
    [List-item]s and [Caption]s, whatever their text.  The lists of
    tables, formulas and titles hold the text, bbox and category of
    exactly those elements, in input order, so each list is as long as its
    counter; pictures are counted and not listed. *)
Theorem analyze_structured_content_element_types (items : list item)
    (a : analysis ratio) :
  analyze (ElemDict <$> items) = Some a →
  let of_category cs := filter (λ it, counted_category it ∈ cs) items in
  tables (types a) = length (of_category ["Table"]) ∧
  images (types a) = length (of_category ["Picture"]) ∧
  formulas (types a) = length (of_category ["Formula"]) ∧
  titles (types a) = length (of_category ["Title"; "Section-header"]) ∧
  text_blocks (types a)
  = length (of_category ["Text"; "List-item"; "Caption"]) ∧
  table_entries (texts a) = entry_of <$> of_category ["Table"] ∧
  formula_entries (texts a) = entry_of <$> of_category ["Formula"] ∧
  title_entries (texts a)
  = entry_of <$> of_category ["Title"; "Section-header"].
Proof.
  rewrite analyze_structured_content_mapM, mapM_elem_item_dicts.
  cbn [mbind option_bind]. intros [= <-]. cbv zeta.
  set (a0 := empty_analysis ratio (length (ElemDict <$> items))).
  assert (∀ c, filter (λ it, counted_category it ∈ [c]) items
               = filter (λ it, counted_category it = c) items) as Hone.
  { intros c. apply list_filter_iff. intros it.
    by rewrite list_elem_of_singleton. }
  rewrite !Hone. split_and!.
  - refine (foldl_counter element (λ a, tables (types a))
              (λ it, counted_category it = "Table") _ items a0).
    intros s x. apply (analyze_element_types s x).
  - refine (foldl_counter element (λ a, images (types a))
              (λ it, counted_category it = "Picture") _ items a0).
    intros s x. apply (analyze_element_types s x).
  - refine (foldl_counter element (λ a, formulas (types a))
              (λ it, counted_category it = "Formula") _ items a0).
    intros s x. apply (analyze_element_types s x).
  - refine (foldl_counter element (λ a, titles (types a))
              (λ it, counted_category it ∈ ["Title"; "Section-header"])
              _ items a0).
    intros s x. apply (analyze_element_types s x).
  - refine (foldl_counter element (λ a, text_blocks (types a)) text_block
              _ items a0).
    intros s x. apply (analyze_element_types s x).
  - refine (foldl_collector element (λ a, table_entries (texts a)) entry_of
              (λ it, counted_category it = "Table") _ items a0).
    intros s x. apply (analyze_element_types s x).
  - refine (foldl_collector element (λ a, formula_entries (texts a))
              entry_of (λ it, counted_category it = "Formula") _ items a0).
    intros s x. apply (analyze_element_types s x).
  - refine (foldl_collector element (λ a, title_entries (texts a)) entry_of
              (λ it, counted_category it ∈ ["Title"; "Section-header"])
              _ items a0).
    intros s x. apply (analyze_element_types s x).
Qed.
Local Abbreviation detected_language :=
  (detected detect_content_languages gt_half lt_tenth gt_tenth).

Lemma analyze_element_not_analysed a it :
  ¬ analysed_text it →
  languages (element a it) = languages a ∧
  ∀ l, language_texts l (texts (element a it)) = language_texts l (texts a).
Proof.
  intros Hna. unfold analyze_element. cbv zeta.
  change (default "Unknown" (category it)) with (counted_category it).
  change (counted_category it ∈ ["Text"; "List-item"; "Caption"])
    with (text_block it).
  destruct (decide (text_block it)) as [Htb|Htb].
  - destruct (text_block_categories it Htb) as (H1 & H2 & H3 & H4).
    rewrite !(decide_False (P := counted_category it = "Table")) by done.
    rewrite !(decide_False (P := counted_category it = "Picture")) by done.
    rewrite !(decide_False (P := counted_category it = "Formula")) by done.
    rewrite !(decide_False (P := counted_category it ∈ _)) by done.
    destruct (decide (PyStr.strip (default EmptyString (text it))
                      = EmptyString)) as [Hblank|Hblank]; [done|].
    by destruct Hna.
  - repeat case_decide; (split; [done|]); by intros [].
Qed.

Lemma analyze_element_analysed a it :
  analysed_text it →
  (languages (element a it), texts (element a it))
  = count_language ratio detect_content_languages gt_half lt_tenth gt_tenth
      (entry_of it) (languages a) (texts a).
Proof.
  intros [Htb Hnb]. unfold analyze_element. cbv zeta.
  change (default "Unknown" (category it)) with (counted_category it).
  change (Entry (default EmptyString (text it)) (default [] (bbox it))
            (counted_category it)) with (entry_of it).
  change (counted_category it ∈ ["Text"; "List-item"; "Caption"])
    with (text_block it).
  destruct (text_block_categories it Htb) as (H1 & H2 & H3 & H4).
  rewrite !(decide_False (P := counted_category it = "Table")) by done.
  rewrite !(decide_False (P := counted_category it = "Picture")) by done.
  rewrite !(decide_False (P := counted_category it = "Formula")) by done.
  rewrite !(decide_False (P := counted_category it ∈ _)) by done.
  rewrite (decide_True (P := text_block it)) by done.
  rewrite decide_False by done.
  by destruct (count_language _ _ _ _ _ _ _ _).
Qed.

Lemma count_language_fields it ls tb :
  let out := count_language ratio detect_content_languages gt_half lt_tenth
               gt_tenth (entry_of it) ls tb in
  total_text_elements out.1 = total_text_elements ls + 1 ∧
  ∀ l,
    language_count l out.1
    = language_count l ls
      + (if decide (detected_language it = l) then 1 else 0) ∧
    language_texts l out.2
    = language_texts l tb
      ++ (if decide (detected_language it = l)
          then [language_entry_of detect_content_languages it] else []).
Proof.
  cbv zeta. unfold count_language, detected, language_entry_of.
  cbn [entry_of en_text].
  destruct (detect_content_languages (default EmptyString (text it)))
    as [cr er].
  destruct (classify cr er); cbn [fst snd total_text_elements];
    (split; [done|]); intros []; cbn [language_count language_texts
      chinese_elements english_elements mixed_elements chinese_text
      english_text mixed_text];
    rewrite ?decide_True by done; rewrite ?decide_False by done;
    rewrite ?app_nil_r; split; lia || done.
Qed.

(** What one element adds to the language counters and lists. *)
Lemma analyze_element_languages a it :
  total_text_elements (languages (element a it))
  = total_text_elements (languages a)
    + (if decide (analysed_text it) then 1 else 0) ∧
  ∀ l,
    language_count l (languages (element a it))
    = language_count l (languages a)
      + (if decide (analysed_text it ∧ detected_language it = l) then 1
         else 0) ∧
    language_texts l (texts (element a it))
    = language_texts l (texts a)
      ++ (if decide (analysed_text it ∧ detected_language it = l)
          then [language_entry_of detect_content_languages it] else []).
Proof.
  destruct (decide (analysed_text it)) as [Ha|Hna].
  - pose proof (analyze_element_analysed a it Ha) as Hstep.
    pose proof (count_language_fields it (languages a) (texts a)) as Hf.
    cbv zeta in Hf. rewrite <-Hstep in Hf. cbn [fst snd] in Hf.
    destruct Hf as [Htotal Hl]. split; [done|].
    intros l. destruct (Hl l) as [Hc Ht]. rewrite Hc, Ht.
    destruct (decide (detected_language it = l)).
    + by rewrite !decide_True by done.
    + by rewrite !decide_False by (by intros [_ ?]).
  - destruct (analyze_element_not_analysed a it Hna) as [-> Hl].
    split; [lia|]. intros l. rewrite Hl.
    rewrite !decide_False by (by intros [? _]).
    rewrite app_nil_r. split; [lia|done].
Qed.

(** X16.  The language analysis of [analyze_structured_content] looks at
    the text blocks whose text is not blank, and at nothing else: each is
    filed under exactly one language, the one the threshold chain picks
    from its detected ratios, with its text, bbox, category and the two
    ratios, in input order.  Each language counter is the length of its
    list, the three counters add up to [total_text_elements], which is the
    number of such text blocks and at most [text_blocks]. *)
Theorem analyze_structured_content_languages (items : list item)
    (a : analysis ratio) :
  analyze (ElemDict <$> items) = Some a →
  (∀ l,
     language_texts l (texts a)
     = language_entry_of detect_content_languages
         <$> filter (λ it, analysed_text it ∧ detected_language it = l)
               items ∧
     language_count l (languages a) = length (language_texts l (texts a))) ∧
  total_text_elements (languages a) = length (filter analysed_text items) ∧
  chinese_elements (languages a) + english_elements (languages a)
  + mixed_elements (languages a)
  = total_text_elements (languages a) ∧
  total_text_elements (languages a) ≤ text_blocks (types a).
Proof.
  rewrite analyze_structured_content_mapM, mapM_elem_item_dicts.
  cbn [mbind option_bind]. intros [= <-].
  set (a0 := empty_analysis ratio (length (ElemDict <$> items))).
  assert (∀ l,
     language_texts l (texts (foldl element a0 items))
     = language_entry_of detect_content_languages
         <$> filter (λ it, analysed_text it ∧ detected_language it = l)
               items ∧
     language_count l (languages (foldl element a0 items))
     = length (filter (λ it, analysed_text it ∧ detected_language it = l)
                 items)) as Hlang.
  { intros l. split.
    - assert (language_texts l (texts a0) = []) as H0 by by destruct l.
      rewrite <-(app_nil_l (_ <$> _)), <-H0.
      refine (foldl_collector element (λ a, language_texts l (texts a))
                (language_entry_of detect_content_languages)
                (λ it, analysed_text it ∧ detected_language it = l)
                _ items a0).
      intros s x. apply (analyze_element_languages s x).
    - assert (language_count l (languages a0) = 0) as H0 by by destruct l.
      rewrite <-(Nat.add_0_l (length _)), <-H0.
      apply (foldl_counter element (λ a, language_count l (languages a))
               (λ it, analysed_text it ∧ detected_language it = l)).
      intros s x. apply (analyze_element_languages s x). }
  assert (total_text_elements (languages (foldl element a0 items))
          = length (filter analysed_text items)) as Htotal.
  { refine (foldl_counter element (λ a, total_text_elements (languages a))
              analysed_text _ items a0).
    intros s x. apply (analyze_element_languages s x). }
  split_and!.
  - intros l. destruct (Hlang l) as [Ht Hc]. split; [done|].
    by rewrite Hc, Ht, length_fmap.
  - done.
  - rewrite Htotal.
    refine (foldl_counter element
              (λ a, chinese_elements (languages a)
                    + english_elements (languages a)
                    + mixed_elements (languages a))
              analysed_text _ items a0).
    intros s x.
    destruct (analyze_element_languages s x) as [_ Hl].
    destruct (Hl Chinese) as [Hc _], (Hl English) as [He _],
      (Hl Mixed) as [Hm _].
    cbn [language_count] in Hc, He, Hm. rewrite Hc, He, Hm.
    destruct (decide (analysed_text x)) as [Hx|Hx].
    + destruct (detected_language x); repeat case_decide; try lia;
        solve [ by repeat match goal with
                          | H : _ ∧ _ = _ |- _ => destruct H as [_ ?]
                          end
              | exfalso;
                match goal with H : ¬ (_ ∧ _) |- _ => by apply H end ].
    + rewrite !decide_False by (by intros [? _]). lia.
  - rewrite Htotal.
    assert (text_blocks (types (foldl element a0 items))
            = length (filter text_block items)) as ->.
    { refine (foldl_counter element (λ a, text_blocks (types a)) text_block
                _ items a0).
      intros s x. apply (analyze_element_types s x). }
    clear. induction items as [|it items IH]; [done|].
    rewrite !filter_cons.
    destruct (decide (analysed_text it)) as [[Htb _]|_].
    + rewrite decide_True by done. cbn [length]. lia.
    + case_decide; cbn [length]; lia.
Qed.
End analysis_properties.

Lemma analyze_structured_content_element_types_witness :
  ∃ a,
    EnhancedAnalysis.analyze_structured_content Z sample_detect
      (λ r, bool_decide (50 < r)%Z) (λ r, bool_decide (r < 10)%Z)
      (λ r, bool_decide (10 < r)%Z) (ElemDict <$> sample_cells) = Some a ∧
    EnhancedAnalysis.text_blocks (EnhancedAnalysis.types a) = 3 ∧
    EnhancedAnalysis.title_entries (EnhancedAnalysis.texts a)
    = [entry_of (sample_text "Title" "Report")].
Proof.
  eexists. split; [reflexivity|].
  destruct (analyze_structured_content_element_types Z sample_detect
              (λ r, bool_decide (50 < r)%Z) (λ r, bool_decide (r < 10)%Z)
              (λ r, bool_decide (10 < r)%Z) sample_cells _ eq_refl)
    as (_ & _ & _ & _ & Hblocks & _ & _ & Htitles).
  split; [exact Hblocks|exact Htitles].
Defined.

Lemma analyze_structured_content_languages_witness :
  ∃ a,
    EnhancedAnalysis.analyze_structured_content Z sample_detect
      (λ r, bool_decide (50 < r)%Z) (λ r, bool_decide (r < 10)%Z)
      (λ r, bool_decide (10 < r)%Z) (ElemDict <$> sample_cells) = Some a ∧
    EnhancedAnalysis.total_text_elements (EnhancedAnalysis.languages a) = 2 ∧
    EnhancedAnalysis.english_elements (EnhancedAnalysis.languages a) = 2.
Proof.
  eexists. split; [reflexivity|].
  destruct (analyze_structured_content_languages Z sample_detect
              (λ r, bool_decide (50 < r)%Z) (λ r, bool_decide (r < 10)%Z)
              (λ r, bool_decide (10 < r)%Z) sample_cells _ eq_refl)
    as (Hlang & Htotal & _ & _).
  split; [exact Htotal|].
  destruct (Hlang EnhancedAnalysis.English) as [_ Hcount].
  exact Hcount.
Defined.

(** ** Region OCR *)

Section grounding_properties.
Import GroundingRegions.
Variable ocr_region : list Z → option string.

Lemma ocr_multiple_regions_fmap bboxes :
  ocr_multiple_regions ocr_region bboxes
  = (λ bbox, (bbox, default EmptyString (ocr_region bbox))) <$> bboxes.
Proof.
  unfold ocr_multiple_regions.
  by rewrite (foldl_snoc_fmap
                (λ bbox, (bbox, default EmptyString (ocr_region bbox)))).
Qed.

(** X17.  [ocr_multiple_regions] returns one pair per region, in the
    order given, each holding the region and its text; a region whose OCR
    raises gets the empty text and leaves the other regions as they are,
    so the result for a list of regions is that of any of its parts put
    together. *)
Theorem ocr_multiple_regions_one_per_region (bboxes : list (list Z)) :
  (ocr_multiple_regions ocr_region bboxes).*1 = bboxes ∧
  (∀ i bbox, bboxes !! i = Some bbox →
     ocr_multiple_regions ocr_region bboxes !! i
     = Some (bbox, match ocr_region bbox with
                   | Some text => text
                   | None => EmptyString
                   end)) ∧
  (∀ front back, bboxes = front ++ back →
     ocr_multiple_regions ocr_region bboxes
     = ocr_multiple_regions ocr_region front
       ++ ocr_multiple_regions ocr_region back).
Proof.
  rewrite ocr_multiple_regions_fmap. split_and!.
  - rewrite <-list_fmap_compose. apply list_fmap_id.
  - intros i bbox Hi. rewrite list_lookup_fmap, Hi. cbn [fmap option_fmap
      option_map]. by destruct (ocr_region bbox).
  - intros front back ->.
    by rewrite !ocr_multiple_regions_fmap, fmap_app.
Qed.

(** X18.  [detect_then_ocr] reads exactly the detected elements whose
    category is among the targets and whose bbox has at least four
    entries, in layout order; without target categories these are [Text],
    [Title], [Table] and [Formula].  Every result carries the element's
    bbox, its category and the text of the region, empty when the OCR of
    that region raised, and an element without category or without bbox
    is never read. *)
Theorem detect_then_ocr_target_regions
    (target_categories : option (list string)) (layout_data : list item) :
  let targets :=
    default ["Text"; "Title"; "Table"; "Formula"] target_categories in
  let out := detect_then_ocr ocr_region target_categories layout_data in
  out
  = (λ it, (default [] (bbox it), default EmptyString (category it),
            default EmptyString (ocr_region (default [] (bbox it)))))
      <$> filter (λ it, default EmptyString (category it) ∈ targets ∧
                        4 ≤ length (default [] (bbox it))) layout_data ∧
  length out ≤ length layout_data ∧
  (∀ it, it ∈ layout_data → bbox it = None ∨ category it = None →
     EmptyString ∉ targets →
     ∀ r, r ∈ out → r.1 ≠ (default [] (bbox it),
                           default EmptyString (category it))).
Proof.
  cbv zeta. unfold detect_then_ocr.
  rewrite target_regions_filter.
  set (targets := default ["Text"; "Title"; "Table"; "Formula"]
                    target_categories).
  set (P := λ it : item, default EmptyString (category it) ∈ targets ∧
                         4 ≤ length (default [] (bbox it))).
  assert (∀ (l : list (list Z * string)) acc,
            foldl (λ results '(bbox, category),
                     results ++ [(bbox, category,
                                  default EmptyString (ocr_region bbox))])
                  acc l
            = acc
              ++ ((λ '(bbox, category),
                     (bbox, category, default EmptyString (ocr_region bbox)))
                    <$> l)) as Hfold.
  { induction l as [|[bbox category] l IH]; intros acc; cbn [foldl].
    - by rewrite app_nil_r.
    - by rewrite IH, fmap_cons, <-app_assoc. }
  rewrite Hfold, app_nil_l, <-list_fmap_compose.
  split_and!.
  - done.
  - rewrite length_fmap. apply length_filter.
  - intros it Hin Hmissing Hempty r Hr Heq.
    apply list_elem_of_fmap in Hr as (it' & -> & Hit').
    apply list_elem_of_filter in Hit' as [[Hcat Hlen] _].
    cbn [fst compose] in Heq. injection Heq as Hb Hc.
    destruct Hmissing as [Hnone|Hnone]; rewrite Hnone in *;
      cbn [default Datatypes.id] in *.
    + rewrite Hb in Hlen. cbn [length] in Hlen. lia.
    + rewrite Hc in Hcat. done.
Qed.
End grounding_properties.

Lemma ocr_multiple_regions_one_per_region_witness :
  GroundingRegions.ocr_multiple_regions sample_ocr_region
    [[0; 0; 10; 10]; [5; 5; 10; 10]]%Z
  = [([0; 0; 10; 10]%Z, EmptyString); ([5; 5; 10; 10]%Z, "text")].
Proof.
  destruct (ocr_multiple_regions_one_per_region sample_ocr_region
              [[0; 0; 10; 10]; [5; 5; 10; 10]]%Z) as (_ & _ & Hparts).
  apply (Hparts [[0; 0; 10; 10]%Z] [[5; 5; 10; 10]%Z] eq_refl).
Defined.

Lemma detect_then_ocr_target_regions_witness :
  GroundingRegions.detect_then_ocr sample_ocr_region None sample_page
  = [([10; 10; 200; 40]%Z, "Title", "text");
     ([10; 50; 200; 100]%Z, "Text", "text");
     ([10; 110; 200; 300]%Z, "Table", "text");
     ([10; 310; 200; 400]%Z, "Text", "text")].
Proof.
  apply (detect_then_ocr_target_regions sample_ocr_region None sample_page).
Defined.

(** ** The CSV and text files *)

Section formats_properties.
Import PyStr AdvancedParser AdvancedParserFormats.
Variable str_bbox : list Z → string.

Lemma quotes_app a b : quotes (a +:+ b) = quotes a + quotes b.
Proof.
  unfold quotes. by rewrite list_of_string_app, filter_app, length_app.
Qed.

Lemma csv_unquote_cons c l :
  c ≠ quote_char → csv_unquote (c :: l) = c :: csv_unquote l.
Proof.
  intros Hc. destruct l as [|c' l]; [done|].
  cbn [csv_unquote]. rewrite decide_False; [done|]. by intros [? _].
Qed.

Lemma escape_quotes_chars text :
  String.list_ascii_of_string (escape_quotes text)
  = c ← String.list_ascii_of_string text;
    if decide (c = quote_char) then [c; c] else [c].
Proof. unfold escape_quotes. apply list_of_string_of_list. Qed.

Lemma escape_quotes_unquote text :
  csv_unquote (String.list_ascii_of_string (escape_quotes text))
  = String.list_ascii_of_string text.
Proof.
  rewrite escape_quotes_chars.
  induction (String.list_ascii_of_string text) as [|c l IH]; [done|].
  rewrite bind_cons. destruct (decide (c = quote_char)) as [->|Hc].
  - cbn [app csv_unquote]. rewrite decide_True by done. by rewrite IH.
  - cbn [app]. by rewrite csv_unquote_cons, IH.
Qed.

Lemma escape_quotes_quotes text :
  quotes (escape_quotes text) = 2 * quotes text.
Proof.
  unfold quotes. rewrite escape_quotes_chars.
  induction (String.list_ascii_of_string text) as [|c l IH]; [done|].
  rewrite bind_cons, filter_app, length_app, IH, (filter_cons _ c l).
  destruct (decide (c = quote_char)) as [->|Hc].
  - rewrite !filter_cons_True by done. rewrite filter_nil.
    cbn [length]. lia.
  - rewrite !filter_cons_False by done. rewrite filter_nil.
    cbn [length]. lia.
Qed.

Lemma csv_writes_fmap layout_data :
  csv_writes str_bbox layout_data
  = ("category,bbox,text" +:+ nl) :: (csv_row str_bbox <$> layout_data).
Proof.
  unfold csv_writes.
  by rewrite (foldl_snoc_fmap (csv_row str_bbox) _ layout_data).
Qed.

(** X19.  The CSV file of [save_results_multiple_formats] gets the header
    and then one row per element, in layout order.  In a row only the
    text is escaped: doubling its quotes is undone by reading two quotes
    as one, and doubles their number, so a row holds the six quotes of its
    three fields, those of the category and of the bbox as they are, and
    twice those of the text. *)
Theorem csv_writes_rows (layout_data : list item) :
  length (csv_writes str_bbox layout_data) = S (length layout_data) ∧
  (∀ i it, layout_data !! i = Some it →
     csv_writes str_bbox layout_data !! S i = Some (csv_row str_bbox it) ∧
     csv_unquote
       (String.list_ascii_of_string
          (escape_quotes (default EmptyString (text it))))
     = String.list_ascii_of_string (default EmptyString (text it)) ∧
     quotes (csv_row str_bbox it)
     = 6 + quotes (default EmptyString (category it))
       + quotes (str_bbox (default [] (bbox it)))
       + 2 * quotes (default EmptyString (text it))).
Proof.
  rewrite csv_writes_fmap. split.
  - cbn [length]. by rewrite length_fmap.
  - intros i it Hi. split_and!.
    + change ((csv_row str_bbox <$> layout_data) !! i
              = Some (csv_row str_bbox it)).
      by rewrite list_lookup_fmap, Hi.
    + apply escape_quotes_unquote.
    + unfold csv_row. cbv zeta.
      rewrite !quotes_app, escape_quotes_quotes.
      change (quotes quote) with 1. change (quotes ",") with 0.
      change (quotes nl) with 0. lia.
Qed.

Lemma numbered_from_elem_of line n items :
  line ∈ numbered_from n items
  ↔ ∃ i it, items !! i = Some it ∧
            strip (default EmptyString (text it)) ≠ EmptyString ∧
            line = numbered_line (n + i) (default EmptyString (text it)).
Proof.
  revert n. induction items as [|it items IH]; intros n;
    cbn [numbered_from].
  - split; [by intros ?%elem_of_nil|by intros (i & it & ? & _)].
  - rewrite elem_of_app, IH. split.
    + intros [Hhd|(i & it' & Hi & Hnb & ->)].
      * destruct (decide (strip (default EmptyString (text it))
                          = EmptyString)) as [|Hnb];
          [by apply elem_of_nil in Hhd|].
        apply list_elem_of_singleton in Hhd as ->.
        exists 0, it. by rewrite Nat.add_0_r.
      * exists (S i), it'. split_and!; [done..|]. f_equal. lia.
    + intros ([|i] & it' & Hi & Hnb & ->); cbn [lookup list_lookup] in Hi.
      * injection Hi as ->. left. rewrite decide_False by done.
        rewrite Nat.add_0_r. apply list_elem_of_here.
      * right. exists i, it'. split_and!; [done..|]. f_equal. lia.
Qed.

Lemma txt_category_app written c items :
  txt_category written (c, items)
  = written ++ match items with
               | [] => []
               | _ => category_header c :: numbered_from 1 items
               end.
Proof.
  unfold txt_category. destruct items as [|it0 items0];
    [by rewrite app_nil_r|].
  set (items := it0 :: items0).
  match goal with |- (foldl ?f _ _).1 = _ => set (step := f) end.
  assert (∀ l w n, foldl step (w, n) l
                   = (w ++ numbered_from n l, n + length l)) as Hgen.
  { induction l as [|it l IH]; intros w n; cbn [foldl numbered_from length].
    - by rewrite app_nil_r, Nat.add_0_r.
    - change (step (w, n) it)
        with (if decide (strip (default EmptyString (text it))
                         = EmptyString) then w
              else w ++ [numbered_line n (default EmptyString (text it))],
              S n).
      rewrite IH. f_equal; [|lia].
      case_decide; [done|]. by rewrite <-app_assoc. }
  rewrite Hgen. cbn [fst]. by rewrite <-app_assoc.
Qed.

Lemma foldl_txt_category written entries :
  foldl txt_category written entries
  = written
    ++ (entries ≫= λ '(c, items),
          match items with
          | [] => []
          | _ => category_header c :: numbered_from 1 items
          end).
Proof.
  revert written. induction entries as [|[c items] entries IH];
    intros written; cbn [foldl].
  - by rewrite app_nil_r.
  - by rewrite IH, txt_category_app, bind_cons, <-app_assoc.
Qed.

Lemma structured_items_elem_of layout_data c items :
  (c, items) ∈ structured_items (extract_structured_content layout_data)
  ↔ extract_structured_content layout_data !! c = Some items.
Proof.
  unfold structured_items. rewrite list_elem_of_fmap. split.
  - intros (c' & [= -> ->] & Hc).
    rewrite extract_structured_content_lookup, decide_True by done.
    done.
  - intros Hc. exists c. rewrite Hc. split; [done|].
    rewrite extract_structured_content_lookup in Hc.
    by case_decide.
Qed.

(** X20.  The structured text file of [save_results_multiple_formats]
    holds exactly this: the header of every category under which
    [extract_structured_content] stored an element, and under it the texts
    of that category that are not blank.  The number written before a text
    is the position of its element in the category's list, counted from
    one and counting the elements with a blank text too. *)
Theorem txt_writes_numbered (layout_data : list item) :
  let structured := extract_structured_content layout_data in
  (∀ c items, structured !! c = Some items → items ≠ [] →
     category_header c ∈ txt_writes layout_data ∧
     ∀ i it, items !! i = Some it →
       strip (default EmptyString (text it)) ≠ EmptyString →
       numbered_line (S i) (default EmptyString (text it))
       ∈ txt_writes layout_data) ∧
  (∀ line, line ∈ txt_writes layout_data →
     ∃ c items, structured !! c = Some items ∧ items ≠ [] ∧
       (line = category_header c ∨
        ∃ i it, items !! i = Some it ∧
          strip (default EmptyString (text it)) ≠ EmptyString ∧
          line = numbered_line (S i) (default EmptyString (text it)))).
Proof.
  cbv zeta. unfold txt_writes. rewrite foldl_txt_category, app_nil_l.
  split.
  - intros c items Hc Hne.
    apply structured_items_elem_of in Hc.
    split.
    + apply list_elem_of_bind. exists (c, items). split; [|done].
      destruct items; [done|]. apply list_elem_of_here.
    + intros i it Hi Hnb.
      apply list_elem_of_bind. exists (c, items). split; [|done].
      destruct items as [|it0 items0]; [done|].
      apply list_elem_of_further, numbered_from_elem_of.
      by exists i, it.
  - intros line Hline.
    apply list_elem_of_bind in Hline as ([c items] & Hline & Hc).
    apply structured_items_elem_of in Hc.
    exists c, items. destruct items as [|it0 items0];
      [by apply elem_of_nil in Hline|].
    split_and!; [done..|].
    apply elem_of_cons in Hline as [->|Hline]; [by left|right].
    apply numbered_from_elem_of in Hline as (i & it & Hi & Hnb & ->).
    by exists i, it.
Qed.
End formats_properties.

Lemma txt_writes_numbered_witness :
  AdvancedParserFormats.numbered_line 3 "Figure 1"
  ∈ AdvancedParserFormats.txt_writes
      [sample_text "Caption" "  "; sample_text "Text" "Body";
       sample_text "Caption" EmptyString; sample_text "Caption" "Figure 1"].
Proof.
  destruct (txt_writes_numbered
              [sample_text "Caption" "  "; sample_text "Text" "Body";
               sample_text "Caption" EmptyString;
               sample_text "Caption" "Figure 1"]) as [Hin _].
  destruct (Hin "Caption"
              [sample_text "Caption" "  "; sample_text "Caption" EmptyString;
               sample_text "Caption" "Figure 1"]) as [_ Hlines];
    [reflexivity|done|].
  apply (Hlines 2 (sample_text "Caption" "Figure 1")); [reflexivity|done].
Defined.
